(** * ecl_grid: index maps, LGR bookkeeping and geometric queries

    A shallow embedding of [devel/libecl/src/ecl_grid.c] and the proofs of the
    properties its specification states about it.

    Conventions of the embedding.

    - C [int] values are integers of [Z].  Every index the code computes is
      bounded by the number of cells [nx*ny*nz], which is the element count of
      an allocated array and therefore fits an [int]; lemma
      [global_index_int_range] records this, so no wrap-around occurs on the
      paths modelled here.
    - C [double] coordinates are exact rationals of [Q]: comparisons, sums
      and products are the exact ones.  Where the rounding of doubles
      decides a statement (the value of a volume), the computation is
      embedded a second time on binary64 numbers, in module [Double].
    - Arrays are lists, indexed through [array_get] and [array_set], which
      [Fault] on an index outside the array (undefined behaviour in C).
    - Pointers to grids are handles into a store ([gmap]); [None] is NULL.
    - [util_abort] does not return: a function that reaches it yields
      [Abort]. *)

From Stdlib Require Import ZArith QArith Qabs Lia PrimFloat.
From stdpp Require Import base option list strings gmap.

Local Open Scope Z_scope.

(** ** Outcomes of a call *)

Inductive result (A : Type) : Type :=
| Ok (a : A)
| Abort
| Fault.
Arguments Ok {A} a.
Arguments Abort {A}.
Arguments Fault {A}.

#[global] Instance result_ret : MRet result := fun A a => Ok a.
#[global] Instance result_bind : MBind result := fun A B f r =>
  match r with
  | Ok a => f a
  | Abort => Abort
  | Fault => Fault
  end.

(** ** Arrays *)

Definition array_get {A} (l : list A) (i : Z) : result A :=
  if i <? 0 then Fault
  else match l !! Z.to_nat i with
       | Some x => Ok x
       | None => Fault
       end.

Definition array_set {A} (l : list A) (i : Z) (x : A) : result (list A) :=
  if (0 <=? i) && (i <? Z.of_nat (length l)) then Ok (<[Z.to_nat i := x]> l)
  else Fault.

(** [for (i = lo; i < hi; i++) body], the body threading a state: the
    body is run on lo, lo+1, ..., hi-1 in this order and the first call that
    does not return ends the loop. *)

Fixpoint foldM {A St} (body : A → St → result St) (l : list A) (s : St) : result St :=
  match l with
  | [] => Ok s
  | a :: l' => body a s ≫= foldM body l'
  end.

Definition for_loop {St} (lo hi : Z) (body : Z → St → result St) (s : St) : result St :=
  foldM body (seqZ lo (hi - lo)) s.

(** ** Points, tetrahedra and cells *)

Record point := mk_point { px : Q; py : Q; pz : Q }.

Record tetrahedron := mk_tet { tp0 : point; tp1 : point; tp2 : point; tp3 : point }.

(** The eight corners [corner_list[0..7]] of a cell. *)
Record corners := mk_corners {
  cnr0 : point; cnr1 : point; cnr2 : point; cnr3 : point;
  cnr4 : point; cnr5 : point; cnr6 : point; cnr7 : point }.

Definition corner (cs : corners) (c : Z) : point :=
  match c with
  | 0 => cnr0 cs | 1 => cnr1 cs | 2 => cnr2 cs | 3 => cnr3 cs
  | 4 => cnr4 cs | 5 => cnr5 cs | 6 => cnr6 cs | _ => cnr7 cs
  end.

Abbreviation grid_ref := nat (only parsing).

Record ecl_cell := mk_cell {
  active : bool;
  active_index : Z;
  center : point;
  corner_list : corners;
  lgr : option grid_ref;
  host_cell : Z;
  tainted_geometry : bool }.

(** ** Grids *)

(** A node of the [vector_type] holding the LGR list: the stored pointer and
    whether the vector owns it (was given a destructor). *)
Record vector_node := mk_node { node_data : grid_ref; node_owned : bool }.

(** The fields of [ecl_grid_struct] that the functions modelled here read or
    write.  The axis transform ([use_mapaxes], [unit_x], [unit_y], [origo]),
    [parent_box] and the blocking variables are left out. *)
Record ecl_grid := mk_grid {
  grid_nr : Z;
  name : option string;
  nx : Z; ny : Z; nz : Z;
  size : Z;
  total_active : Z;
  visited : option (list bool);
  index_map : list Z;
  inv_index_map : list Z;
  cells : list ecl_cell;
  parent_name : option string;
  children : gmap string grid_ref;
  parent_grid : option grid_ref;
  global_grid : option grid_ref;
  LGR_list : option (list vector_node);
  LGR_hash : option (gmap string grid_ref) }.

(** Field updates ([cell->f = v], [grid->f = v]). *)

Definition cell_set_active (c : ecl_cell) (v : bool) : ecl_cell :=
  mk_cell v (active_index c) (center c) (corner_list c) (lgr c) (host_cell c)
          (tainted_geometry c).
Definition cell_set_active_index (c : ecl_cell) (v : Z) : ecl_cell :=
  mk_cell (active c) v (center c) (corner_list c) (lgr c) (host_cell c)
          (tainted_geometry c).
Definition cell_set_center (c : ecl_cell) (v : point) : ecl_cell :=
  mk_cell (active c) (active_index c) v (corner_list c) (lgr c) (host_cell c)
          (tainted_geometry c).
Definition cell_set_lgr (c : ecl_cell) (v : option grid_ref) : ecl_cell :=
  mk_cell (active c) (active_index c) (center c) (corner_list c) v (host_cell c)
          (tainted_geometry c).
Definition cell_set_host_cell (c : ecl_cell) (v : Z) : ecl_cell :=
  mk_cell (active c) (active_index c) (center c) (corner_list c) (lgr c) v
          (tainted_geometry c).
Definition cell_set_tainted_geometry (c : ecl_cell) (v : bool) : ecl_cell :=
  mk_cell (active c) (active_index c) (center c) (corner_list c) (lgr c)
          (host_cell c) v.

Definition grid_set_cells (g : ecl_grid) (v : list ecl_cell) : ecl_grid :=
  mk_grid (grid_nr g) (name g) (nx g) (ny g) (nz g) (size g) (total_active g)
          (visited g) (index_map g) (inv_index_map g) v (parent_name g)
          (children g) (parent_grid g) (global_grid g) (LGR_list g) (LGR_hash g).
Definition grid_set_total_active (g : ecl_grid) (v : Z) : ecl_grid :=
  mk_grid (grid_nr g) (name g) (nx g) (ny g) (nz g) (size g) v
          (visited g) (index_map g) (inv_index_map g) (cells g) (parent_name g)
          (children g) (parent_grid g) (global_grid g) (LGR_list g) (LGR_hash g).
Definition grid_set_index_maps (g : ecl_grid) (im inv : list Z) : ecl_grid :=
  mk_grid (grid_nr g) (name g) (nx g) (ny g) (nz g) (size g) (total_active g)
          (visited g) im inv (cells g) (parent_name g)
          (children g) (parent_grid g) (global_grid g) (LGR_list g) (LGR_hash g).
Definition grid_set_visited (g : ecl_grid) (v : option (list bool)) : ecl_grid :=
  mk_grid (grid_nr g) (name g) (nx g) (ny g) (nz g) (size g) (total_active g)
          v (index_map g) (inv_index_map g) (cells g) (parent_name g)
          (children g) (parent_grid g) (global_grid g) (LGR_list g) (LGR_hash g).
Definition grid_set_children (g : ecl_grid) (v : gmap string grid_ref) : ecl_grid :=
  mk_grid (grid_nr g) (name g) (nx g) (ny g) (nz g) (size g) (total_active g)
          (visited g) (index_map g) (inv_index_map g) (cells g) (parent_name g)
          v (parent_grid g) (global_grid g) (LGR_list g) (LGR_hash g).
Definition grid_set_parent_grid (g : ecl_grid) (v : option grid_ref) : ecl_grid :=
  mk_grid (grid_nr g) (name g) (nx g) (ny g) (nz g) (size g) (total_active g)
          (visited g) (index_map g) (inv_index_map g) (cells g) (parent_name g)
          (children g) v (global_grid g) (LGR_list g) (LGR_hash g).
Definition grid_set_LGR (g : ecl_grid) (l : option (list vector_node))
    (h : option (gmap string grid_ref)) : ecl_grid :=
  mk_grid (grid_nr g) (name g) (nx g) (ny g) (nz g) (size g) (total_active g)
          (visited g) (index_map g) (inv_index_map g) (cells g) (parent_name g)
          (children g) (parent_grid g) (global_grid g) l h.
Definition grid_set_name (g : ecl_grid) (v : option string) : ecl_grid :=
  mk_grid (grid_nr g) v (nx g) (ny g) (nz g) (size g) (total_active g)
          (visited g) (index_map g) (inv_index_map g) (cells g) (parent_name g)
          (children g) (parent_grid g) (global_grid g) (LGR_list g) (LGR_hash g).

(** ** Index conversions *)

Definition ecl_grid_get_global_index__ (g : ecl_grid) (i j k : Z) : Z :=
  i + j * nx g + k * nx g * ny g.

Definition ecl_grid_ijk_valid (g : ecl_grid) (i j k : Z) : bool :=
  if (0 <=? i) && (i <? nx g) then
    if (0 <=? j) && (j <? ny g) then
      if (0 <=? k) && (k <? nz g) then true else false
    else false
  else false.

Definition ecl_grid_get_global_index3 (g : ecl_grid) (i j k : Z) : result Z :=
  if ecl_grid_ijk_valid g i j k then Ok (ecl_grid_get_global_index__ g i j k)
  else Abort.

(** C integer division truncates ([Z.quot]); dividing by zero is undefined. *)
Definition int_div (a b : Z) : result Z :=
  if b =? 0 then Fault else Ok (Z.quot a b).

Definition ecl_grid_get_ijk1 (g : ecl_grid) (global_index : Z) : result (Z * Z * Z) :=
  k ← int_div global_index (nx g * ny g);
  let global_index := global_index - k * (nx g * ny g) in
  j ← int_div global_index (nx g);
  let global_index := global_index - j * nx g in
  Ok (global_index, j, k).

(** ** The active index and the index maps *)

(** [util_realloc]: the first elements are kept, the elements added have
    indeterminate contents, here [fill]. *)
Definition util_realloc (fill : Z) (old : list Z) (n : Z) : list Z :=
  resize (Z.to_nat n) fill old.

Definition ecl_grid_realloc_index_map (fill : Z) (g : ecl_grid) : result ecl_grid :=
  let index_map0 := util_realloc fill (index_map g) (size g) in
  let inv_index_map0 := util_realloc fill (inv_index_map g) (total_active g) in
  '(im, inv) ←
    for_loop 0 (size g) (λ index '(im, inv),
      cell ← array_get (cells g) index;
      if active cell then
        im' ← array_set im index (active_index cell);
        inv' ← array_set inv (active_index cell) index;
        Ok (im', inv')
      else
        im' ← array_set im index (-1);
        Ok (im', inv))
      (index_map0, inv_index_map0);
  Ok (grid_set_index_maps g im inv).

Definition set_active_index_body (g : ecl_grid) (i j k : Z)
    (st : list ecl_cell * Z) : result (list ecl_cell * Z) :=
  let '(cs, active_index) := st in
  let global_index := ecl_grid_get_global_index__ g i j k in
  cell ← array_get cs global_index;
  if active cell then
    cs' ← array_set cs global_index (cell_set_active_index cell active_index);
    Ok (cs', active_index + 1)
  else
    cs' ← array_set cs global_index (cell_set_active_index cell (-1));
    Ok (cs', active_index).

Definition ecl_grid_set_active_index (g : ecl_grid) : result ecl_grid :=
  '(cs, active_index) ←
    for_loop 0 (nz g) (λ k,
      for_loop 0 (ny g) (λ j,
        for_loop 0 (nx g) (λ i, set_active_index_body g i j k)))
      (cells g, 0);
  Ok (grid_set_total_active (grid_set_cells g cs) active_index).

Definition ecl_grid_update_index (fill : Z) (g : ecl_grid) : result ecl_grid :=
  g ← ecl_grid_set_active_index g;
  ecl_grid_realloc_index_map fill g.

Definition ecl_grid_get_global_index1A (g : ecl_grid) (active_index : Z) : result Z :=
  array_get (inv_index_map g) active_index.

Definition ecl_grid_get_active_index1 (g : ecl_grid) (global_index : Z) : result Z :=
  array_get (index_map g) global_index.

Definition ecl_grid_get_active_index3 (g : ecl_grid) (i j k : Z) : result Z :=
  global_index ← ecl_grid_get_global_index3 g i j k;
  ecl_grid_get_active_index1 g global_index.

(** The cells in the order the triple loop of [ecl_grid_set_active_index]
    visits them: k outermost, then j, i innermost. *)
Definition traversal (g : ecl_grid) : list (Z * Z * Z) :=
  k ← seqZ 0 (nz g); j ← seqZ 0 (ny g); i ← seqZ 0 (nx g); [(i, j, k)].

Definition cell_active_at (g : ecl_grid) (ijk : Z * Z * Z) : bool :=
  let '(i, j, k) := ijk in
  match array_get (cells g) (ecl_grid_get_global_index__ g i j k) with
  | Ok c => active c
  | _ => false
  end.

(** Number of active cells among the cells at the coordinates of [l]. *)
Definition count_active_at (g : ecl_grid) (l : list (Z * Z * Z)) : Z :=
  Z.of_nat (length (List.filter (cell_active_at g) l)).

Fixpoint count_active (cs : list ecl_cell) : Z :=
  match cs with
  | [] => 0
  | c :: cs' => (if active c then 1 else 0) + count_active cs'
  end.

(** What [ecl_grid_alloc_empty] and the loaders establish. *)
Definition grid_wf (g : ecl_grid) : Prop :=
  0 <= nx g ∧ 0 <= ny g ∧ 0 <= nz g ∧
  size g = nx g * ny g * nz g ∧
  Z.of_nat (length (cells g)) = size g.

(** *** Reference functions for the index maps

    One step of the triple loop, as a function of the global index, and the
    values the two passes are shown to compute. *)

Definition active_index_step (global_index : Z)
    (st : list ecl_cell * Z) : result (list ecl_cell * Z) :=
  let '(cs, active_index) := st in
  cell ← array_get cs global_index;
  if active cell then
    cs' ← array_set cs global_index (cell_set_active_index cell active_index);
    Ok (cs', active_index + 1)
  else
    cs' ← array_set cs global_index (cell_set_active_index cell (-1));
    Ok (cs', active_index).

Fixpoint ranked (ai : Z) (cs : list ecl_cell) : list ecl_cell :=
  match cs with
  | [] => []
  | c :: cs' =>
      if active c then cell_set_active_index c ai :: ranked (ai + 1) cs'
      else cell_set_active_index c (-1) :: ranked ai cs'
  end.

Fixpoint active_positions (n : Z) (cs : list ecl_cell) : list Z :=
  match cs with
  | [] => []
  | c :: cs' =>
      if active c then n :: active_positions (n + 1) cs'
      else active_positions (n + 1) cs'
  end.

Definition index_map_entry (c : ecl_cell) : Z :=
  if active c then active_index c else -1.

Definition index_map_step (cs : list ecl_cell) (index : Z)
    (st : list Z * list Z) : result (list Z * list Z) :=
  let '(im, inv) := st in
  cell ← array_get cs index;
  if active cell then
    im' ← array_set im index (active_index cell);
    inv' ← array_set inv (active_index cell) index;
    Ok (im', inv')
  else
    im' ← array_set im index (-1);
    Ok (im', inv).

(** ** Cell geometry *)

Definition Qltb (x y : Q) : bool := negb (Qle_bool y x).
Definition Qgtb (x y : Q) : bool := negb (Qle_bool x y).

Definition max2 (x1 x2 : Q) : Q := if Qgtb x1 x2 then x1 else x2.
Definition min2 (x1 x2 : Q) : Q := if Qltb x1 x2 then x1 else x2.
Definition min4 (x1 x2 x3 x4 : Q) : Q := min2 (min2 x1 x2) (min2 x3 x4).
Definition max4 (x1 x2 x3 x4 : Q) : Q := max2 (max2 x1 x2) (max2 x3 x4).
Definition max8 (x1 x2 x3 x4 x5 x6 x7 x8 : Q) : Q :=
  max2 (max4 x1 x2 x3 x4) (max4 x5 x6 x7 x8).
Definition min8 (x1 x2 x3 x4 x5 x6 x7 x8 : Q) : Q :=
  min2 (min4 x1 x2 x3 x4) (min4 x5 x6 x7 x8).

Definition cell_corner (cell : ecl_cell) (c : Z) : point := corner (corner_list cell) c.

Definition ecl_cell_min_z (cell : ecl_cell) : Q :=
  min4 (pz (cell_corner cell 0)) (pz (cell_corner cell 1))
       (pz (cell_corner cell 2)) (pz (cell_corner cell 3)).
Definition ecl_cell_max_z (cell : ecl_cell) : Q :=
  max4 (pz (cell_corner cell 4)) (pz (cell_corner cell 5))
       (pz (cell_corner cell 6)) (pz (cell_corner cell 7)).
Definition ecl_cell_min_x (cell : ecl_cell) : Q :=
  min8 (px (cell_corner cell 0)) (px (cell_corner cell 1))
       (px (cell_corner cell 2)) (px (cell_corner cell 3))
       (px (cell_corner cell 4)) (px (cell_corner cell 5))
       (px (cell_corner cell 6)) (px (cell_corner cell 7)).
Definition ecl_cell_max_x (cell : ecl_cell) : Q :=
  max8 (px (cell_corner cell 0)) (px (cell_corner cell 1))
       (px (cell_corner cell 2)) (px (cell_corner cell 3))
       (px (cell_corner cell 4)) (px (cell_corner cell 5))
       (px (cell_corner cell 6)) (px (cell_corner cell 7)).
Definition ecl_cell_min_y (cell : ecl_cell) : Q :=
  min8 (py (cell_corner cell 0)) (py (cell_corner cell 1))
       (py (cell_corner cell 2)) (py (cell_corner cell 3))
       (py (cell_corner cell 4)) (py (cell_corner cell 5))
       (py (cell_corner cell 6)) (py (cell_corner cell 7)).
Definition ecl_cell_max_y (cell : ecl_cell) : Q :=
  max8 (py (cell_corner cell 0)) (py (cell_corner cell 1))
       (py (cell_corner cell 2)) (py (cell_corner cell 3))
       (py (cell_corner cell 4)) (py (cell_corner cell 5))
       (py (cell_corner cell 6)) (py (cell_corner cell 7)).

(** [(p->x == 0) && (p->y == 0)] *)
Definition at_origin_xy (p : point) : bool :=
  Qeq_bool (px p) 0 && Qeq_bool (py p) 0.

Definition taint_corner (cell : ecl_cell) (c : Z) : ecl_cell :=
  let p := cell_corner cell c in
  if at_origin_xy p then cell_set_tainted_geometry cell true else cell.

Definition ecl_cell_taint_cell (cell : ecl_cell) : ecl_cell :=
  foldl taint_corner cell (seqZ 0 8).

Definition ecl_grid_taint_cells (g : ecl_grid) : result ecl_grid :=
  cs ← for_loop 0 (size g) (λ index cs,
          cell ← array_get cs index;
          array_set cs index (ecl_cell_taint_cell cell)) (cells g);
  Ok (grid_set_cells g cs).

(** [point_alloc_empty] of point.c, which is not among the sources, taken
    to give the point (0,0,0). *)
Definition point_alloc_empty : point := mk_point 0 0 0.

Definition empty_corners : corners :=
  mk_corners point_alloc_empty point_alloc_empty point_alloc_empty point_alloc_empty
             point_alloc_empty point_alloc_empty point_alloc_empty point_alloc_empty.

(** [active_index] is left uninitialised by the source; it is given the
    value 0 here and is written by [ecl_grid_set_active_index] before any
    read. *)
Definition ecl_cell_alloc : ecl_cell :=
  mk_cell false 0 point_alloc_empty empty_corners None (-1) false.

Definition ecl_cell_install_lgr (cell : ecl_cell) (lgr_grid : grid_ref) : ecl_cell :=
  cell_set_lgr cell (Some lgr_grid).

Definition tetrahedron_permutations : list (list (Z * Z * Z)) :=
  [ [ (0, 2, 6); (0, 4, 6); (0, 4, 5); (0, 1, 5);
      (1, 3, 7); (1, 5, 7); (2, 3, 7); (2, 6, 7);
      (0, 1, 2); (1, 2, 3); (4, 5, 6); (5, 6, 7) ];
    [ (0, 2, 4); (2, 4, 6); (0, 4, 1); (4, 5, 1);
      (1, 3, 5); (3, 5, 7); (2, 3, 6); (3, 6, 7);
      (0, 1, 3); (0, 2, 3); (4, 5, 7); (4, 6, 7) ] ].

(** [tetrahedron_set_shared] stores the four points. *)
Definition tetrahedron_set_shared (p0 p1 p2 p3 : point) : tetrahedron :=
  mk_tet p0 p1 p2 p3.

Definition ecl_cell_init_tetrahedron (cell : ecl_cell) (method_nr tetrahedron_nr : Z)
    : result tetrahedron :=
  method ← array_get tetrahedron_permutations method_nr;
  '(point0, point1, point2) ← array_get method tetrahedron_nr;
  Ok (tetrahedron_set_shared (center cell) (cell_corner cell point0)
        (cell_corner cell point1) (cell_corner cell point2)).

(** The part of [tetrahedron.h] that ecl_grid.c calls.  tetrahedron.c is not
    among the sources: the functions of this file take the two operations
    as an interface. *)
Class tetrahedron_lib := {
  tetrahedron_volume : tetrahedron → Q;
  tetrahedron_contains : tetrahedron → point → bool }.

(** A loop that can return from the enclosing function. *)
Inductive loop_step (St R : Type) : Type :=
| Continue (s : St)
| Return (r : R).
Arguments Continue {St R} s.
Arguments Return {St R} r.

Fixpoint foldM_exit {A St R} (body : A → St → result (loop_step St R))
    (l : list A) (s : St) : result (loop_step St R) :=
  match l with
  | [] => Ok (Continue s)
  | a :: l' =>
      r ← body a s;
      match r with
      | Continue s' => foldM_exit body l' s'
      | Return v => Ok (Return v)
      end
  end.

Definition for_exit {St R} (lo hi : Z) (body : Z → St → result (loop_step St R))
    (s : St) : result (loop_step St R) :=
  foldM_exit body (seqZ lo (hi - lo)) s.

Section Geometry.
Context `{tetrahedron_lib}.

Definition ecl_cell_get_volume (cell : ecl_cell) : result Q :=
  volume ← for_loop 0 12 (λ itet volume,
              tet ← ecl_cell_init_tetrahedron cell 0 itet;
              let volume := (volume + tetrahedron_volume tet)%Q in
              tet ← ecl_cell_init_tetrahedron cell 1 itet;
              let volume := (volume + tetrahedron_volume tet)%Q in
              Ok volume) 0%Q;
  Ok (volume * (1 # 2))%Q.

(** The [while (true)] loop of [ecl_cell_contains_point]: it returns true
    at the first tetrahedron containing the point and false when
    [tetrahedron_nr] reaches 12.  [fuel] bounds the number of further
    iterations; 12 are enough (lemma [contains_point_loop_fuel]). *)
Fixpoint contains_point_loop (fuel : nat) (cell : ecl_cell) (p : point)
    (tetrahedron_nr : Z) : result bool :=
  tet ← ecl_cell_init_tetrahedron cell 0 tetrahedron_nr;
  if tetrahedron_contains tet p then Ok true
  else
    let tetrahedron_nr := tetrahedron_nr + 1 in
    if tetrahedron_nr =? 12 then Ok false
    else match fuel with
         | O => Fault
         | S fuel' => contains_point_loop fuel' cell p tetrahedron_nr
         end.

Definition ecl_cell_contains_point (cell : ecl_cell) (p : point) : result bool :=
  if tainted_geometry cell then Ok false
  else if Qltb (pz p) (ecl_cell_min_z cell) then Ok false
  else if Qgtb (pz p) (ecl_cell_max_z cell) then Ok false
  else if Qltb (px p) (ecl_cell_min_x cell) then Ok false
  else if Qgtb (px p) (ecl_cell_max_x cell) then Ok false
  else if Qltb (py p) (ecl_cell_min_y cell) then Ok false
  else if Qgtb (py p) (ecl_cell_max_y cell) then Ok false
  else
    volume ← ecl_cell_get_volume cell;
    if Qgtb volume 0 then contains_point_loop 12 cell p 0
    else Abort.

Definition ecl_grid_cell_contains_xyz1 (g : ecl_grid) (global_index : Z)
    (x y z : Q) : result bool :=
  let p := mk_point x y z in
  cell ← array_get (cells g) global_index;
  ecl_cell_contains_point cell p.

Definition ecl_grid_clear_visited (g : ecl_grid) : result ecl_grid :=
  let visited0 :=
    match visited g with
    | None => replicate (Z.to_nat (size g)) false
    | Some v => v
    end in
  v ← for_loop 0 (size g) (λ i v, array_set v i false) visited0;
  Ok (grid_set_visited g (Some v)).

(** The visited markers live in the grid; the box scan returns them with
    the index found. *)
Definition ecl_grid_box_contains_xyz (g : ecl_grid) (visited : list bool)
    (i1 i2 j1 j2 k1 k2 : Z) (p : point) : result (list bool * Z) :=
  r ← for_exit (St := list bool) (R := list bool * Z) k1 k2 (λ k,
        for_exit j1 j2 (λ j,
          for_exit i1 i2 (λ i visited,
            global_index ← ecl_grid_get_global_index3 g i j k;
            seen ← array_get visited global_index;
            if negb (seen : bool) then
              visited ← array_set visited global_index true;
              cell ← array_get (cells g) global_index;
              inside ← ecl_cell_contains_point cell p;
              if (inside : bool) then Ok (Return (visited, global_index))
              else Ok (Continue visited)
            else Ok (Continue visited)))) visited;
  match r with
  | Return found => Ok found
  | Continue visited => Ok (visited, -1)
  end.

(** C remainder truncates ([Z.rem]); a zero divisor is undefined. *)
Definition int_rem (a b : Z) : result Z :=
  if b =? 0 then Fault else Ok (Z.rem a b).

(** The final [while (true)] scan of [ecl_grid_get_global_index_from_xyz];
    [fuel] bounds the number of further iterations, and as many as the grid
    has cells are enough (lemma [linear_scan_fuel]). *)
Fixpoint linear_scan (fuel : nat) (g : ecl_grid) (p : point)
    (start_index index : Z) : result Z :=
  current_index ← int_rem (index + start_index) (size g);
  cell ← array_get (cells g) current_index;
  cell_contains ← ecl_cell_contains_point cell p;
  if (cell_contains : bool) then Ok current_index
  else
    let index := index + 1 in
    if index =? size g then Ok (-1)
    else match fuel with
         | O => Fault
         | S fuel' => linear_scan fuel' g p start_index index
         end.

Definition ecl_grid_get_global_index_from_xyz (g : ecl_grid) (x y z : Q)
    (start_index : Z) : result (ecl_grid * Z) :=
  let p := mk_point x y z in
  g ← ecl_grid_clear_visited g;
  visited ← match visited g with Some v => Ok v | None => Fault end;
  shortcut ←
    (if 0 <=? start_index then
       cell ← array_get (cells g) start_index;
       inside ← ecl_cell_contains_point cell p;
       if (inside : bool) then Ok (Return (visited, start_index))
       else
         '(i, j, k) ← ecl_grid_get_ijk1 g start_index;
         let i1 := Z.max 0 (i - 1) in
         let j1 := Z.max 0 (j - 1) in
         let k1 := Z.max 0 (k - 1) in
         let i2 := Z.min (nx g) (i + 1) in
         let j2 := Z.min (ny g) (j + 1) in
         let k2 := Z.min (nz g) (k + 1) in
         '(visited, global_index) ←
           ecl_grid_box_contains_xyz g visited i1 i2 j1 j2 k1 k2 p;
         if 0 <=? global_index then Ok (Return (visited, global_index))
         else
           let i1 := Z.max 0 (i - 2) in
           let j1 := Z.max 0 (j - 2) in
           let k1 := Z.max 0 (k - 2) in
           let i2 := Z.min (nx g) (i + 2) in
           let j2 := Z.min (ny g) (j + 2) in
           let k2 := Z.min (nz g) (k + 2) in
           '(visited, global_index) ←
             ecl_grid_box_contains_xyz g visited i1 i2 j1 j2 k1 k2 p;
           if 0 <=? global_index then Ok (Return (visited, global_index))
           else Ok (Continue visited)
     else Ok (Continue visited));
  match shortcut with
  | Return (visited, global_index) =>
      Ok (grid_set_visited g (Some visited), global_index)
  | Continue visited =>
      global_index ← linear_scan (Z.to_nat (size g)) g p start_index 0;
      Ok (grid_set_visited g (Some visited), global_index)
  end.
End Geometry.

Definition triangle_area (x1 y1 x2 y2 x3 y3 : Q) : Q :=
  (Qabs (x1 * y2 + x2 * y3 + x3 * y1 - x1 * y3 - x3 * y2 - x2 * y1) * (1 # 2))%Q.

Definition triangle_contains (p0 p1 p2 : point) (x y : Q) : bool :=
  let epsilon := (1 # 10000000000)%Q in
  let VT := triangle_area (px p0) (py p0) (px p1) (py p1) (px p2) (py p2) in
  if Qltb VT epsilon then false
  else
    let V1 := triangle_area (px p0) (py p0) (px p1) (py p1) x y in
    let V2 := triangle_area (px p0) (py p0) x y (px p2) (py p2) in
    let V3 := triangle_area x y (px p1) (py p1) (px p2) (py p2) in
    if Qltb (Qabs (VT - (V1 + V2 + V3))) epsilon then true else false.

Definition ecl_cell_layer_contains_xy (cell : ecl_cell) (lower_layer : bool)
    (x y : Q) : bool :=
  if tainted_geometry cell then false
  else
    let corner_offset := if lower_layer then 0 else 4 in
    let p0 := cell_corner cell (corner_offset + 0) in
    let p1 := cell_corner cell (corner_offset + 1) in
    let p2 := cell_corner cell (corner_offset + 2) in
    let p3 := cell_corner cell (corner_offset + 3) in
    if triangle_contains p0 p1 p2 x y then true
    else triangle_contains p1 p2 p3 x y.

(** [ecl_grid_set_center]: the centre is the sum of the eight corners scaled
    by 1/8 ([point_inplace_add], [point_inplace_scale] of point.c). *)
Definition point_inplace_add (p q : point) : point :=
  mk_point (px p + px q) (py p + py q) (pz p + pz q).
Definition point_inplace_scale (p : point) (s : Q) : point :=
  mk_point (px p * s) (py p * s) (pz p * s).

Definition ecl_cell_set_center (cell : ecl_cell) : ecl_cell :=
  let c := foldl (λ c n, point_inplace_add c (cell_corner cell n))
                 (mk_point 0 0 0) (seqZ 0 8) in
  cell_set_center cell (point_inplace_scale c (1 / 8)).

Definition ecl_grid_set_center (g : ecl_grid) : result ecl_grid :=
  cs ← for_loop 0 (size g) (λ i cs,
          cell ← array_get cs i;
          array_set cs i (ecl_cell_set_center cell)) (cells g);
  Ok (grid_set_cells g cs).

(** ** Tetrahedra *)

Definition point_sub (p q : point) : point :=
  mk_point (px p - px q) (py p - py q) (pz p - pz q).

Definition point_dot (a b : point) : Q :=
  (px a * px b + py a * py b + pz a * pz b)%Q.

Definition point_cross (b c : point) : point :=
  mk_point (py b * pz c - pz b * py c)
           (pz b * px c - px b * pz c)
           (px b * py c - py b * px c).

(** Modelled from the spec: [tetrahedron_volume] of tetrahedron.c, which is
    not among the sources.  The volume of the tetrahedron is
    |(p0-p3).((p1-p3)x(p2-p3))| / 6; it is zero for a degenerate
    tetrahedron. *)
Definition tetrahedron_volume_model (tet : tetrahedron) : Q :=
  let a := point_sub (tp0 tet) (tp3 tet) in
  let b := point_sub (tp1 tet) (tp3 tet) in
  let c := point_sub (tp2 tet) (tp3 tet) in
  (Qabs (point_dot a (point_cross b c)) * (1 # 6))%Q.

(** Modelled from the spec: [tetrahedron_contains] of tetrahedron.c, which is
    not among the sources.  A point is a member of a tetrahedron of non-zero
    volume when the four tetrahedra obtained by putting the point in the
    place of one vertex fill it exactly; a tetrahedron without volume
    contains nothing. *)
Definition tetrahedron_contains_model (tet : tetrahedron) (p : point) : bool :=
  let VT := tetrahedron_volume_model tet in
  if Qle_bool VT 0 then false
  else
    let V0 := tetrahedron_volume_model (mk_tet p (tp1 tet) (tp2 tet) (tp3 tet)) in
    let V1 := tetrahedron_volume_model (mk_tet (tp0 tet) p (tp2 tet) (tp3 tet)) in
    let V2 := tetrahedron_volume_model (mk_tet (tp0 tet) (tp1 tet) p (tp3 tet)) in
    let V3 := tetrahedron_volume_model (mk_tet (tp0 tet) (tp1 tet) (tp2 tet) p) in
    Qeq_bool (V0 + V1 + V2 + V3) VT.

(** Modelled from the spec: the two operations of tetrahedron.c above, as
    an implementation of the interface. *)
Definition tetrahedron_model : tetrahedron_lib :=
  {| tetrahedron_volume := tetrahedron_volume_model;
     tetrahedron_contains := tetrahedron_contains_model |}.

(** ** Grid stores and the LGR hierarchy *)

Definition deref (st : gmap grid_ref ecl_grid) (r : grid_ref) : result ecl_grid :=
  match st !! r with
  | Some g => Ok g
  | None => Fault
  end.

Definition non_null {A} (o : option A) : result A :=
  match o with
  | Some a => Ok a
  | None => Fault
  end.

(** [ecl_grid_alloc_empty]: the new grid is stored at a fresh handle, which
    is returned with the store.  The axis-transform coefficients copied
    from [global_grid] are not part of the model.  [total_active] is left
    uninitialised by the source and is 0 here. *)
Definition ecl_grid_alloc_empty (st : gmap grid_ref ecl_grid)
    (global_grid : option grid_ref) (nx ny nz grid_nr : Z)
    : gmap grid_ref ecl_grid * grid_ref :=
  let grid := fresh (dom st) in
  let cells := replicate (Z.to_nat (nx * ny * nz)) ecl_cell_alloc in
  let '(LGR_list, LGR_hash) :=
    if grid_nr =? 0
    then (Some [mk_node grid false], Some (∅ : gmap string grid_ref))
    else (None, None) in
  let g := mk_grid grid_nr None nx ny nz (nx * ny * nz) 0 None [] [] cells
                   None ∅ None global_grid LGR_list LGR_hash in
  (<[grid := g]> st, grid).

(** [vector_get_size], [vector_append_owned_ref] and [hash_insert_ref] of
    libutil are the length of the vector, the addition of a last node that
    the vector owns, and the insertion of a key; a NULL vector, table or key
    is a [Fault]. *)
Definition ecl_grid_add_lgr (st : gmap grid_ref ecl_grid)
    (main_grid lgr_grid : grid_ref) : result (gmap grid_ref ecl_grid) :=
  main ← deref st main_grid;
  lgr ← deref st lgr_grid;
  list ← non_null (LGR_list main);
  let next_grid_nr := Z.of_nat (length list) in
  if negb (next_grid_nr =? grid_nr lgr) then Abort
  else
    let list := list ++ [mk_node lgr_grid true] in
    hash ← non_null (LGR_hash main);
    key ← non_null (name lgr);
    let hash := <[key := lgr_grid]> hash in
    Ok (<[main_grid := grid_set_LGR main (Some list) (Some hash)]> st).

(** [ecl_grid_set_lgr_name_EGRID] and [_GRID] read the name from the file;
    here it is given. *)
Definition ecl_grid_set_lgr_name (st : gmap grid_ref ecl_grid)
    (lgr_grid : grid_ref) (lgr_name : string) : result (gmap grid_ref ecl_grid) :=
  lgr ← deref st lgr_grid;
  Ok (<[lgr_grid := grid_set_name lgr (Some lgr_name)]> st).

Definition store_set_cell (st : gmap grid_ref ecl_grid) (r : grid_ref)
    (index : Z) (cell : ecl_cell) : result (gmap grid_ref ecl_grid) :=
  g ← deref st r;
  cs ← array_set (cells g) index cell;
  Ok (<[r := grid_set_cells g cs]> st).

Definition ecl_grid_install_lgr_EGRID (st : gmap grid_ref ecl_grid)
    (host_grid lgr_grid : grid_ref) (hostnum : list Z)
    : result (gmap grid_ref ecl_grid) :=
  lgr0 ← deref st lgr_grid;
  st ← for_loop 0 (size lgr0) (λ global_lgr_index st,
          lgr ← deref st lgr_grid;
          lgr_cell ← array_get (cells lgr) global_lgr_index;
          if active lgr_cell then
            host ← deref st host_grid;
            h ← array_get hostnum global_lgr_index;
            host_cell' ← array_get (cells host) h;
            st ← store_set_cell st host_grid h (ecl_cell_install_lgr host_cell' lgr_grid);
            lgr ← deref st lgr_grid;
            lgr_cell ← array_get (cells lgr) global_lgr_index;
            h ← array_get hostnum global_lgr_index;
            store_set_cell st lgr_grid global_lgr_index
                           (cell_set_host_cell lgr_cell (h - 1))
          else Ok st) st;
  host ← deref st host_grid;
  lgr ← deref st lgr_grid;
  key ← non_null (name lgr);
  let st := <[host_grid := grid_set_children host (<[key := lgr_grid]> (children host))]> st in
  lgr ← deref st lgr_grid;
  Ok (<[lgr_grid := grid_set_parent_grid lgr (Some host_grid)]> st).

Definition ecl_grid_install_lgr_GRID (st : gmap grid_ref ecl_grid)
    (host_grid lgr_grid : grid_ref) : result (gmap grid_ref ecl_grid) :=
  lgr0 ← deref st lgr_grid;
  for_loop 0 (size lgr0) (λ global_lgr_index st,
    lgr ← deref st lgr_grid;
    lgr_cell ← array_get (cells lgr) global_lgr_index;
    if active lgr_cell then
      host ← deref st host_grid;
      host_cell' ← array_get (cells host) (host_cell lgr_cell);
      store_set_cell st host_grid (host_cell lgr_cell)
                     (ecl_cell_install_lgr host_cell' lgr_grid)
    else Ok st) st.

(** ** Value lookup in a keyword *)

Inductive ecl_type_enum :=
| ECL_CHAR_TYPE | ECL_FLOAT_TYPE | ECL_DOUBLE_TYPE
| ECL_INT_TYPE | ECL_BOOL_TYPE | ECL_MESS_TYPE.

(** The part of [ecl_kw_type] (ecl_kw.c is not among the sources) that
    [ecl_grid_get_property] uses: the type, the number of elements and the
    elements as doubles; reading outside the keyword is a [Fault]. *)
Record ecl_kw := mk_kw { kw_type : ecl_type_enum; kw_data : list Q }.

Definition ecl_kw_get_type (kw : ecl_kw) : ecl_type_enum := kw_type kw.
Definition ecl_kw_get_size (kw : ecl_kw) : Z := Z.of_nat (length (kw_data kw)).
Definition ecl_kw_iget_as_double (kw : ecl_kw) (index : Z) : result Q :=
  array_get (kw_data kw) index.

Definition is_numeric (t : ecl_type_enum) : bool :=
  match t with
  | ECL_FLOAT_TYPE | ECL_INT_TYPE | ECL_DOUBLE_TYPE => true
  | _ => false
  end.

Definition ecl_grid_get_property (g : ecl_grid) (kw : ecl_kw) (i j k : Z) : result Q :=
  let ecl_type := ecl_kw_get_type kw in
  if is_numeric ecl_type then
    let kw_size := ecl_kw_get_size kw in
    lookup_index ←
      (if kw_size =? nx g * ny g * nz g then ecl_grid_get_global_index3 g i j k
       else if kw_size =? total_active g then ecl_grid_get_active_index3 g i j k
       else Abort);
    if 0 <=? lookup_index then ecl_kw_iget_as_double kw lookup_index
    else Ok (-1)%Q
  else Abort.

(** The lookup through one kind of index, as the documentation of
    [ecl_grid_get_property] describes the two cases. *)
Definition property_by_global_index (g : ecl_grid) (kw : ecl_kw) (i j k : Z) : result Q :=
  global_index ← ecl_grid_get_global_index3 g i j k;
  ecl_kw_iget_as_double kw global_index.

Definition property_by_active_index (g : ecl_grid) (kw : ecl_kw) (i j k : Z) : result Q :=
  active_index ← ecl_grid_get_active_index3 g i j k;
  if 0 <=? active_index then ecl_kw_iget_as_double kw active_index
  else Ok (-1)%Q.

(** A grid on which [ecl_grid_update_index] has run, as in every loader,
    and whose cells have since changed at most in fields other than
    [active] (the tainting, the LGR links). *)
Definition grid_built (g : ecl_grid) : Prop :=
  ∃ (fill : Z) (g0 g1 : ecl_grid),
    grid_wf g0 ∧ ecl_grid_update_index fill g0 = Ok g1 ∧
    nx g = nx g1 ∧ ny g = ny g1 ∧ nz g = nz g1 ∧
    total_active g = total_active g1 ∧
    index_map g = index_map g1 ∧ inv_index_map g = inv_index_map g1 ∧
    active <$> cells g = active <$> cells g1.

(** ** Cells and grids used as examples *)

Definition Qsum (l : list Q) : Q := foldr Qplus 0%Q l.

(** The twelve tetrahedra of one decomposition scheme: the centre of the
    cell and the three corners of each row of the table. *)
Definition scheme_tetrahedra (cell : ecl_cell) (method_nr : nat) : list tetrahedron :=
  (λ '(point0, point1, point2),
     mk_tet (center cell) (cell_corner cell point0) (cell_corner cell point1)
            (cell_corner cell point2))
  <$> default [] (tetrahedron_permutations !! method_nr).

(** The cube [x0,x0+1] x [y0,y0+1] x [z0,z0+1], corners in the numbering of
    the source, the centre computed by [ecl_cell_set_center]. *)
Definition unit_cube_corners (x0 y0 z0 : Q) : corners :=
  mk_corners (mk_point x0 y0 z0) (mk_point (x0 + 1) y0 z0)
             (mk_point x0 (y0 + 1) z0) (mk_point (x0 + 1) (y0 + 1) z0)
             (mk_point x0 y0 (z0 + 1)) (mk_point (x0 + 1) y0 (z0 + 1))
             (mk_point x0 (y0 + 1) (z0 + 1)) (mk_point (x0 + 1) (y0 + 1) (z0 + 1)).

Definition unit_cube_cell (x0 y0 z0 : Q) : ecl_cell :=
  ecl_cell_set_center
    (mk_cell true 0 point_alloc_empty (unit_cube_corners x0 y0 z0) None (-1) false).

(** A cell whose eight corners and centre are one point. *)
Definition point_cell (q : point) : ecl_cell :=
  mk_cell true 0 q (mk_corners q q q q q q q q) None (-1) false.

Definition grid_of_cells (nx ny nz : Z) (cs : list ecl_cell) : ecl_grid :=
  mk_grid 0 None nx ny nz (nx * ny * nz) 0 None [] [] cs None ∅ None None
          (Some [mk_node 0%nat false]) (Some ∅).

(** The state of the LGR list of the main grid: position 0 holds the main
    grid itself, not owned; every later node is owned; the grid at position
    n has [grid_nr] n. *)
Definition lgr_list_ok (main_grid : grid_ref) (st : gmap grid_ref ecl_grid) : Prop :=
  ∃ (main : ecl_grid) (l : list vector_node),
    st !! main_grid = Some main ∧ LGR_list main = Some l ∧
    l !! 0%nat = Some (mk_node main_grid false) ∧
    ∀ (n : nat) (node : vector_node),
      l !! n = Some node →
      ((0 < n)%nat → node_owned node = true) ∧
      ∃ g : ecl_grid, st !! node_data node = Some g ∧ grid_nr g = Z.of_nat n.

(** A grid of nx*ny*nz unit cubes, the cube of (i,j,k) having its first
    corner at (1+i, 1+j, 1+k); every cell is active. *)
Definition regular_cells (nx ny nz : Z) : list ecl_cell :=
  k ← seqZ 0 nz; j ← seqZ 0 ny; i ← seqZ 0 nx;
  [unit_cube_cell (inject_Z (1 + i)) (inject_Z (1 + j)) (inject_Z (1 + k))].

Definition regular_grid (nx ny nz : Z) : ecl_grid :=
  grid_of_cells nx ny nz (regular_cells nx ny nz).

(** A host grid of two cells at handle 0 and an LGR of one active cell,
    named, at handle 1. *)
Definition lgr_example_store : gmap grid_ref ecl_grid :=
  <[1%nat := mk_grid 1 (Some "LGR1"%string) 1 1 1 1 0 None [] []
                     [cell_set_active ecl_cell_alloc true]
                     None ∅ None (Some 0%nat) None None]>
  (<[0%nat := grid_of_cells 2 1 1 [ecl_cell_alloc; ecl_cell_alloc]]> ∅).

Definition cell_lgrs (st : gmap grid_ref ecl_grid) (r : grid_ref)
    : option (list (option grid_ref)) :=
  (λ g, lgr <$> cells g) <$> st !! r.

Definition cell_host_cells (st : gmap grid_ref ecl_grid) (r : grid_ref)
    : option (list Z) :=
  (λ g, host_cell <$> cells g) <$> st !! r.

Definition result_map {A B} (f : A → B) (r : result A) : result B :=
  match r with
  | Ok a => Ok (f a)
  | Abort => Abort
  | Fault => Fault
  end.

(** A grid of 2 x 1 x 2 cells, the second of them inactive, before and
    after [ecl_grid_update_index]; keywords of 4, 3 and 5 elements. *)
Definition index_example_grid : ecl_grid :=
  grid_of_cells 2 1 2
    [cell_set_active ecl_cell_alloc true; ecl_cell_alloc;
     cell_set_active ecl_cell_alloc true; cell_set_active ecl_cell_alloc true].

Definition built_example_grid : ecl_grid :=
  match ecl_grid_update_index 0 index_example_grid with
  | Ok g => g
  | _ => index_example_grid
  end.

Definition kw_global : ecl_kw := mk_kw ECL_FLOAT_TYPE [10; 11; 12; 13]%Q.
Definition kw_active : ecl_kw := mk_kw ECL_DOUBLE_TYPE [20; 21; 22]%Q.
Definition kw_other : ecl_kw := mk_kw ECL_INT_TYPE [30; 31; 32; 33; 34]%Q.

(** The cell at the origin, which the scan taints, and one away from it. *)
Definition taint_example_grid : ecl_grid :=
  grid_of_cells 2 1 1 [unit_cube_cell 0 0 0; unit_cube_cell 1 0 0].

(** The scans without fuel: the tests in the order of a list of indices. *)
Fixpoint scan_cells `{tetrahedron_lib} (g : ecl_grid) (p : point) (l : list Z)
    : result Z :=
  match l with
  | [] => Ok (-1)
  | current_index :: l' =>
      cell ← array_get (cells g) current_index;
      cell_contains ← ecl_cell_contains_point cell p;
      if (cell_contains : bool) then Ok current_index else scan_cells g p l'
  end.


(** ** The volume of a cell in double arithmetic

    The same computation on IEEE 754 binary64 numbers (the primitive floats),
    with their rounding: the part of the cell that the volume reads, the
    centre as [ecl_grid_set_center] computes it, the tetrahedra of the table
    and the sum of [ecl_cell_get_volume]. *)

Module Double.

Record point := mk_point { px : float; py : float; pz : float }.

Record tetrahedron := mk_tet { tp0 : point; tp1 : point; tp2 : point; tp3 : point }.

(** The fields of [ecl_cell_struct] that [ecl_cell_get_volume] reads. *)
Record ecl_cell := mk_cell { center : point; corner_list : list point }.

Definition point_inplace_add (p q : point) : point :=
  mk_point (px p + px q) (py p + py q) (pz p + pz q).

Definition point_inplace_scale (p : point) (s : float) : point :=
  mk_point (px p * s) (py p * s) (pz p * s).

Definition ecl_cell_set_center (cell : ecl_cell) : result ecl_cell :=
  c ← for_loop 0 8 (λ n c,
         q ← array_get (corner_list cell) n;
         Ok (point_inplace_add c q)) (mk_point 0 0 0);
  Ok (mk_cell (point_inplace_scale c (1 / 8)) (corner_list cell)).

Definition ecl_cell_init_tetrahedron (cell : ecl_cell) (method_nr tetrahedron_nr : Z)
    : result tetrahedron :=
  method ← array_get tetrahedron_permutations method_nr;
  '(point0, point1, point2) ← array_get method tetrahedron_nr;
  c0 ← array_get (corner_list cell) point0;
  c1 ← array_get (corner_list cell) point1;
  c2 ← array_get (corner_list cell) point2;
  Ok (mk_tet (center cell) c0 c1 c2).

Definition point_sub (p q : point) : point :=
  mk_point (px p - px q) (py p - py q) (pz p - pz q).

Definition point_dot (a b : point) : float :=
  (px a * px b + py a * py b + pz a * pz b)%float.

Definition point_cross (b c : point) : point :=
  mk_point (py b * pz c - pz b * py c)
           (pz b * px c - px b * pz c)
           (px b * py c - py b * px c).

(** Modelled from the spec: [tetrahedron_volume] of tetrahedron.c, which is
    not among the sources, in double arithmetic: the volume of the
    tetrahedron, |(p0-p3).((p1-p3)x(p2-p3))| / 6. *)
Definition tetrahedron_volume (tet : tetrahedron) : float :=
  let a := point_sub (tp0 tet) (tp3 tet) in
  let b := point_sub (tp1 tet) (tp3 tet) in
  let c := point_sub (tp2 tet) (tp3 tet) in
  (abs (point_dot a (point_cross b c)) / 6)%float.

Definition ecl_cell_get_volume (cell : ecl_cell) : result float :=
  volume ← for_loop 0 12 (λ itet volume,
              tet ← ecl_cell_init_tetrahedron cell 0 itet;
              let volume := (volume + tetrahedron_volume tet)%float in
              tet ← ecl_cell_init_tetrahedron cell 1 itet;
              let volume := (volume + tetrahedron_volume tet)%float in
              Ok volume) 0%float;
  Ok (volume * 0.5)%float.

(** The cube [x0,x0+1] x [y0,y0+1] x [z0,z0+1] and its volume. *)
Definition unit_cube_cell (x0 y0 z0 : float) : result ecl_cell :=
  ecl_cell_set_center
    (mk_cell (mk_point 0 0 0)
       [ mk_point x0 y0 z0; mk_point (x0 + 1) y0 z0;
         mk_point x0 (y0 + 1) z0; mk_point (x0 + 1) (y0 + 1) z0;
         mk_point x0 y0 (z0 + 1); mk_point (x0 + 1) y0 (z0 + 1);
         mk_point x0 (y0 + 1) (z0 + 1); mk_point (x0 + 1) (y0 + 1) (z0 + 1) ]).

Definition unit_cube_volume (x0 y0 z0 : float) : result float :=
  cell ← unit_cube_cell x0 y0 z0;
  ecl_cell_get_volume cell.

(** Integer coordinates as doubles, around the origin and of the size of
    map coordinates, and the test |v - 1| <= 2^-50. *)
Definition lattice : list float :=
  [-2; -1; 0; 1; 2; 3; 4; 5; 6; 7; 1000; 450000; 6500000]%float.

Definition close_to_one (v : float) : bool :=
  PrimFloat.leb (PrimFloat.abs (v - 1)) 0x1p-50%float.

Definition lattice_volumes_close : bool :=
  forallb (λ x0, forallb (λ y0, forallb (λ z0,
    match unit_cube_volume x0 y0 z0 with
    | Ok v => close_to_one v
    | _ => false
    end) lattice) lattice) lattice.

End Double.

(** * Further functions of ecl_grid.c *)

(** ** More index conversions *)

Definition ecl_grid_get_ijk1A (g : ecl_grid) (active_index : Z) : result (Z * Z * Z) :=
  if (0 <=? active_index) && (active_index <? total_active g) then
    global_index ← ecl_grid_get_global_index1A g active_index;
    ecl_grid_get_ijk1 g global_index
  else Abort.

Definition ecl_grid_cell_active1 (g : ecl_grid) (global_index : Z) : result bool :=
  a ← array_get (index_map g) global_index;
  if 0 <=? a then Ok true else Ok false.

Definition ecl_grid_cell_active3 (g : ecl_grid) (i j k : Z) : result bool :=
  global_index ← ecl_grid_get_global_index3 g i j k;
  ecl_grid_cell_active1 g global_index.

Definition ecl_grid_get_global_size (g : ecl_grid) : Z := nx g * ny g * nz g.

Definition ecl_grid_get_active_size (g : ecl_grid) : Z := total_active g.

(** ** Statements about loops and about point location *)

(** What holds of the outcome of a loop that can return: [I] of the state
    it continues with, [Q] of the value it returns. *)
Definition loop_step_holds {St R} (I : St → Prop) (Q : R → Prop)
    (r : loop_step St R) : Prop :=
  match r with
  | Continue s => I s
  | Return v => Q v
  end.

(** The cell of global index [r] contains the point. *)
Definition cell_found `{tetrahedron_lib} (g : ecl_grid) (p : point) (r : Z) : Prop :=
  0 <= r < size g ∧
  ∃ c, cells g !! Z.to_nat r = Some c ∧ ecl_cell_contains_point c p = Ok true.

(** The membership test returns on every cell of the grid: no cell in
    whose bounding box the point lies is without volume. *)
Definition contains_defined `{tetrahedron_lib} (g : ecl_grid) (p : point) : Prop :=
  ∀ c, c ∈ cells g → ∃ b : bool, ecl_cell_contains_point c p = Ok b.

(** ** Location of a cell from (x,y) in a layer *)

Definition ecl_grid_cell_contains_xyz3 `{tetrahedron_lib} (g : ecl_grid) (i j k : Z)
    (x y z : Q) : result bool :=
  global_index ← ecl_grid_get_global_index3 g i j k;
  ecl_grid_cell_contains_xyz1 g global_index x y z.

Definition ecl_grid_get_global_index_from_xy (g : ecl_grid) (k : Z)
    (lower_layer : bool) (x y : Q) : result Z :=
  r ← for_exit (St := unit) (R := Z) 0 (ny g) (λ j,
        for_exit 0 (nx g) (λ i (_ : unit),
          global_index ← ecl_grid_get_global_index3 g i j k;
          cell ← array_get (cells g) global_index;
          if ecl_cell_layer_contains_xy cell lower_layer x y
          then Ok (Return global_index)
          else Ok (Continue tt))) tt;
  match r with
  | Return global_index => Ok global_index
  | Continue _ => Ok (-1)
  end.

Definition ecl_grid_get_global_index_from_xy_top (g : ecl_grid) (x y : Q) : result Z :=
  ecl_grid_get_global_index_from_xy g (nz g - 1) false x y.

Definition ecl_grid_get_global_index_from_xy_bottom (g : ecl_grid) (x y : Q) : result Z :=
  ecl_grid_get_global_index_from_xy g 0 true x y.

(** ** Depth of the layers of a column *)

Definition Qgeb (x y : Q) : bool := Qle_bool y x.

Definition ecl_grid_get_top1 (g : ecl_grid) (global_index : Z) : result Q :=
  cell ← array_get (cells g) global_index;
  let depth := foldl (λ depth ij, depth + pz (cell_corner cell ij))%Q 0%Q (seqZ 0 4) in
  Ok (depth * (1 # 4))%Q.

Definition ecl_grid_get_top3 (g : ecl_grid) (i j k : Z) : result Q :=
  ecl_grid_get_top1 g (ecl_grid_get_global_index__ g i j k).

Definition ecl_grid_get_top2 (g : ecl_grid) (i j : Z) : result Q :=
  ecl_grid_get_top1 g (ecl_grid_get_global_index__ g i j 0).

Definition ecl_grid_get_bottom1 (g : ecl_grid) (global_index : Z) : result Q :=
  cell ← array_get (cells g) global_index;
  let depth := foldl (λ depth ij, depth + pz (cell_corner cell (ij + 4)))%Q 0%Q (seqZ 0 4) in
  Ok (depth * (1 # 4))%Q.

Definition ecl_grid_get_bottom3 (g : ecl_grid) (i j k : Z) : result Q :=
  ecl_grid_get_bottom1 g (ecl_grid_get_global_index__ g i j k).

Definition ecl_grid_get_bottom2 (g : ecl_grid) (i j : Z) : result Q :=
  ecl_grid_get_bottom1 g (ecl_grid_get_global_index__ g i j (nz g - 1)).

(** The [while (true)] loop of [ecl_grid_locate_depth]; [bottom] is the
    bottom of the layer above, which the loop takes as the top of layer
    [k].  [fuel] bounds the number of further iterations; nz are enough. *)
Fixpoint locate_depth_loop (fuel : nat) (g : ecl_grid) (depth : Q) (i j k : Z)
    (bottom : Q) : result Z :=
  let top := bottom in
  bottom ← ecl_grid_get_bottom3 g i j k;
  if Qgeb depth top && Qltb depth bottom then Ok k
  else
    let k := k + 1 in
    if k =? nz g then Abort
    else match fuel with
         | O => Fault
         | S fuel' => locate_depth_loop fuel' g depth i j k bottom
         end.

Definition ecl_grid_locate_depth (g : ecl_grid) (depth : Q) (i j : Z) : result Z :=
  top ← ecl_grid_get_top2 g i j;
  if Qltb depth top then Ok (-1)
  else
    bottom ← ecl_grid_get_bottom2 g i j;
    if Qgeb depth bottom then Ok (-1 * nz g)
    else
      let k := 0 in
      bottom ← ecl_grid_get_top3 g i j k;
      locate_depth_loop (Z.to_nat (nz g)) g depth i j k bottom.

(** ** Queries on the LGRs of a main grid *)

Definition __assert_main_grid (g : ecl_grid) : result unit :=
  if negb (grid_nr g =? 0) then Abort else Ok tt.

(** [util_alloc_strip_copy] of libutil (not among the sources), which removes
    the leading and trailing spaces of a name, is taken as given. *)
Section LgrQueries.
Variable util_alloc_strip_copy : string → string.

(** [hash_get] of libutil on a key that is absent ends the program, as the
    documentation of [ecl_grid_get_lgr] says: [Abort]. *)
Definition ecl_grid_get_lgr (st : gmap grid_ref ecl_grid) (main_grid : grid_ref)
    (lgr_name : string) : result grid_ref :=
  main ← deref st main_grid;
  _ ← __assert_main_grid main;
  let lgr_name := util_alloc_strip_copy lgr_name in
  hash ← non_null (LGR_hash main);
  match hash !! lgr_name with
  | Some lgr_grid => Ok lgr_grid
  | None => Abort
  end.

Definition ecl_grid_has_lgr (st : gmap grid_ref ecl_grid) (main_grid : grid_ref)
    (lgr_name : string) : result bool :=
  main ← deref st main_grid;
  _ ← __assert_main_grid main;
  let lgr_name := util_alloc_strip_copy lgr_name in
  hash ← non_null (LGR_hash main);
  Ok (bool_decide (is_Some (hash !! lgr_name))).
End LgrQueries.

Definition ecl_grid_get_num_lgr (st : gmap grid_ref ecl_grid) (main_grid : grid_ref)
    : result Z :=
  main ← deref st main_grid;
  _ ← __assert_main_grid main;
  list ← non_null (LGR_list main);
  Ok (Z.of_nat (length list) - 1).

(** [vector_iget] of libutil outside the vector ends the program: [Abort]. *)
Definition ecl_grid_iget_lgr (st : gmap grid_ref ecl_grid) (main_grid : grid_ref)
    (lgr_nr : Z) : result grid_ref :=
  main ← deref st main_grid;
  _ ← __assert_main_grid main;
  list ← non_null (LGR_list main);
  if (0 <=? lgr_nr + 1) && (lgr_nr + 1 <? Z.of_nat (length list)) then
    node ← array_get list (lgr_nr + 1);
    Ok (node_data node)
  else Abort.

Definition ecl_grid_get_cell_lgr1 (g : ecl_grid) (global_index : Z)
    : result (option grid_ref) :=
  cell ← array_get (cells g) global_index;
  Ok (lgr cell).

Definition ecl_grid_get_cell_lgr3 (g : ecl_grid) (i j k : Z) : result (option grid_ref) :=
  ecl_grid_get_cell_lgr1 g (ecl_grid_get_global_index__ g i j k).

Definition ecl_grid_get_cell_lgr1A (g : ecl_grid) (active_index : Z)
    : result (option grid_ref) :=
  global_index ← ecl_grid_get_global_index1A g active_index;
  ecl_grid_get_cell_lgr1 g global_index.

Definition ecl_grid_get_parent_cell1 (g : ecl_grid) (global_index : Z) : result Z :=
  cell ← array_get (cells g) global_index;
  Ok (host_cell cell).

Definition ecl_grid_get_parent_cell3 (g : ecl_grid) (i j k : Z) : result Z :=
  ecl_grid_get_parent_cell1 g (ecl_grid_get_global_index__ g i j k).

(** *** Reference function for the installation of an LGR

    What one iteration of the loop of [ecl_grid_install_lgr_GRID] does to
    the cells of the host grid, as a function of the LGR cell visited. *)
Definition install_lgr_step (lgr_grid : grid_ref) (lgr_cell : ecl_cell)
    (host_cells : list ecl_cell) : result (list ecl_cell) :=
  if active lgr_cell then
    host_cell' ← array_get host_cells (host_cell lgr_cell);
    array_set host_cells (host_cell lgr_cell) (ecl_cell_install_lgr host_cell' lgr_grid)
  else Ok host_cells.

(** ** Construction of a grid from ZCORN, COORD and ACTNUM *)

(** The local arrays of the builder ([double x[4][2]], [point_type
    pillars[4][2]], a row of these behind a pointer) are functions of their
    indices.  The source leaves them uninitialised and writes every element
    before it reads it; here they start from a default value. *)
Definition array1_set {A} (a : Z → A) (i : Z) (v : A) : Z → A :=
  λ i', if i' =? i then v else a i'.

Definition array2_set {A} (a : Z → Z → A) (i j : Z) (v : A) : Z → Z → A :=
  λ i', if i' =? i then array1_set (a i') j v else a i'.

Definition array2_set_row {A} (a : Z → Z → A) (i : Z) (row : Z → A) : Z → Z → A :=
  λ i', if i' =? i then row else a i'.

Definition array2_uninitialized : Z → Z → Q := λ _ _, 0%Q.
Definition pillars_uninitialized : Z → Z → point := λ _ _, point_alloc_empty.

Definition corners_set (cs : corners) (c : Z) (p : point) : corners :=
  match c with
  | 0 => mk_corners p (cnr1 cs) (cnr2 cs) (cnr3 cs) (cnr4 cs) (cnr5 cs) (cnr6 cs) (cnr7 cs)
  | 1 => mk_corners (cnr0 cs) p (cnr2 cs) (cnr3 cs) (cnr4 cs) (cnr5 cs) (cnr6 cs) (cnr7 cs)
  | 2 => mk_corners (cnr0 cs) (cnr1 cs) p (cnr3 cs) (cnr4 cs) (cnr5 cs) (cnr6 cs) (cnr7 cs)
  | 3 => mk_corners (cnr0 cs) (cnr1 cs) (cnr2 cs) p (cnr4 cs) (cnr5 cs) (cnr6 cs) (cnr7 cs)
  | 4 => mk_corners (cnr0 cs) (cnr1 cs) (cnr2 cs) (cnr3 cs) p (cnr5 cs) (cnr6 cs) (cnr7 cs)
  | 5 => mk_corners (cnr0 cs) (cnr1 cs) (cnr2 cs) (cnr3 cs) (cnr4 cs) p (cnr6 cs) (cnr7 cs)
  | 6 => mk_corners (cnr0 cs) (cnr1 cs) (cnr2 cs) (cnr3 cs) (cnr4 cs) (cnr5 cs) p (cnr7 cs)
  | _ => mk_corners (cnr0 cs) (cnr1 cs) (cnr2 cs) (cnr3 cs) (cnr4 cs) (cnr5 cs) (cnr6 cs) p
  end.

(** [point_set(cell->corner_list[c], x, y, z)]. *)
Definition cell_set_corner (cell : ecl_cell) (c : Z) (p : point) : ecl_cell :=
  mk_cell (active cell) (active_index cell) (center cell)
          (corners_set (corner_list cell) c p) (lgr cell) (host_cell cell)
          (tainted_geometry cell).

(** The two loops of [ecl_grid_set_cell_EGRID] over [iz] and [ip].  The
    axis transform is not part of the model ([use_mapaxes] is false). *)
Definition ecl_cell_set_corners (cell : ecl_cell) (x y z : Z → Z → Q) : ecl_cell :=
  foldl (λ cell iz,
    foldl (λ cell ip,
      let c := ip + iz * 4 in
      cell_set_corner cell c (mk_point (x ip iz) (y ip iz) (z ip iz)))
      cell (seqZ 0 4))
    cell (seqZ 0 2).

Definition ecl_grid_set_cell_EGRID (g : ecl_grid) (i j k : Z) (x y z : Z → Z → Q)
    (actnum : list Z) : result ecl_grid :=
  let global_index := ecl_grid_get_global_index__ g i j k in
  cell ← array_get (cells g) global_index;
  let cell := ecl_cell_set_corners cell x y z in
  a ← array_get actnum global_index;
  let cell := if 0 <? a then cell_set_active cell true else cell in
  cs ← array_set (cells g) global_index cell;
  Ok (grid_set_cells g cs).

(** The quotient is the one of Q, in which x / 0 is 0; in doubles a pillar
    with e_z = 0 gives an infinite or undefined t.  Statements about the x
    and y computed here assume e_z <> 0. *)
Definition ecl_grid_pillar_cross_planes (pillar : Z → point) (z : Z → Q)
    (x y : Z → Q) : (Z → Q) * (Z → Q) :=
  let e_x := (px (pillar 1%Z) - px (pillar 0%Z))%Q in
  let e_y := (py (pillar 1%Z) - py (pillar 0%Z))%Q in
  let e_z := (pz (pillar 1%Z) - pz (pillar 0%Z))%Q in
  foldl (λ '(x, y) k,
    let t := ((z k - pz (pillar 0%Z)) / e_z)%Q in
    (array1_set x k (px (pillar 0%Z) + t * e_x)%Q,
     array1_set y k (py (pillar 0%Z) + t * e_y)%Q))
    (x, y) (seqZ 0 2).

(** The loop over [ip] of [ecl_grid_init_GRDECL_data__] that cuts the four
    pillars of a cell with its two planes. *)
Definition pillars_cross_planes (pillars : Z → Z → point) (z : Z → Z → Q)
    : (Z → Z → Q) * (Z → Z → Q) :=
  foldl (λ '(x, y) ip,
    let '(x_ip, y_ip) :=
      ecl_grid_pillar_cross_planes (pillars ip) (z ip) (x ip) (y ip) in
    (array2_set_row x ip x_ip, array2_set_row y ip y_ip))
    (array2_uninitialized, array2_uninitialized) (seqZ 0 4).

Definition ecl_grid_init_GRDECL_data__ (g : ecl_grid) (j1 j2 : Z)
    (zcorn coord : list Q) (actnum : list Z) : result ecl_grid :=
  let nx := nx g in
  let ny := ny g in
  let nz := nz g in
  for_loop j1 j2 (λ j g,
    for_loop 0 nx (λ i g,
      let pillar_index :=
        [ 6 * (j * (nx + 1) + i);
          6 * (j * (nx + 1) + i + 1);
          6 * ((j + 1) * (nx + 1) + i);
          6 * ((j + 1) * (nx + 1) + i + 1) ] in
      pillars ← for_loop 0 4 (λ ip pillars,
        index ← array_get pillar_index ip;
        c0 ← array_get coord index;
        c1 ← array_get coord (index + 1);
        c2 ← array_get coord (index + 2);
        let pillars := array2_set pillars ip 0 (mk_point c0 c1 c2) in
        let index := index + 3 in
        c0 ← array_get coord index;
        c1 ← array_get coord (index + 1);
        c2 ← array_get coord (index + 2);
        Ok (array2_set pillars ip 1 (mk_point c0 c1 c2))) pillars_uninitialized;
      for_loop 0 nz (λ k g,
        z ← for_loop 0 2 (λ c z,
          z0 ← array_get zcorn (k*8*nx*ny + j*4*nx + 2*i + c*4*nx*ny);
          z1 ← array_get zcorn (k*8*nx*ny + j*4*nx + 2*i + 1 + c*4*nx*ny);
          z2 ← array_get zcorn (k*8*nx*ny + j*4*nx + 2*nx + 2*i + c*4*nx*ny);
          z3 ← array_get zcorn (k*8*nx*ny + j*4*nx + 2*nx + 2*i + 1 + c*4*nx*ny);
          Ok (array2_set (array2_set (array2_set (array2_set z 0 c z0) 1 c z1)
                                     2 c z2) 3 c z3)) array2_uninitialized;
        let '(x, y) := pillars_cross_planes pillars z in
        ecl_grid_set_cell_EGRID g i j k x y z actnum) g) g) g.

(** [ecl_grid_alloc_GRDECL_data__] called without MAPAXES (the pointer is
    NULL): the grid is allocated in the store, filled, and its centres, its
    index maps and its tainted cells are computed.  [fill] is the content
    [util_realloc] leaves in the index maps. *)
Definition ecl_grid_alloc_GRDECL_data__ (fill : Z) (st : gmap grid_ref ecl_grid)
    (global_grid : option grid_ref) (nx ny nz : Z) (zcorn coord : list Q)
    (actnum : list Z) (grid_nr : Z) : result (gmap grid_ref ecl_grid * grid_ref) :=
  let '(st, ecl_grid) := ecl_grid_alloc_empty st global_grid nx ny nz grid_nr in
  g ← deref st ecl_grid;
  g ← ecl_grid_init_GRDECL_data__ g 0 ny zcorn coord actnum;
  g ← ecl_grid_set_center g;
  g ← ecl_grid_update_index fill g;
  g ← ecl_grid_taint_cells g;
  Ok (<[ecl_grid := g]> st, ecl_grid).

Definition ecl_grid_alloc_GRDECL_data (fill : Z) (st : gmap grid_ref ecl_grid)
    (nx ny nz : Z) (zcorn coord : list Q) (actnum : list Z)
    : result (gmap grid_ref ecl_grid * grid_ref) :=
  ecl_grid_alloc_GRDECL_data__ fill st None nx ny nz zcorn coord actnum 0.

(** *** What the builder is shown to compute

    The position in ZCORN of the depth of corner [ip + 4*iz] of the cell
    (i,j,k), the position in COORD of the pillar through its corner [ip], and
    the point stored at a position of COORD. *)
Definition zcorn_index (nx ny i j k ip iz : Z) : Z :=
  k*8*nx*ny + j*4*nx + (if ip <? 2 then 0 else 2*nx) + 2*i + ip mod 2 + iz*4*nx*ny.

Definition pillar_index (nx i j ip : Z) : Z :=
  6 * ((j + ip / 2) * (nx + 1) + i + ip mod 2).

Definition coord_point (coord : list Q) (index : Z) : option point :=
  x ← coord !! Z.to_nat index;
  y ← coord !! Z.to_nat (index + 1);
  z ← coord !! Z.to_nat (index + 2);
  Some (mk_point x y z).

(** A grid of one cell, the unit cube between the depths 1 and 2, on four
    vertical pillars, and one of two cells of which the second is inactive. *)
Definition grdecl_example_coord (nx : Z) : list Q :=
  j ← seqZ 0 2; i ← seqZ 0 (nx + 1);
  [inject_Z i; inject_Z j; 0; inject_Z i; inject_Z j; 10]%Q.

Definition grdecl_example_zcorn (nx : Z) : list Q :=
  replicate (Z.to_nat (4 * nx)) 1%Q ++ replicate (Z.to_nat (4 * nx)) 2%Q.

(** The cells (i',j',k') that the loops of [ecl_grid_init_GRDECL_data__]
    have filled when they reach (i,j,k): j is the outer loop, k the inner. *)
Definition GRDECL_processed (i j k i' j' k' : Z) : Prop :=
  j' < j ∨ (j' = j ∧ (i' < i ∨ (i' = i ∧ k' < k))).

(** The cell (i,j,k) as the builder leaves it: active exactly when ACTNUM
    is positive, no LGR, no host cell, the depths of its corners taken from
    ZCORN, and its corners on a vertical pillar at the (x,y) of the pillar. *)
Definition GRDECL_cell_ok (nx ny : Z) (zcorn coord : list Q) (actnum : list Z)
    (i j k : Z) (c : ecl_cell) : Prop :=
  (∃ a, actnum !! Z.to_nat (i + j * nx + k * nx * ny) = Some a ∧ active c = (0 <? a)) ∧
  lgr c = None ∧ host_cell c = -1 ∧
  ∀ ip iz, 0 <= ip < 4 → 0 <= iz < 2 →
    zcorn !! Z.to_nat (zcorn_index nx ny i j k ip iz)
    = Some (pz (cell_corner c (ip + iz * 4))) ∧
    ∃ p0 p1,
      coord_point coord (pillar_index nx i j ip) = Some p0 ∧
      coord_point coord (pillar_index nx i j ip + 3) = Some p1 ∧
      ((px p0 == px p1)%Q → (py p0 == py p1)%Q → ¬ (pz p0 == pz p1)%Q →
       (px (cell_corner c (ip + iz * 4)) == px p0)%Q ∧
       (py (cell_corner c (ip + iz * 4)) == py p0)%Q).

(** The grid while the builder fills it: the cells filled are as above,
    the others are as allocated, and nothing but the cells has changed. *)
Definition GRDECL_invariant (g0 : ecl_grid) (zcorn coord : list Q) (actnum : list Z)
    (processed : Z → Z → Z → Prop) (g : ecl_grid) : Prop :=
  ∃ cs, g = grid_set_cells g0 cs ∧ length cs = length (cells g0) ∧
    ∀ i j k, 0 <= i < nx g0 → 0 <= j < ny g0 → 0 <= k < nz g0 →
      ∃ c, cs !! Z.to_nat (ecl_grid_get_global_index__ g0 i j k) = Some c ∧
           (processed i j k → GRDECL_cell_ok (nx g0) (ny g0) zcorn coord actnum i j k c) ∧
           (¬ processed i j k → c = ecl_cell_alloc).

(** ** The cell records of a GRID file *)

(** [coords] are the elements of the COORDS keyword, whose number is its
    size, and [corners] those of the CORNERS keyword.  The axis transform is
    not part of the model ([use_mapaxes] is false). *)
Definition ecl_grid_set_cell_GRID (g : ecl_grid) (coords : list Z) (corners : list Q)
    : result ecl_grid :=
  i ← array_get coords 0;
  j ← array_get coords 1;
  k ← array_get coords 2;
  let global_index := ecl_grid_get_global_index__ g (i - 1) (j - 1) (k - 1) in
  cell ← array_get (cells g) global_index;
  let coords_size := Z.of_nat (length coords) in
  cell ←
    (if coords_size =? 4 then Ok (cell_set_active cell true)
     else if coords_size =? 5 then
       c4 ← array_get coords 4;
       Ok (cell_set_active cell (if c4 =? 1 then true else false))
     else if coords_size =? 7 then
       c4 ← array_get coords 4;
       let cell := cell_set_active cell (if c4 =? 1 then true else false) in
       c5 ← array_get coords 5;
       Ok (cell_set_host_cell cell (c5 - 1))
     else Ok cell);
  cell ← for_loop 0 8 (λ c cell,
            x ← array_get corners (3 * c);
            y ← array_get corners (3 * c + 1);
            z ← array_get corners (3 * c + 2);
            Ok (cell_set_corner cell c (mk_point x y z))) cell;
  cs ← array_set (cells g) global_index cell;
  Ok (grid_set_cells g cs).

(** ** The states of the loaders *)

Definition grid_set_names (g : ecl_grid) (name parent_name : option string) : ecl_grid :=
  mk_grid (grid_nr g) name (nx g) (ny g) (nz g) (size g) (total_active g)
          (visited g) (index_map g) (inv_index_map g) (cells g) parent_name
          (children g) (parent_grid g) (global_grid g) (LGR_list g) (LGR_hash g).

(** What a loader does to one grid between its allocation and its
    registration: it fills the cells from ZCORN, COORD and ACTNUM
    ([ecl_grid_alloc_GRDECL_data__]) or from the COORDS and CORNERS records
    ([ecl_grid_alloc_GRID__]), computes the centres, the index maps and the
    tainted cells, and sets the names. *)
Inductive grid_filling : ecl_grid → ecl_grid → Prop :=
| filling_GRDECL g j1 j2 zcorn coord actnum g' :
    ecl_grid_init_GRDECL_data__ g j1 j2 zcorn coord actnum = Ok g' →
    grid_filling g g'
| filling_cell_GRID g coords corners g' :
    ecl_grid_set_cell_GRID g coords corners = Ok g' →
    grid_filling g g'
| filling_set_center g g' :
    ecl_grid_set_center g = Ok g' → grid_filling g g'
| filling_update_index fill g g' :
    ecl_grid_update_index fill g = Ok g' → grid_filling g g'
| filling_taint_cells g g' :
    ecl_grid_taint_cells g = Ok g' → grid_filling g g'
| filling_names g name parent_name :
    grid_filling g (grid_set_names g name parent_name).

(** The states a loader ([ecl_grid_alloc_EGRID], [ecl_grid_alloc_GRID])
    passes through, with the LGRs registered so far in the order of their
    registration: the main grid is allocated with [grid_nr] 0, further grids
    are allocated, grids are filled, indexed and named, grids are registered,
    and LGRs are installed in their hosts. *)
Inductive lgr_building (main_grid : grid_ref)
    : list grid_ref → gmap grid_ref ecl_grid → Prop :=
| building_main st nx ny nz st' :
    ecl_grid_alloc_empty st None nx ny nz 0 = (st', main_grid) →
    lgr_building main_grid [] st'
| building_alloc regs st nx ny nz grid_nr st' lgr_grid :
    lgr_building main_grid regs st →
    ecl_grid_alloc_empty st (Some main_grid) nx ny nz grid_nr = (st', lgr_grid) →
    lgr_building main_grid regs st'
| building_fill regs st r g g' :
    lgr_building main_grid regs st →
    st !! r = Some g → grid_filling g g' →
    lgr_building main_grid regs (<[r := g']> st)
| building_name regs st lgr_grid lgr_name st' :
    lgr_building main_grid regs st →
    ecl_grid_set_lgr_name st lgr_grid lgr_name = Ok st' →
    lgr_building main_grid regs st'
| building_add regs st lgr_grid st' :
    lgr_building main_grid regs st →
    ecl_grid_add_lgr st main_grid lgr_grid = Ok st' →
    lgr_building main_grid (regs ++ [lgr_grid]) st'
| building_install_EGRID regs st host_grid lgr_grid hostnum st' :
    lgr_building main_grid regs st →
    ecl_grid_install_lgr_EGRID st host_grid lgr_grid hostnum = Ok st' →
    lgr_building main_grid regs st'
| building_install_GRID regs st host_grid lgr_grid st' :
    lgr_building main_grid regs st →
    ecl_grid_install_lgr_GRID st host_grid lgr_grid = Ok st' →
    lgr_building main_grid regs st'.

(** The LGR list of the main grid holds exactly the main grid itself, as
    a node it does not own, followed by the LGRs registered, in the order of
    their registration, as nodes it owns; the main grid has [grid_nr] 0 and
    the LGR at position n of the list has [grid_nr] n. *)
Definition lgr_list_registered (main_grid : grid_ref) (regs : list grid_ref)
    (st : gmap grid_ref ecl_grid) : Prop :=
  ∃ main : ecl_grid,
    st !! main_grid = Some main ∧ grid_nr main = 0 ∧
    LGR_list main
    = Some (mk_node main_grid false :: ((λ r, mk_node r true) <$> regs)) ∧
    ∀ (n : nat) (r : grid_ref),
      regs !! n = Some r →
      ∃ g : ecl_grid, st !! r = Some g ∧ grid_nr g = Z.of_nat (S n).

(** The store after the loading of a main grid of two cells, the second
    inactive, and of a grid with [grid_nr] 1 of one cell, named; and the
    store after the registration of that grid. *)
Definition loaded_main_store : gmap grid_ref ecl_grid :=
  match ecl_grid_alloc_GRDECL_data__ 0 ∅ None 2 1 1 (grdecl_example_zcorn 2)
          (grdecl_example_coord 2) [1; 0] 0 with
  | Ok (st, _) => st
  | _ => ∅
  end.

Definition loaded_lgr_store : gmap grid_ref ecl_grid :=
  match ecl_grid_alloc_GRDECL_data__ 0 loaded_main_store (Some 0%nat) 1 1 1
          (grdecl_example_zcorn 1) (grdecl_example_coord 1) [1] 1 with
  | Ok (st, _) => st
  | _ => loaded_main_store
  end.

Definition loaded_named_store : gmap grid_ref ecl_grid :=
  match ecl_grid_set_lgr_name loaded_lgr_store 1%nat "LGR1" with
  | Ok st => st
  | _ => loaded_lgr_store
  end.

Definition loaded_registered_store : gmap grid_ref ecl_grid :=
  match ecl_grid_add_lgr loaded_named_store 0%nat 1%nat with
  | Ok st => st
  | _ => loaded_named_store
  end.

(** A host grid of two cells at handle 0 and an LGR of one active cell at
    handle 1, whose host cell is the cell of index 1, as read from a GRID
    file. *)
Definition grid_file_example_store : gmap grid_ref ecl_grid :=
  <[1%nat := mk_grid 1 (Some "LGR1"%string) 1 1 1 1 0 None [] []
                     [cell_set_host_cell (cell_set_active ecl_cell_alloc true) 1]
                     None ∅ None (Some 0%nat) None None]>
  (<[0%nat := grid_of_cells 2 1 1 [ecl_cell_alloc; ecl_cell_alloc]]> ∅).

(** * Proofs *)

Lemma result_bind_ok {A B} (f : A → result B) (a : A) : Ok a ≫= f = f a.
Proof. reflexivity. Qed.

Lemma ecl_grid_ijk_valid_spec g i j k :
  ecl_grid_ijk_valid g i j k = true ↔
  0 <= i < nx g ∧ 0 <= j < ny g ∧ 0 <= k < nz g.
Proof.
  unfold ecl_grid_ijk_valid.
  repeat match goal with
         | |- context [if ?b then _ else _] => destruct b eqn:?
         end; split; intros; try discriminate; try lia.
Qed.

Lemma global_index_int_range g i j k (int_max : Z) :
  nx g * ny g * nz g <= int_max →
  0 <= i < nx g → 0 <= j < ny g → 0 <= k < nz g →
  0 <= j * nx g <= int_max ∧ 0 <= i + j * nx g <= int_max ∧
  0 <= k * nx g <= int_max ∧ 0 <= k * nx g * ny g <= int_max ∧
  0 <= ecl_grid_get_global_index__ g i j k < nx g * ny g * nz g.
Proof.
  unfold ecl_grid_get_global_index__.
  generalize (nx g) (ny g) (nz g). intros X Y N Hmax Hi Hj Hk.
  assert (0 < X * Y) by nia.
  assert (X * Y <= X * Y * N) by nia.
  assert (X <= X * Y) by nia.
  assert ((j + 1) * X <= Y * X) by (apply Z.mul_le_mono_nonneg_r; lia).
  assert ((k + 1) * (X * Y) <= N * (X * Y)) by (apply Z.mul_le_mono_nonneg_r; lia).
  assert ((k + 1) * X <= N * X) by (apply Z.mul_le_mono_nonneg_r; lia).
  assert (N * X <= X * Y * N) by nia.
  repeat split; try nia.
Qed.

(** C2.  For 0 <= i < nx, 0 <= j < ny, 0 <= k < nz the forward conversion
    returns i + j*nx + k*nx*ny and the conversion from the global index gives
    back (i,j,k); outside these ranges the forward conversion aborts. *)
Theorem global_index3_ijk1_roundtrip (g : ecl_grid) (i j k : Z) :
  (0 <= i < nx g ∧ 0 <= j < ny g ∧ 0 <= k < nz g →
     ecl_grid_get_global_index3 g i j k = Ok (i + j * nx g + k * nx g * ny g) ∧
     ecl_grid_get_ijk1 g (i + j * nx g + k * nx g * ny g) = Ok (i, j, k)) ∧
  (¬ (0 <= i < nx g ∧ 0 <= j < ny g ∧ 0 <= k < nz g) →
     ecl_grid_get_global_index3 g i j k = Abort).
Proof.
  split.
  - intros Hv. split.
    + unfold ecl_grid_get_global_index3.
      by rewrite (proj2 (ecl_grid_ijk_valid_spec g i j k) Hv).
    + destruct Hv as (Hi & Hj & Hk).
      unfold ecl_grid_get_ijk1, int_div.
      assert (Hxy : 0 < nx g * ny g) by nia.
      destruct (Z.eqb_spec (nx g * ny g) 0) as [?|_]; [lia|].
      rewrite result_bind_ok.
      assert (Hq : Z.quot (i + j * nx g + k * nx g * ny g) (nx g * ny g) = k).
      { rewrite Z.quot_div_nonneg by nia.
        symmetry. apply (Z.div_unique_pos _ _ k (i + j * nx g)); nia. }
      rewrite Hq.
      destruct (Z.eqb_spec (nx g) 0) as [?|_]; [lia|].
      rewrite result_bind_ok.
      assert (Hr : Z.quot (i + j * nx g + k * nx g * ny g - k * (nx g * ny g)) (nx g) = j).
      { rewrite Z.quot_div_nonneg by nia.
        symmetry. apply (Z.div_unique_pos _ _ j i); nia. }
      rewrite Hr. f_equal. f_equal. f_equal. lia.
  - intros Hn. unfold ecl_grid_get_global_index3.
    destruct (ecl_grid_ijk_valid g i j k) eqn:E; [|done].
    apply ecl_grid_ijk_valid_spec in E. contradiction.
Qed.

(** ** Loops *)

Lemma result_bind_ret {A} (r : result A) : r ≫= Ok = r.
Proof. by destruct r. Qed.

Lemma foldM_app {A St} (body : A → St → result St) (l1 l2 : list A) (s : St) :
  foldM body (l1 ++ l2) s = foldM body l1 s ≫= foldM body l2.
Proof.
  revert s. induction l1 as [|a l1 IH]; intros s; simpl; [done|].
  destruct (body a s); simpl; auto.
Qed.

Lemma foldM_ext {A St} (body body' : A → St → result St) (l : list A) (s : St) :
  (∀ a s, body a s = body' a s) → foldM body l s = foldM body' l s.
Proof.
  intros He. revert s. induction l as [|a l IH]; intros s; simpl; [done|].
  rewrite He. destruct (body' a s); simpl; auto.
Qed.

Lemma foldM_fmap {A B St} (f : A → B) (body : B → St → result St) (l : list A) (s : St) :
  foldM body (f <$> l) s = foldM (λ a, body (f a)) l s.
Proof.
  revert s. induction l as [|a l IH]; intros s; simpl; [done|].
  destruct (body (f a) s); simpl; auto.
Qed.

Lemma foldM_bind {A B St} (f : A → list B) (body : B → St → result St)
    (l : list A) (s : St) :
  foldM body (l ≫= f) s = foldM (λ a, foldM body (f a)) l s.
Proof.
  revert s. induction l as [|a l IH]; intros s; [done|].
  change ((a :: l) ≫= f) with (f a ++ (l ≫= f)).
  rewrite foldM_app. simpl. destruct (foldM body (f a) s); simpl; auto.
Qed.

Lemma nested_loops_traversal {St} (g : ecl_grid)
    (body : Z → Z → Z → St → result St) (s : St) :
  for_loop 0 (nz g) (λ k, for_loop 0 (ny g) (λ j, for_loop 0 (nx g) (λ i, body i j k))) s
  = foldM (λ '(i, j, k), body i j k) (traversal g) s.
Proof.
  unfold for_loop, traversal. rewrite !Z.sub_0_r.
  rewrite foldM_bind. apply foldM_ext. intros k s1.
  rewrite foldM_bind. apply foldM_ext. intros j s2.
  rewrite foldM_bind. apply foldM_ext. intros i s3.
  simpl. by rewrite result_bind_ret.
Qed.

Lemma seqZ_snoc (m len : Z) :
  0 <= len → seqZ m (len + 1) = seqZ m len ++ [m + len].
Proof.
  intros H. rewrite seqZ_app by lia. f_equal.
Qed.

Lemma seqZ_blocks (d n m : Z) :
  0 <= n → 0 <= m →
  (j ← seqZ 0 m; seqZ (d + j * n) n) = seqZ d (m * n).
Proof.
  intros Hn Hm. revert m Hm. apply natlike_ind.
  - by rewrite Z.mul_0_l, !seqZ_nil by lia.
  - intros m Hm IH. unfold Z.succ.
    rewrite seqZ_snoc by lia. rewrite bind_app, IH. simpl.
    rewrite app_nil_r, Z.add_0_l.
    replace ((m + 1) * n) with (m * n + n) by lia.
    assert (0 <= m * n) by (apply Z.mul_nonneg_nonneg; lia).
    by rewrite (seqZ_app d (m * n) n) by lia.
Qed.

Lemma fmap_list_bind {A B C} (f : B → C) (h : A → list B) (l : list A) :
  f <$> (l ≫= h) = l ≫= (λ a, f <$> h a).
Proof.
  induction l as [|a l IH]; [done|].
  change ((a :: l) ≫= h) with (h a ++ (l ≫= h)).
  rewrite fmap_app, IH. done.
Qed.

Lemma traversal_global_index (g : ecl_grid) :
  0 <= nx g → 0 <= ny g → 0 <= nz g →
  (λ '(i, j, k), ecl_grid_get_global_index__ g i j k) <$> traversal g
  = seqZ 0 (nx g * ny g * nz g).
Proof.
  intros Hx Hy Hz. unfold traversal, ecl_grid_get_global_index__.
  rewrite fmap_list_bind.
  replace (nx g * ny g * nz g) with (nz g * (nx g * ny g)) by lia.
  assert (0 <= nx g * ny g) by (apply Z.mul_nonneg_nonneg; lia).
  rewrite <- (seqZ_blocks 0 (nx g * ny g) (nz g)) by lia.
  apply list_bind_ext; [|done]. intros k.
  rewrite fmap_list_bind.
  replace (nx g * ny g) with (ny g * nx g) by lia.
  rewrite <- (seqZ_blocks (0 + k * (ny g * nx g)) (nx g) (ny g)) by lia.
  apply list_bind_ext; [|done]. intros j.
  rewrite fmap_list_bind.
  replace (0 + k * (ny g * nx g) + j * nx g)
    with (0 + k * (ny g * nx g) + j * nx g + 0) by lia.
  rewrite <- (fmap_add_seqZ (0 + k * (ny g * nx g) + j * nx g) 0 (nx g)).
  induction (seqZ 0 (nx g)) as [|i l IH]; [done|].
  simpl. f_equal; [lia|]. apply IH.
Qed.

(** ** Arrays *)

Lemma array_get_middle {A} (pre suf : list A) (x : A) :
  array_get (pre ++ x :: suf) (Z.of_nat (length pre)) = Ok x.
Proof.
  unfold array_get. destruct (Z.ltb_spec (Z.of_nat (length pre)) 0); [lia|].
  rewrite Nat2Z.id, list_lookup_middle; done.
Qed.

Lemma array_set_middle {A} (pre suf : list A) (x y : A) :
  array_set (pre ++ x :: suf) (Z.of_nat (length pre)) y = Ok (pre ++ y :: suf).
Proof.
  unfold array_set. rewrite length_app. simpl.
  destruct (Z.leb_spec 0 (Z.of_nat (length pre))); [|lia].
  destruct (Z.ltb_spec (Z.of_nat (length pre)) (Z.of_nat (length pre + S (length suf)))); [|lia].
  simpl. rewrite Nat2Z.id.
  rewrite insert_app_r_alt by lia. rewrite Nat.sub_diag. done.
Qed.

Lemma array_get_Ok {A} (l : list A) (i : Z) (x : A) :
  array_get l i = Ok x ↔ 0 <= i ∧ l !! Z.to_nat i = Some x.
Proof.
  unfold array_get. destruct (Z.ltb_spec i 0).
  - split; [done|lia].
  - destruct (l !! Z.to_nat i) as [y|].
    + split; [intros [= ->]; by split|intros [_ [= ->]]; done].
    + split; [done|intros [_ [=]]].
Qed.

(** ** The active index *)

Lemma count_active_app cs1 cs2 :
  count_active (cs1 ++ cs2) = count_active cs1 + count_active cs2.
Proof. induction cs1 as [|c cs1 IH]; simpl; lia. Qed.

Lemma count_active_nonneg cs : 0 <= count_active cs.
Proof. induction cs as [|c cs IH]; simpl; [lia|]. destruct (active c); lia. Qed.

Lemma count_active_le_length cs : count_active cs <= Z.of_nat (length cs).
Proof. induction cs as [|c cs IH]; simpl; [lia|]. destruct (active c); lia. Qed.

Lemma active_index_step_middle (pre suf : list ecl_cell) (c : ecl_cell) (ai : Z) :
  active_index_step (Z.of_nat (length pre)) (pre ++ c :: suf, ai)
  = Ok (pre ++ (if active c then cell_set_active_index c ai
                else cell_set_active_index c (-1)) :: suf,
        if active c then ai + 1 else ai).
Proof.
  unfold active_index_step.
  rewrite array_get_middle, result_bind_ok.
  destruct (active c); by rewrite array_set_middle, result_bind_ok.
Qed.

Lemma active_index_linear (pre suf : list ecl_cell) (ai lo len : Z) :
  lo = Z.of_nat (length pre) → len = Z.of_nat (length suf) →
  foldM active_index_step (seqZ lo len) (pre ++ suf, ai)
  = Ok (pre ++ ranked ai suf, ai + count_active suf).
Proof.
  revert pre ai lo len. induction suf as [|c suf IH]; intros pre ai lo len Hlo Hlen.
  - subst len. simpl. by rewrite Z.add_0_r.
  - rewrite seqZ_cons by (simpl in Hlen; lia). cbn [foldM]. subst lo.
    rewrite active_index_step_middle, result_bind_ok.
    cbn [ranked count_active].
    destruct (active c) eqn:Hc.
    + rewrite (cons_middle _ pre suf), app_assoc.
      rewrite IH by (rewrite ?length_app; simpl in *; lia).
      rewrite <- app_assoc. simpl. do 2 f_equal. lia.
    + rewrite (cons_middle _ pre suf), app_assoc.
      rewrite IH by (rewrite ?length_app; simpl in *; lia).
      rewrite <- app_assoc. simpl. do 2 f_equal.
Qed.

Lemma ecl_grid_set_active_index_ranked (g : ecl_grid) :
  grid_wf g →
  ecl_grid_set_active_index g
  = Ok (grid_set_total_active (grid_set_cells g (ranked 0 (cells g)))
                              (count_active (cells g))).
Proof.
  intros (Hx & Hy & Hz & Hs & Hl). unfold ecl_grid_set_active_index.
  rewrite (nested_loops_traversal g (set_active_index_body g)).
  rewrite (foldM_ext _ (λ ijk, active_index_step
             ((λ '(i, j, k), ecl_grid_get_global_index__ g i j k) ijk)))
    by (by intros [[i j] k] s).
  rewrite <- (foldM_fmap (λ '(i, j, k), ecl_grid_get_global_index__ g i j k)
                         active_index_step).
  rewrite traversal_global_index by done.
  rewrite <- Hs, <- Hl.
  by rewrite (active_index_linear [] (cells g) 0).
Qed.

(** ** The index maps *)

Lemma ranked_active (ai : Z) (cs : list ecl_cell) :
  active <$> ranked ai cs = active <$> cs.
Proof.
  revert ai. induction cs as [|c cs IH]; intros ai; simpl; [done|].
  destruct (active c) eqn:Hc; simpl; rewrite IH, ?Hc; done.
Qed.

Lemma ranked_lookup (ai : Z) (cs : list ecl_cell) (n : nat) :
  ranked ai cs !! n
  = (λ c, cell_set_active_index c
            (if active c then ai + count_active (take n cs) else -1)) <$> cs !! n.
Proof.
  revert ai n. induction cs as [|c cs IH]; intros ai n; [done|].
  destruct n as [|n]; simpl.
  - destruct (active c); simpl; by rewrite ?Z.add_0_r.
  - destruct (active c) eqn:Hc; simpl; rewrite IH; destruct (cs !! n) as [c'|]; simpl;
      try done; destruct (active c'); do 2 f_equal; lia.
Qed.

Lemma count_active_fmap (cs cs' : list ecl_cell) :
  active <$> cs = active <$> cs' → count_active cs = count_active cs'.
Proof.
  revert cs'. induction cs as [|c cs IH]; intros [|c' cs'] H; try done.
  simpl in *. injection H as Hc H. rewrite Hc, (IH cs' H). done.
Qed.

Lemma active_positions_length (n : Z) (cs : list ecl_cell) :
  Z.of_nat (length (active_positions n cs)) = count_active cs.
Proof.
  revert n. induction cs as [|c cs IH]; intros n; simpl; [done|].
  destruct (active c); simpl; rewrite <- (IH (n + 1)); lia.
Qed.

Lemma index_map_step_active (cs : list ecl_cell) (c : ecl_cell) (index x y : Z)
    (im_pre im_suf inv_pre inv_suf : list Z) :
  array_get cs index = Ok c → active c = true →
  index = Z.of_nat (length im_pre) → active_index c = Z.of_nat (length inv_pre) →
  index_map_step cs index (im_pre ++ x :: im_suf, inv_pre ++ y :: inv_suf)
  = Ok (im_pre ++ active_index c :: im_suf, inv_pre ++ index :: inv_suf).
Proof.
  intros Hg Hc -> Ha. unfold index_map_step.
  rewrite Hg, result_bind_ok, Hc, array_set_middle, result_bind_ok.
  by rewrite Ha, array_set_middle, result_bind_ok.
Qed.

Lemma index_map_step_inactive (cs : list ecl_cell) (c : ecl_cell) (index x : Z)
    (im_pre im_suf inv : list Z) :
  array_get cs index = Ok c → active c = false →
  index = Z.of_nat (length im_pre) →
  index_map_step cs index (im_pre ++ x :: im_suf, inv)
  = Ok (im_pre ++ -1 :: im_suf, inv).
Proof.
  intros Hg Hc ->. unfold index_map_step.
  by rewrite Hg, result_bind_ok, Hc, array_set_middle, result_bind_ok.
Qed.

Lemma index_map_linear (cs pre suf : list ecl_cell) (a0 lo len : Z)
    (im_pre im_suf inv_pre inv_suf : list Z) :
  cs = pre ++ ranked a0 suf →
  lo = Z.of_nat (length pre) → len = Z.of_nat (length suf) →
  length im_pre = length pre → length im_suf = length suf →
  Z.of_nat (length inv_pre) = a0 →
  Z.of_nat (length inv_suf) = count_active suf →
  foldM (index_map_step cs) (seqZ lo len) (im_pre ++ im_suf, inv_pre ++ inv_suf)
  = Ok (im_pre ++ (index_map_entry <$> ranked a0 suf),
        inv_pre ++ active_positions lo suf).
Proof.
  revert pre a0 lo len im_pre im_suf inv_pre inv_suf.
  induction suf as [|c suf IH];
    intros pre a0 lo len im_pre im_suf inv_pre inv_suf Hcs Hlo Hlen Hip His Hvp Hvs.
  - subst len. destruct im_suf; [|done]. destruct inv_suf; [|done]. done.
  - rewrite seqZ_cons by (simpl in Hlen; lia). cbn [foldM].
    destruct im_suf as [|x im_suf]; [done|].
    cbn [ranked active_positions count_active] in *.
    destruct (active c) eqn:Hc.
    + destruct inv_suf as [|y inv_suf];
        [pose proof (count_active_nonneg suf); simpl in Hvs; lia|].
      rewrite (index_map_step_active cs (cell_set_active_index c a0));
        [|subst cs lo; apply array_get_middle|done|lia|simpl; lia].
      rewrite result_bind_ok. simpl active_index.
      rewrite (cons_middle _ im_pre im_suf), (cons_middle _ inv_pre inv_suf), !app_assoc.
      rewrite (IH (pre ++ [cell_set_active_index c a0]) (a0 + 1));
        [| subst cs; by rewrite <- app_assoc
         | rewrite length_app; simpl; lia
         | simpl in Hlen; lia
         | rewrite !length_app; simpl; lia
         | simpl in His; lia
         | rewrite length_app; simpl; lia
         | simpl in Hvs; lia ].
      rewrite <- !app_assoc. simpl. unfold index_map_entry at 2. simpl. rewrite Hc.
      reflexivity.
    + rewrite (index_map_step_inactive cs (cell_set_active_index c (-1)));
        [|subst cs lo; apply array_get_middle|done|lia].
      rewrite result_bind_ok.
      rewrite (cons_middle _ im_pre im_suf), !app_assoc.
      rewrite (IH (pre ++ [cell_set_active_index c (-1)]) a0);
        [| subst cs; by rewrite <- app_assoc
         | rewrite length_app; simpl; lia
         | simpl in Hlen; lia
         | rewrite !length_app; simpl; lia
         | simpl in His; lia
         | done
         | lia ].
      rewrite <- !app_assoc. simpl. unfold index_map_entry at 2. simpl. rewrite Hc.
      reflexivity.
Qed.

Lemma active_positions_lookup (n0 : Z) (cs : list ecl_cell) (a : nat) (n : Z) :
  active_positions n0 cs !! a = Some n ↔
  ∃ (m : nat) (c : ecl_cell),
    n = n0 + Z.of_nat m ∧ cs !! m = Some c ∧ active c = true ∧
    count_active (take m cs) = Z.of_nat a.
Proof.
  revert n0 a. induction cs as [|c cs IH]; intros n0 a.
  - simpl. split; [done|]. by intros (m & c & _ & H & _).
  - cbn [active_positions]. destruct (active c) eqn:Hc.
    + destruct a as [|a]; simpl.
      * split.
        -- intros [= <-]. exists 0%nat, c. repeat split; [lia|done].
        -- intros (m & c' & -> & Hm & Hc' & Hcnt). destruct m as [|m].
           ++ f_equal. lia.
           ++ simpl in Hcnt. rewrite Hc in Hcnt.
              pose proof (count_active_nonneg (take m cs)). lia.
      * rewrite IH. split.
        -- intros (m & c' & -> & Hm & Hc' & Hcnt).
           exists (S m), c'. simpl. rewrite Hc. repeat split; try done; lia.
        -- intros (m & c' & -> & Hm & Hc' & Hcnt). destruct m as [|m].
           ++ simpl in Hcnt. lia.
           ++ simpl in Hm, Hcnt. rewrite Hc in Hcnt.
              exists m, c'. repeat split; try done; lia.
    + rewrite IH. split.
      * intros (m & c' & -> & Hm & Hc' & Hcnt).
        exists (S m), c'. simpl. rewrite Hc. repeat split; try done; lia.
      * intros (m & c' & -> & Hm & Hc' & Hcnt). destruct m as [|m].
        -- simpl in Hm. injection Hm as ->. congruence.
        -- simpl in Hm, Hcnt. rewrite Hc in Hcnt.
           exists m, c'. repeat split; try done; lia.
Qed.

Lemma index_map_entry_lookup (cs : list ecl_cell) (m : nat) :
  (index_map_entry <$> ranked 0 cs) !! m
  = (λ c, if active c then count_active (take m cs) else -1) <$> cs !! m.
Proof.
  rewrite list_lookup_fmap, ranked_lookup.
  destruct (cs !! m) as [c|]; [|done]. simpl. unfold index_map_entry. simpl.
  by destruct (active c).
Qed.

Lemma ecl_grid_update_index_result (fill : Z) (g : ecl_grid) :
  grid_wf g →
  ecl_grid_update_index fill g
  = Ok (grid_set_index_maps
          (grid_set_total_active (grid_set_cells g (ranked 0 (cells g)))
                                 (count_active (cells g)))
          (index_map_entry <$> ranked 0 (cells g))
          (active_positions 0 (cells g))).
Proof.
  intros Hwf. unfold ecl_grid_update_index.
  rewrite ecl_grid_set_active_index_ranked by done. rewrite result_bind_ok.
  destruct Hwf as (Hx & Hy & Hz & Hs & Hl).
  unfold ecl_grid_realloc_index_map, for_loop. simpl. rewrite Z.sub_0_r.
  pose proof (count_active_nonneg (cells g)) as Hca.
  rewrite (foldM_ext _ (index_map_step (ranked 0 (cells g))))
    by (by intros index [im inv]).
  pose proof (index_map_linear (ranked 0 (cells g)) [] (cells g) 0 0 (size g) []
                (util_realloc fill (index_map g) (size g)) []
                (util_realloc fill (inv_index_map g) (count_active (cells g)))) as H.
  simpl in H. rewrite H; try done; try lia.
  - unfold util_realloc. rewrite length_resize. lia.
  - unfold util_realloc. rewrite length_resize. lia.
Qed.

Lemma count_active_at_take (g : ecl_grid) (t : nat) :
  grid_wf g → (t <= length (cells g))%nat →
  count_active_at g (take t (traversal g)) = count_active (take t (cells g)).
Proof.
  intros (Hx & Hy & Hz & Hs & Hl) Ht.
  pose proof (traversal_global_index g Hx Hy Hz) as Htr.
  rewrite <- Hs, <- Hl in Htr.
  induction t as [|t IH]; [done|].
  destruct (lookup_lt_is_Some_2 (cells g) t) as [c Hc]; [lia|].
  assert (Hlt : (t < length (traversal g))%nat).
  { rewrite <- (length_fmap (λ '(i, j, k), ecl_grid_get_global_index__ g i j k)), Htr.
    rewrite length_seqZ. lia. }
  destruct (lookup_lt_is_Some_2 (traversal g) t Hlt) as [[[i j] k] Hijk].
  rewrite (take_S_r _ _ _ Hc), (take_S_r _ _ _ Hijk).
  unfold count_active_at in *. rewrite List.filter_app, length_app, count_active_app.
  rewrite Nat2Z.inj_add, IH by lia. f_equal.
  assert (Hgi : ecl_grid_get_global_index__ g i j k = Z.of_nat t).
  { assert (H : ((λ '(i, j, k), ecl_grid_get_global_index__ g i j k) <$> traversal g) !! t
                = Some (ecl_grid_get_global_index__ g i j k))
      by (by rewrite list_lookup_fmap, Hijk).
    rewrite Htr in H. apply lookup_seqZ in H. lia. }
  simpl. unfold array_get. rewrite Hgi.
  destruct (Z.ltb_spec (Z.of_nat t) 0); [lia|]. rewrite Nat2Z.id, Hc.
  by destruct (active c).
Qed.

(** C1.  After [ecl_grid_update_index] (the active-index pass followed by
    the index-map pass) on a grid with nx*ny*nz cells: the t-th cell of the
    traversal with k outermost and i innermost is the cell of global index t,
    keeps its active flag, and has as active index the number of active cells
    visited before it when it is active and -1 otherwise; the entry of the
    global-to-active map is the cell's active index when the cell is active
    and -1 when it is not; the active-to-global map has total_active entries
    and is the inverse of the global-to-active map; total_active is the
    number of active cells. *)
Theorem update_index_rank_and_maps (fill : Z) (g : ecl_grid) :
  grid_wf g →
  ∃ g' : ecl_grid,
    ecl_grid_update_index fill g = Ok g' ∧
    Z.of_nat (length (traversal g)) = nx g * ny g * nz g ∧
    (∀ (t : nat) (i j k : Z),
       traversal g !! t = Some (i, j, k) →
       ecl_grid_get_global_index__ g i j k = Z.of_nat t ∧
       ∃ c c' : ecl_cell,
         cells g !! t = Some c ∧ cells g' !! t = Some c' ∧
         active c' = active c ∧
         active_index c' =
           if active c then count_active_at g (take t (traversal g)) else -1) ∧
    (∀ (n : Z) (c' : ecl_cell),
       array_get (cells g') n = Ok c' →
       array_get (index_map g') n = Ok (if active c' then active_index c' else -1)) ∧
    length (index_map g') = length (cells g') ∧
    Z.of_nat (length (inv_index_map g')) = total_active g' ∧
    (∀ a n : Z,
       0 <= a →
       array_get (inv_index_map g') a = Ok n ↔ array_get (index_map g') n = Ok a) ∧
    total_active g' = count_active (cells g').
Proof.
  intros Hwf. eexists. split; [by apply ecl_grid_update_index_result|].
  pose proof Hwf as (Hx & Hy & Hz & Hs & Hl). simpl.
  pose proof (traversal_global_index g Hx Hy Hz) as Htr.
  assert (Hlen : Z.of_nat (length (traversal g)) = nx g * ny g * nz g).
  { rewrite <- (length_fmap (λ '(i, j, k), ecl_grid_get_global_index__ g i j k)), Htr.
    rewrite length_seqZ. lia. }
  split; [done|]. split; [|split; [|split; [|split; [|split]]]].
  - intros t i j k Hijk.
    assert (Hgi : ecl_grid_get_global_index__ g i j k = Z.of_nat t).
    { assert (H : ((λ '(i, j, k), ecl_grid_get_global_index__ g i j k) <$> traversal g) !! t
                  = Some (ecl_grid_get_global_index__ g i j k))
        by (by rewrite list_lookup_fmap, Hijk).
      rewrite Htr in H. apply lookup_seqZ in H. lia. }
    split; [done|].
    assert (Ht : (t < length (cells g))%nat).
    { apply lookup_lt_Some in Hijk. lia. }
    destruct (lookup_lt_is_Some_2 (cells g) t Ht) as [c Hc].
    exists c. eexists. split; [done|]. rewrite ranked_lookup, Hc. simpl.
    split; [done|]. split; [done|]. simpl.
    rewrite count_active_at_take by (done || lia).
    by destruct (active c).
  - intros n c' Hn. apply array_get_Ok in Hn as [Hn0 Hn].
    apply array_get_Ok. split; [done|].
    by rewrite list_lookup_fmap, Hn.
  - by rewrite length_fmap.
  - apply active_positions_length.
  - intros a n Ha. rewrite !array_get_Ok, active_positions_lookup, index_map_entry_lookup.
    split.
    + intros (_ & m & c & -> & Hm & Hc & Hcnt). split; [lia|].
      rewrite Z.add_0_l, Nat2Z.id, Hm. simpl. rewrite Hc. f_equal. lia.
    + intros (Hn0 & Hn). split; [done|].
      destruct (cells g !! Z.to_nat n) as [c|] eqn:Hm; [|done].
      simpl in Hn. destruct (active c) eqn:Hc; [|injection Hn; lia].
      exists (Z.to_nat n), c. repeat split; try done; try lia.
      injection Hn. lia.
  - apply count_active_fmap. by rewrite ranked_active.
Qed.

(** ** Loops that update every element of an array *)

Lemma map_loop_linear {A} (f : A → A) (pre suf : list A) (lo len : Z) :
  lo = Z.of_nat (length pre) → len = Z.of_nat (length suf) →
  foldM (λ index cs, cell ← array_get cs index; array_set cs index (f cell))
        (seqZ lo len) (pre ++ suf)
  = Ok (pre ++ (f <$> suf)).
Proof.
  revert pre lo len. induction suf as [|c suf IH]; intros pre lo len Hlo Hlen.
  - subst len. done.
  - rewrite seqZ_cons by (simpl in Hlen; lia). cbn [foldM]. subst lo.
    rewrite array_get_middle, result_bind_ok, array_set_middle, result_bind_ok.
    rewrite (cons_middle _ pre suf), app_assoc.
    rewrite IH by (rewrite ?length_app; simpl in *; lia).
    by rewrite <- app_assoc.
Qed.

Lemma map_loop {A} (f : A → A) (cs : list A) (n : Z) :
  Z.of_nat (length cs) = n →
  for_loop 0 n (λ index cs, cell ← array_get cs index; array_set cs index (f cell)) cs
  = Ok (f <$> cs).
Proof.
  intros Hn. unfold for_loop. rewrite Z.sub_0_r.
  by apply (map_loop_linear f [] cs 0 n).
Qed.

(** ** Tainted cells *)

Lemma at_origin_xy_spec (p : point) :
  at_origin_xy p = true ↔ (px p == 0)%Q ∧ (py p == 0)%Q.
Proof.
  unfold at_origin_xy. rewrite andb_true_iff, !Qeq_bool_iff. done.
Qed.

Lemma taint_fold (l : list Z) (cell : ecl_cell) :
  corner_list (foldl taint_corner cell l) = corner_list cell ∧
  active (foldl taint_corner cell l) = active cell ∧
  tainted_geometry (foldl taint_corner cell l)
  = tainted_geometry cell || existsb (λ c, at_origin_xy (cell_corner cell c)) l.
Proof.
  revert cell. induction l as [|c l IH]; intros cell; cbn [foldl existsb].
  - by rewrite orb_false_r.
  - destruct (IH (taint_corner cell c)) as (IH1 & IH2 & IH3).
    rewrite IH1, IH2, IH3. unfold taint_corner, cell_corner in *.
    destruct (at_origin_xy (corner (corner_list cell) c)) eqn:Hc; simpl.
    + by rewrite orb_true_r.
    + done.
Qed.

Lemma ecl_cell_taint_cell_spec (cell : ecl_cell) :
  corner_list (ecl_cell_taint_cell cell) = corner_list cell ∧
  active (ecl_cell_taint_cell cell) = active cell ∧
  (tainted_geometry (ecl_cell_taint_cell cell) = true ↔
   tainted_geometry cell = true ∨
   ∃ c : Z, 0 <= c < 8 ∧
     (px (cell_corner cell c) == 0)%Q ∧ (py (cell_corner cell c) == 0)%Q).
Proof.
  destruct (taint_fold (seqZ 0 8) cell) as (H1 & H2 & H3).
  split; [done|]. split; [done|].
  unfold ecl_cell_taint_cell. rewrite H3, orb_true_iff, existsb_exists.
  split; (intros [Ht|Hex]; [by left|right]).
  - destruct Hex as (c & Hin & Hc). exists c.
    apply list_elem_of_In, elem_of_seqZ in Hin. apply at_origin_xy_spec in Hc.
    split; [lia|done].
  - destruct Hex as (c & Hr & Hc). exists c. split.
    + apply list_elem_of_In, elem_of_seqZ. lia.
    + by apply at_origin_xy_spec.
Qed.

(** C7.  After [ecl_grid_taint_cells] on a grid none of whose cells was
    tainted before (cells are allocated untainted and no other function sets
    the flag), a cell is tainted if and only if one of its eight corners has
    x = 0 and y = 0, whatever its z; the corners are left as they were. *)
Theorem taint_cells_iff_corner_at_xy_origin (g : ecl_grid) :
  Z.of_nat (length (cells g)) = size g →
  (∀ c : ecl_cell, c ∈ cells g → tainted_geometry c = false) →
  ∃ g' : ecl_grid,
    ecl_grid_taint_cells g = Ok g' ∧
    length (cells g') = length (cells g) ∧
    ∀ (n : nat) (c : ecl_cell),
      cells g !! n = Some c →
      ∃ c' : ecl_cell,
        cells g' !! n = Some c' ∧ corner_list c' = corner_list c ∧
        (tainted_geometry c' = true ↔
         ∃ k : Z, 0 <= k < 8 ∧
           (px (cell_corner c k) == 0)%Q ∧ (py (cell_corner c k) == 0)%Q).
Proof.
  intros Hlen Hun. unfold ecl_grid_taint_cells.
  rewrite (map_loop ecl_cell_taint_cell) by done. rewrite result_bind_ok.
  eexists. split; [done|]. simpl. split; [by rewrite length_fmap|].
  intros n c Hc. exists (ecl_cell_taint_cell c).
  rewrite list_lookup_fmap, Hc. split; [done|].
  destruct (ecl_cell_taint_cell_spec c) as (H1 & _ & H3). split; [done|].
  rewrite H3. split; [|by right].
  intros [Ht|Hex]; [|done].
  rewrite (Hun c) in Ht; [done|]. by eapply list_elem_of_lookup_2.
Qed.

(** ** Point containment and volume *)

Section GeometryProofs.
Context `{tetrahedron_lib}.

(** C6.  For a cell with tainted geometry the point-in-cell test answers
    false for every point, its own centre included, and the layer test
    answers false for every (x, y) and both layers. *)
Theorem tainted_cell_contains_no_point (cell : ecl_cell) :
  tainted_geometry cell = true →
  (∀ p : point, ecl_cell_contains_point cell p = Ok false) ∧
  (∀ (lower_layer : bool) (x y : Q),
     ecl_cell_layer_contains_xy cell lower_layer x y = false) ∧
  ecl_cell_contains_point cell (center cell) = Ok false.
Proof.
  intros Ht. unfold ecl_cell_contains_point, ecl_cell_layer_contains_xy.
  rewrite Ht. done.
Qed.

Lemma ecl_cell_get_volume_unfold (cell : ecl_cell) :
  ecl_cell_get_volume cell
  = Ok (foldl (λ volume '(t0, t1),
                 (volume + tetrahedron_volume t0 + tetrahedron_volume t1)%Q)
              0%Q (zip (scheme_tetrahedra cell 0) (scheme_tetrahedra cell 1))
        * (1 # 2))%Q.
Proof. reflexivity. Qed.

Lemma foldl_pair_sum (f : tetrahedron → Q) (l : list (tetrahedron * tetrahedron)) (v : Q) :
  (foldl (λ volume '(t0, t1), (volume + f t0 + f t1)%Q) v l
   == v + Qsum (f <$> l.*1) + Qsum (f <$> l.*2))%Q.
Proof.
  revert v. induction l as [|[t0 t1] l IH]; intros v.
  - unfold Qsum. cbn [foldl fmap list_fmap foldr]. ring.
  - cbn [foldl]. rewrite IH. unfold Qsum. cbn [fmap list_fmap foldr fst snd]. ring.
Qed.

Lemma Qltb_false (x y : Q) : Qltb x y = false ↔ (y <= x)%Q.
Proof.
  unfold Qltb. rewrite negb_false_iff. apply Qle_bool_iff.
Qed.

Lemma Qgtb_false (x y : Q) : Qgtb x y = false ↔ (x <= y)%Q.
Proof.
  unfold Qgtb. rewrite negb_false_iff. apply Qle_bool_iff.
Qed.

Lemma contains_point_abort_generic (cell : ecl_cell) (p : point) (v : Q) :
  tainted_geometry cell = false →
  (ecl_cell_min_z cell <= pz p)%Q → (pz p <= ecl_cell_max_z cell)%Q →
  (ecl_cell_min_x cell <= px p)%Q → (px p <= ecl_cell_max_x cell)%Q →
  (ecl_cell_min_y cell <= py p)%Q → (py p <= ecl_cell_max_y cell)%Q →
  ecl_cell_get_volume cell = Ok v → ¬ (0 < v)%Q →
  ecl_cell_contains_point cell p = Abort ∧
  ∀ (g : ecl_grid) (global_index : Z),
    array_get (cells g) global_index = Ok cell →
    ecl_grid_cell_contains_xyz1 g global_index (px p) (py p) (pz p) = Abort.
Proof.
  intros Ht Hz1 Hz2 Hx1 Hx2 Hy1 Hy2 Hv Hnp.
  assert (Hab : ecl_cell_contains_point cell p = Abort).
  { unfold ecl_cell_contains_point. rewrite Ht.
    rewrite (proj2 (Qltb_false _ _) Hz1), (proj2 (Qgtb_false _ _) Hz2).
    rewrite (proj2 (Qltb_false _ _) Hx1), (proj2 (Qgtb_false _ _) Hx2).
    rewrite (proj2 (Qltb_false _ _) Hy1), (proj2 (Qgtb_false _ _) Hy2).
    rewrite Hv, result_bind_ok.
    rewrite (proj2 (Qgtb_false v 0)); [done|]. by apply Qnot_lt_le. }
  split; [done|]. intros g n Hn. unfold ecl_grid_cell_contains_xyz1.
  rewrite Hn, result_bind_ok. by destruct p.
Qed.

Lemma scheme_tetrahedra_length (cell : ecl_cell) :
  length (scheme_tetrahedra cell 0) = 12%nat ∧
  length (scheme_tetrahedra cell 1) = 12%nat.
Proof. split; reflexivity. Qed.

Lemma scheme_tetrahedra_center (cell : ecl_cell) (method_nr : nat) (t : tetrahedron) :
  t ∈ scheme_tetrahedra cell method_nr → tp0 t = center cell.
Proof.
  unfold scheme_tetrahedra. intros Ht.
  apply list_elem_of_fmap in Ht as ([[a b] c] & -> & _). done.
Qed.

Lemma ecl_cell_get_volume_sum (cell : ecl_cell) :
  ∃ v : Q,
    ecl_cell_get_volume cell = Ok v ∧
    (v == (Qsum (tetrahedron_volume <$> scheme_tetrahedra cell 0)
           + Qsum (tetrahedron_volume <$> scheme_tetrahedra cell 1)) * (1 # 2))%Q.
Proof.
  rewrite ecl_cell_get_volume_unfold. eexists. split; [reflexivity|].
  rewrite foldl_pair_sum.
  rewrite fst_zip, snd_zip by (destruct (scheme_tetrahedra_length cell); lia).
  ring.
Qed.

End GeometryProofs.

Lemma Qabs_of_square (e c : Q) :
  (e * e == c * c)%Q → (0 <= c)%Q → (Qabs e == c)%Q.
Proof.
  intros He Hc.
  assert (Hf : ((e - c) * (e + c) == 0)%Q) by (ring_simplify; rewrite He; ring).
  apply Qmult_integral in Hf as [Hf|Hf].
  - assert (e == c)%Q as -> by (rewrite <- (Qplus_0_r c), <- Hf; ring).
    by apply Qabs_pos.
  - assert (e == - c)%Q as -> by (rewrite <- (Qplus_0_l (- c)), <- Hf; ring).
    rewrite Qabs_opp. by apply Qabs_pos.
Qed.

Lemma unit_cube_center (x0 y0 z0 : Q) :
  (px (center (unit_cube_cell x0 y0 z0)) == x0 + (1 # 2))%Q ∧
  (py (center (unit_cube_cell x0 y0 z0)) == y0 + (1 # 2))%Q ∧
  (pz (center (unit_cube_cell x0 y0 z0)) == z0 + (1 # 2))%Q.
Proof.
  cbv -[Qplus Qmult Qminus Qdiv Qeq Qabs Qopp Qinv].
  repeat split; field.
Qed.

Lemma unit_cube_volume (cell : ecl_cell) (x0 y0 z0 : Q) :
  corner_list cell = unit_cube_corners x0 y0 z0 →
  (px (center cell) == x0 + (1 # 2))%Q →
  (py (center cell) == y0 + (1 # 2))%Q →
  (pz (center cell) == z0 + (1 # 2))%Q →
  ∃ v : Q, @ecl_cell_get_volume tetrahedron_model cell = Ok v ∧ (v == 1)%Q.
Proof.
  intros Hc Hx Hy Hz. rewrite ecl_cell_get_volume_unfold.
  eexists. split; [reflexivity|].
  destruct cell as [a ai [cx cy cz] cs l h t]. simpl in Hc, Hx, Hy, Hz. subst cs.
  cbv -[Qplus Qmult Qminus Qdiv Qeq Qabs Qopp Qinv].
  repeat match goal with
         | |- context [Qabs ?e] =>
             let E := fresh in
             assert (E : (Qabs e == 1 # 2)%Q)
               by (apply Qabs_of_square; [rewrite Hx, Hy, Hz; ring | discriminate]);
             rewrite E; clear E
         end.
  reflexivity.
Qed.

Lemma double_unit_cube_volume_origin :
  Double.unit_cube_volume 0 0 0 = Ok 0x1.ffffffffffffcp-1%float.
Proof. vm_compute. reflexivity. Qed.

Lemma double_lattice_volumes_close : Double.lattice_volumes_close = true.
Proof. vm_compute. reflexivity. Qed.

Lemma double_unit_cube_volume_close (x0 y0 z0 : float) :
  x0 ∈ Double.lattice → y0 ∈ Double.lattice → z0 ∈ Double.lattice →
  ∃ v : float,
    Double.unit_cube_volume x0 y0 z0 = Ok v ∧ Double.close_to_one v = true.
Proof.
  intros Hx Hy Hz. pose proof double_lattice_volumes_close as H.
  unfold Double.lattice_volumes_close in H.
  apply list_elem_of_In in Hx, Hy, Hz.
  rewrite forallb_forall in H. specialize (H x0 Hx).
  rewrite forallb_forall in H. specialize (H y0 Hy).
  rewrite forallb_forall in H. specialize (H z0 Hz).
  destruct (Double.unit_cube_volume x0 y0 z0) as [v| |]; [|done|done].
  by exists v.
Qed.

(** In double arithmetic the volume of a unit cube is 1 up to rounding only: for
    the unit cube with its first corner at the origin, the centre at
    (1/2, 1/2, 1/2), and for the one with its first corner at (1, 1, 1), the
    volume computed is 0x1.ffffffffffffcp-1 = 0.9999999999999996: each of
    the 24 tetrahedra has the volume 1/12 rounded, and their sum is rounded
    24 times. *)
Lemma unit_cube_volume_in_doubles_is_not_one :
  (cell ← Double.unit_cube_cell 0 0 0; Ok (Double.center cell))
  = Ok (Double.mk_point 0.5 0.5 0.5) ∧
  Double.unit_cube_volume 0 0 0 = Ok 0x1.ffffffffffffcp-1%float ∧
  Double.unit_cube_volume 0 0 0 ≠ Ok 1%float ∧
  Double.unit_cube_volume 1 1 1 = Ok 0x1.ffffffffffffcp-1%float ∧
  Double.unit_cube_volume 1 1 1 ≠ Ok 1%float.
Proof.
  split; [vm_compute; reflexivity|]. split; [exact double_unit_cube_volume_origin|].
  split; [rewrite double_unit_cube_volume_origin; discriminate|].
  assert (H1 : Double.unit_cube_volume 1 1 1 = Ok 0x1.ffffffffffffcp-1%float)
    by (vm_compute; reflexivity).
  split; [exact H1|]. rewrite H1. discriminate.
Qed.


(** ** Value lookup *)

Lemma count_active_full (cs : list ecl_cell) (m : nat) (c : ecl_cell) :
  count_active cs = Z.of_nat (length cs) → cs !! m = Some c →
  active c = true ∧ count_active (take m cs) = Z.of_nat m.
Proof.
  intros Hfull Hm.
  pose proof (take_drop_middle cs m c Hm) as Hsplit.
  rewrite <- Hsplit in Hfull.
  rewrite count_active_app, length_app in Hfull. simpl in Hfull.
  pose proof (count_active_le_length (take m cs)) as H1.
  pose proof (count_active_le_length (drop (S m) cs)) as H2.
  apply lookup_lt_Some in Hm.
  rewrite length_take in *. destruct (active c); split; try done; lia.
Qed.

Lemma grid_built_maps (g : ecl_grid) :
  grid_built g →
  ∃ cs : list ecl_cell,
    Z.of_nat (length cs) = nx g * ny g * nz g ∧
    total_active g = count_active cs ∧
    index_map g = index_map_entry <$> ranked 0 cs ∧
    inv_index_map g = active_positions 0 cs ∧
    active <$> cells g = active <$> cs.
Proof.
  intros (fill & g0 & g1 & Hwf & Hup & Hnx & Hny & Hnz & Hta & Him & Hinv & Hact).
  rewrite ecl_grid_update_index_result in Hup by done. injection Hup as <-.
  simpl in *. destruct Hwf as (_ & _ & _ & Hs & Hl).
  exists (cells g0). rewrite Hnx, Hny, Hnz, Hl, Hs, Hact, ranked_active. done.
Qed.

(** C3.  On a built grid, for a keyword of a numeric type:
    [ecl_grid_get_property] looks the value up at the global index of
    (i,j,k) when the keyword has nx*ny*nz elements and at the active index
    (giving -1 for an inactive cell) when it has total_active elements; for
    a keyword of any other size it aborts. *)
Theorem get_property_index_by_size (g : ecl_grid) (kw : ecl_kw) (i j k : Z) :
  grid_built g →
  (is_numeric (ecl_kw_get_type kw) = true →
   (ecl_kw_get_size kw = nx g * ny g * nz g →
    ecl_grid_get_property g kw i j k = property_by_global_index g kw i j k) ∧
   (ecl_kw_get_size kw = total_active g →
    ecl_grid_get_property g kw i j k = property_by_active_index g kw i j k)) ∧
  (ecl_kw_get_size kw ≠ nx g * ny g * nz g →
   ecl_kw_get_size kw ≠ total_active g →
   ecl_grid_get_property g kw i j k = Abort).
Proof.
  intros Hb. apply grid_built_maps in Hb as (cs & Hlen & Hta & Him & _ & _).
  assert (Hglob : ecl_kw_get_size kw = nx g * ny g * nz g →
                  is_numeric (ecl_kw_get_type kw) = true →
                  ecl_grid_get_property g kw i j k = property_by_global_index g kw i j k).
  { intros Hsz Hnum. unfold ecl_grid_get_property, property_by_global_index.
    rewrite Hnum. destruct (Z.eqb_spec (ecl_kw_get_size kw) (nx g * ny g * nz g)); [|done].
    unfold ecl_grid_get_global_index3.
    destruct (ecl_grid_ijk_valid g i j k) eqn:Hv; [|done].
    rewrite result_bind_ok. apply ecl_grid_ijk_valid_spec in Hv as (Hi & Hj & Hk).
    destruct (global_index_int_range g i j k (nx g * ny g * nz g)) as (_ & _ & _ & _ & Hr);
      try done; try lia.
    destruct (Z.leb_spec 0 (ecl_grid_get_global_index__ g i j k)); [done|lia]. }
  split; [intros Hnum; split; [by intros; apply Hglob|]|].
  - intros Hsz.
    destruct (Z.eq_dec (ecl_kw_get_size kw) (nx g * ny g * nz g)) as [Heq|Hne].
    + rewrite Hglob by done.
      unfold property_by_global_index, property_by_active_index,
        ecl_grid_get_active_index3, ecl_grid_get_global_index3.
      destruct (ecl_grid_ijk_valid g i j k) eqn:Hv; [|done].
      rewrite !result_bind_ok. apply ecl_grid_ijk_valid_spec in Hv as (Hi & Hj & Hk).
      destruct (global_index_int_range g i j k (nx g * ny g * nz g)) as (_ & _ & _ & _ & Hr);
        try done; try lia.
      set (n := ecl_grid_get_global_index__ g i j k) in *.
      assert (Hfull : count_active cs = Z.of_nat (length cs)) by lia.
      destruct (lookup_lt_is_Some_2 cs (Z.to_nat n)) as [c Hc]; [lia|].
      destruct (count_active_full cs _ c Hfull Hc) as [Hca Hcnt].
      assert (Hget : ecl_grid_get_active_index1 g n = Ok n).
      { unfold ecl_grid_get_active_index1. apply array_get_Ok. split; [lia|].
        rewrite Him, index_map_entry_lookup, Hc. simpl. rewrite Hca, Hcnt.
        f_equal. lia. }
      rewrite Hget, result_bind_ok.
      destruct (Z.leb_spec 0 n); [done|lia].
    + unfold ecl_grid_get_property, property_by_active_index. rewrite Hnum.
      destruct (Z.eqb_spec (ecl_kw_get_size kw) (nx g * ny g * nz g)); [done|].
      destruct (Z.eqb_spec (ecl_kw_get_size kw) (total_active g)); [done|done].
  - intros Hn1 Hn2. unfold ecl_grid_get_property.
    destruct (is_numeric (ecl_kw_get_type kw)); [|done].
    destruct (Z.eqb_spec (ecl_kw_get_size kw) (nx g * ny g * nz g)); [done|].
    destruct (Z.eqb_spec (ecl_kw_get_size kw) (total_active g)); [done|done].
Qed.

(** ** Registration of LGRs *)

Lemma ecl_grid_alloc_empty_fresh st global_grid nx ny nz nr st' r :
  ecl_grid_alloc_empty st global_grid nx ny nz nr = (st', r) →
  st !! r = None ∧
  ∃ g : ecl_grid, st' = <[r := g]> st ∧ grid_nr g = nr ∧
    (nr = 0 → LGR_list g = Some [mk_node r false]).
Proof.
  unfold ecl_grid_alloc_empty. intros Heq.
  destruct (Z.eqb_spec nr 0) as [->|Hne]; injection Heq as <- <-.
  - split; [apply not_elem_of_dom, is_fresh|]. eexists. split; [done|]. by split.
  - split; [apply not_elem_of_dom, is_fresh|]. eexists. split; [done|]. by split.
Qed.

Lemma result_bind_inv {A B} (r : result A) (f : A → result B) (b : B) :
  r ≫= f = Ok b → ∃ a, r = Ok a ∧ f a = Ok b.
Proof. destruct r as [a| |]; [|done|done]. intros H. by exists a. Qed.

Lemma foldM_preserves {A St} (P : St → Prop) (body : A → St → result St)
    (l : list A) (s s' : St) :
  (∀ a s s', P s → body a s = Ok s' → P s') →
  P s → foldM body l s = Ok s' → P s'.
Proof.
  intros Hbody. revert s. induction l as [|a l IH]; intros s Hs Hf.
  - by injection Hf as <-.
  - cbn [foldM] in Hf. destruct (body a s) as [s1| |] eqn:Hb; [|done|done].
    apply (IH s1); [by eapply Hbody|done].
Qed.

Lemma lgr_list_registered_update main_grid regs st r g g' :
  st !! r = Some g → grid_nr g' = grid_nr g → LGR_list g' = LGR_list g →
  lgr_list_registered main_grid regs st →
  lgr_list_registered main_grid regs (<[r := g']> st).
Proof.
  intros Hr Hnr Hl (main & Hm & Hm0 & Hlist & Hall).
  assert (Hlk : ∀ (h : grid_ref) (x : ecl_grid), st !! h = Some x →
            ∃ x', <[r := g']> st !! h = Some x' ∧ grid_nr x' = grid_nr x ∧
                  LGR_list x' = LGR_list x).
  { intros h x Hx. destruct (decide (r = h)) as [->|Hne].
    - rewrite lookup_insert_eq. exists g'. rewrite Hr in Hx. injection Hx as <-. done.
    - rewrite lookup_insert_ne by done. by exists x. }
  destruct (Hlk _ _ Hm) as (main' & Hm' & Hnr' & Hl').
  exists main'. split; [done|]. split; [congruence|]. split; [congruence|].
  intros n h Hn. destruct (Hall n h Hn) as (x & Hx & Hxn).
  destruct (Hlk _ _ Hx) as (x' & Hx' & Hnr'' & _).
  exists x'. split; [done|congruence].
Qed.

Lemma lgr_list_registered_alloc main_grid regs st r g :
  st !! r = None →
  lgr_list_registered main_grid regs st →
  lgr_list_registered main_grid regs (<[r := g]> st).
Proof.
  intros Hr (main & Hm & Hm0 & Hlist & Hall).
  exists main. split; [|split; [done|split; [done|]]].
  - rewrite lookup_insert_ne; [done|]. intros ->. congruence.
  - intros n h Hn. destruct (Hall n h Hn) as (x & Hx & Hxn).
    exists x. split; [|done].
    rewrite lookup_insert_ne; [done|]. intros ->. congruence.
Qed.

Lemma ecl_grid_add_lgr_Ok st main_grid lgr_grid st' :
  ecl_grid_add_lgr st main_grid lgr_grid = Ok st' →
  ∃ (main lgr : ecl_grid) (l : list vector_node) (hash : gmap string grid_ref)
    (key : string),
    st !! main_grid = Some main ∧ st !! lgr_grid = Some lgr ∧
    LGR_list main = Some l ∧ LGR_hash main = Some hash ∧ name lgr = Some key ∧
    grid_nr lgr = Z.of_nat (length l) ∧
    st' = <[main_grid := grid_set_LGR main (Some (l ++ [mk_node lgr_grid true]))
                                      (Some (<[key := lgr_grid]> hash))]> st.
Proof.
  unfold ecl_grid_add_lgr, deref, non_null. intros Hadd.
  destruct (st !! main_grid) as [main|] eqn:Hm; [|done].
  destruct (st !! lgr_grid) as [lgr|] eqn:Hl; [|done].
  simpl in Hadd. destruct (LGR_list main) as [l|] eqn:Hlist; [|done].
  simpl in Hadd. destruct (Z.eqb_spec (Z.of_nat (length l)) (grid_nr lgr)); [|done].
  simpl in Hadd. destruct (LGR_hash main) as [h|] eqn:Hh; [|done].
  destruct (name lgr) as [key|] eqn:Hk; [|done]. simpl in Hadd. injection Hadd as <-.
  exists main, lgr, l, h, key. done.
Qed.

Lemma lgr_list_registered_add main_grid regs st lgr_grid st' :
  ecl_grid_add_lgr st main_grid lgr_grid = Ok st' →
  lgr_list_registered main_grid regs st →
  lgr_list_registered main_grid (regs ++ [lgr_grid]) st'.
Proof.
  intros Hadd (main & Hm & Hm0 & Hlist & Hall).
  apply ecl_grid_add_lgr_Ok in Hadd
    as (main' & lgr & l & h & key & Hm' & Hlgr & Hlist' & _ & _ & Hnr & ->).
  rewrite Hm in Hm'. injection Hm' as <-.
  rewrite Hlist in Hlist'. injection Hlist' as <-.
  set (main' := grid_set_LGR main _ _).
  assert (Hlk : ∀ (r : grid_ref) (x : ecl_grid), st !! r = Some x →
            ∃ x', <[main_grid := main']> st !! r = Some x' ∧ grid_nr x' = grid_nr x).
  { intros r x Hx. destruct (decide (main_grid = r)) as [<-|Hne].
    - rewrite lookup_insert_eq. exists main'. rewrite Hm in Hx. by injection Hx as <-.
    - rewrite lookup_insert_ne by done. by exists x. }
  exists main'. split; [by rewrite lookup_insert_eq|]. split; [done|].
  split; [by rewrite fmap_app|].
  intros n r Hn. apply lookup_app_Some in Hn as [Hn|[Hge Hn]].
  - destruct (Hall n r Hn) as (x & Hx & Hxn).
    destruct (Hlk _ _ Hx) as (x' & Hx' & Hnr'). exists x'. split; [done|congruence].
  - apply list_lookup_singleton_Some in Hn as [Hn <-].
    destruct (Hlk _ _ Hlgr) as (x' & Hx' & Hnr').
    exists x'. split; [done|]. rewrite Hnr', Hnr. simpl. rewrite length_fmap. lia.
Qed.

Lemma lgr_list_registered_set_cell main_grid regs st r index cell st' :
  store_set_cell st r index cell = Ok st' →
  lgr_list_registered main_grid regs st → lgr_list_registered main_grid regs st'.
Proof.
  unfold store_set_cell, deref. intros Hs.
  destruct (st !! r) as [g|] eqn:Hr; [|done]. simpl in Hs.
  destruct (array_set (cells g) index cell) as [cs| |]; [|done|done].
  injection Hs as <-. by apply (lgr_list_registered_update main_grid regs st r g).
Qed.

Lemma lgr_list_registered_install_EGRID main_grid regs st host_grid lgr_grid hostnum st' :
  ecl_grid_install_lgr_EGRID st host_grid lgr_grid hostnum = Ok st' →
  lgr_list_registered main_grid regs st → lgr_list_registered main_grid regs st'.
Proof.
  unfold ecl_grid_install_lgr_EGRID, for_loop. intros Hi Hok.
  destruct (deref st lgr_grid) as [lgr0| |]; [|done|done]. simpl in Hi.
  destruct (foldM _ _ st) as [st1| |] eqn:Hloop; [|done|done]. simpl in Hi.
  assert (Hok1 : lgr_list_registered main_grid regs st1).
  { refine (foldM_preserves (lgr_list_registered main_grid regs) _ _ st st1 _ Hok Hloop).
    clear. intros index s s' Hs Hb. unfold deref in Hb.
    destruct (s !! lgr_grid) as [lgr|]; [|done]. simpl in Hb.
    destruct (array_get (cells lgr) index) as [lgr_cell| |]; [|done|done].
    simpl in Hb. destruct (active lgr_cell); [|by injection Hb as <-].
    destruct (s !! host_grid) as [host|]; [|done]. simpl in Hb.
    destruct (array_get hostnum index) as [h| |]; [|done|done]. simpl in Hb.
    destruct (array_get (cells host) h) as [hc| |]; [|done|done]. simpl in Hb.
    destruct (store_set_cell s host_grid h _) as [s1| |] eqn:H1; [|done|done].
    simpl in Hb.
    apply lgr_list_registered_set_cell with (main_grid := main_grid) (regs := regs) in H1;
      [|done].
    destruct (s1 !! lgr_grid) as [lgr'|]; [|done]. simpl in Hb.
    destruct (array_get (cells lgr') index) as [lgr_cell'| |]; [|done|done].
    simpl in Hb. by eapply lgr_list_registered_set_cell. }
  unfold deref in Hi.
  destruct (st1 !! host_grid) as [host|] eqn:Hh; [|done]. simpl in Hi.
  destruct (st1 !! lgr_grid) as [lgr|] eqn:Hl; [|done]. simpl in Hi.
  destruct (name lgr) as [key|]; [|done]. simpl in Hi.
  destruct (<[host_grid := _]> st1 !! lgr_grid) as [lgr'|] eqn:Hl'; [|done].
  simpl in Hi. injection Hi as <-.
  apply (lgr_list_registered_update main_grid regs _ lgr_grid lgr'); try done.
  by apply (lgr_list_registered_update main_grid regs st1 host_grid host).
Qed.

Lemma lgr_list_registered_install_GRID main_grid regs st host_grid lgr_grid st' :
  ecl_grid_install_lgr_GRID st host_grid lgr_grid = Ok st' →
  lgr_list_registered main_grid regs st → lgr_list_registered main_grid regs st'.
Proof.
  unfold ecl_grid_install_lgr_GRID, for_loop. intros Hi Hok.
  destruct (deref st lgr_grid) as [lgr0| |]; [|done|done]. simpl in Hi.
  refine (foldM_preserves (lgr_list_registered main_grid regs) _ _ st st' _ Hok Hi).
  clear. intros index s s' Hs Hb. unfold deref in Hb.
  destruct (s !! lgr_grid) as [lgr|]; [|done]. simpl in Hb.
  destruct (array_get (cells lgr) index) as [lgr_cell| |]; [|done|done].
  simpl in Hb. destruct (active lgr_cell); [|by injection Hb as <-].
  destruct (s !! host_grid) as [host|]; [|done]. simpl in Hb.
  destruct (array_get (cells host) (host_cell lgr_cell)) as [hc| |]; [|done|done].
  simpl in Hb. by eapply lgr_list_registered_set_cell.
Qed.

(** The functions that fill a grid leave its number and its LGR list as
    they are. *)
Lemma ecl_grid_set_cell_EGRID_registration g i j k x y z actnum g' :
  ecl_grid_set_cell_EGRID g i j k x y z actnum = Ok g' →
  grid_nr g' = grid_nr g ∧ LGR_list g' = LGR_list g.
Proof.
  unfold ecl_grid_set_cell_EGRID. cbn zeta. intros H.
  apply result_bind_inv in H as (cell & _ & H).
  apply result_bind_inv in H as (a & _ & H).
  apply result_bind_inv in H as (cs & _ & H).
  by injection H as <-.
Qed.

Lemma ecl_grid_init_GRDECL_data_registration g j1 j2 zcorn coord actnum g' :
  ecl_grid_init_GRDECL_data__ g j1 j2 zcorn coord actnum = Ok g' →
  grid_nr g' = grid_nr g ∧ LGR_list g' = LGR_list g.
Proof.
  unfold ecl_grid_init_GRDECL_data__, for_loop. cbn zeta.
  set (P := λ s : ecl_grid, grid_nr s = grid_nr g ∧ LGR_list s = LGR_list g).
  intros H. refine (foldM_preserves P _ _ g g' _ _ H); [|done].
  clear H. intros j s s' Hs H.
  refine (foldM_preserves P _ _ s s' _ Hs H).
  clear H Hs s s'. intros i s s' Hs H.
  apply result_bind_inv in H as (pillars & _ & H).
  refine (foldM_preserves P _ _ s s' _ Hs H).
  clear H Hs s s'. intros k s s' (Hs1 & Hs2) H.
  apply result_bind_inv in H as (z & _ & H).
  destruct (pillars_cross_planes pillars z) as [x y].
  apply ecl_grid_set_cell_EGRID_registration in H as (H1 & H2).
  split; congruence.
Qed.

Lemma ecl_grid_set_cell_GRID_registration g coords corners g' :
  ecl_grid_set_cell_GRID g coords corners = Ok g' →
  grid_nr g' = grid_nr g ∧ LGR_list g' = LGR_list g.
Proof.
  unfold ecl_grid_set_cell_GRID. cbn zeta. intros H.
  apply result_bind_inv in H as (i & _ & H).
  apply result_bind_inv in H as (j & _ & H).
  apply result_bind_inv in H as (k & _ & H).
  apply result_bind_inv in H as (cell & _ & H).
  apply result_bind_inv in H as (cell1 & _ & H).
  apply result_bind_inv in H as (cell2 & _ & H).
  apply result_bind_inv in H as (cs & _ & H).
  by injection H as <-.
Qed.

Lemma grid_filling_registration g g' :
  grid_filling g g' → grid_nr g' = grid_nr g ∧ LGR_list g' = LGR_list g.
Proof.
  intros [g0 j1 j2 zcorn coord actnum g1 H | g0 coords corners g1 H | g0 g1 H
         | fill g0 g1 H | g0 g1 H | g0 nm pn].
  - by eapply ecl_grid_init_GRDECL_data_registration.
  - by eapply ecl_grid_set_cell_GRID_registration.
  - unfold ecl_grid_set_center in H.
    apply result_bind_inv in H as (cs & _ & H). by injection H as <-.
  - unfold ecl_grid_update_index in H.
    apply result_bind_inv in H as (g2 & H2 & H).
    unfold ecl_grid_set_active_index in H2.
    apply result_bind_inv in H2 as ([cs ai] & _ & H2). injection H2 as <-.
    unfold ecl_grid_realloc_index_map in H. cbn zeta in H.
    apply result_bind_inv in H as ([im inv] & _ & H). by injection H as <-.
  - unfold ecl_grid_taint_cells in H.
    apply result_bind_inv in H as (cs & _ & H). by injection H as <-.
  - done.
Qed.

Lemma lgr_building_registered main_grid regs st :
  lgr_building main_grid regs st → lgr_list_registered main_grid regs st.
Proof.
  intros Hb. induction Hb as
    [st nx ny nz st' Ha | regs st nx ny nz nr st' r Hb IH Ha
    | regs st r g g' Hb IH Hr Hf
    | regs st r nm st' Hb IH Hn | regs st r st' Hb IH Ha
    | regs st h r hn st' Hb IH Hi | regs st h r st' Hb IH Hi].
  - apply ecl_grid_alloc_empty_fresh in Ha as (Hfresh & g & -> & Hnr & Hl).
    exists g. split; [by rewrite lookup_insert_eq|]. split; [done|].
    split; [by apply Hl|]. intros n r Hn. by rewrite lookup_nil in Hn.
  - apply ecl_grid_alloc_empty_fresh in Ha as (Hfresh & g & -> & _).
    by apply lgr_list_registered_alloc.
  - destruct (grid_filling_registration g g' Hf) as (Hnr & Hl).
    by apply (lgr_list_registered_update main_grid regs st r g).
  - unfold ecl_grid_set_lgr_name, deref in Hn.
    destruct (st !! r) as [lgr|] eqn:Hr; [|done]. simpl in Hn. injection Hn as <-.
    by apply (lgr_list_registered_update main_grid regs st r lgr).
  - by eapply lgr_list_registered_add.
  - by eapply lgr_list_registered_install_EGRID.
  - by eapply lgr_list_registered_install_GRID.
Qed.

Lemma lgr_list_registered_ok main_grid regs st :
  lgr_list_registered main_grid regs st → lgr_list_ok main_grid st.
Proof.
  intros (main & Hm & Hm0 & Hlist & Hall).
  exists main, (mk_node main_grid false :: ((λ r, mk_node r true) <$> regs)).
  split; [done|]. split; [done|]. split; [done|].
  intros [|n] node Hn.
  - injection Hn as <-. split; [lia|]. exists main. by split.
  - simpl in Hn. rewrite list_lookup_fmap in Hn.
    destruct (regs !! n) as [r|] eqn:Hr; [|done]. injection Hn as <-.
    split; [done|]. destruct (Hall n r Hr) as (g & Hg & Hnr). by exists g.
Qed.

(** C9.  [ecl_grid_add_lgr] aborts exactly when the [grid_nr] of the grid
    to add differs from the current length of the LGR list of the main grid.
    When it returns, the grid has been added as the last node of the list,
    owned, at the position [grid_nr], and under its name in the table of the
    main grid, nothing else being changed.  In every state a loader reaches
    (the main grid and further grids are allocated, filled, indexed and
    named, grids are registered with success, LGRs are installed in their
    hosts) the list is the main grid itself, as a node it does not own at
    position 0, followed by the LGRs registered, in the order of their
    registration and as nodes it owns, and the grid at position n has
    [grid_nr] n. *)
Theorem add_lgr_abort_and_grid_nr_position :
  (∀ (st : gmap grid_ref ecl_grid) (main_grid lgr_grid : grid_ref)
     (main lgr : ecl_grid) (l : list vector_node),
     st !! main_grid = Some main → st !! lgr_grid = Some lgr →
     LGR_list main = Some l →
     (ecl_grid_add_lgr st main_grid lgr_grid = Abort ↔
      grid_nr lgr ≠ Z.of_nat (length l))) ∧
  (∀ (st st' : gmap grid_ref ecl_grid) (main_grid lgr_grid : grid_ref),
     ecl_grid_add_lgr st main_grid lgr_grid = Ok st' →
     ∃ (main lgr : ecl_grid) (l : list vector_node) (hash : gmap string grid_ref)
       (key : string),
       st !! main_grid = Some main ∧ st !! lgr_grid = Some lgr ∧
       LGR_list main = Some l ∧ LGR_hash main = Some hash ∧ name lgr = Some key ∧
       grid_nr lgr = Z.of_nat (length l) ∧
       (l ++ [mk_node lgr_grid true]) !! Z.to_nat (grid_nr lgr)
       = Some (mk_node lgr_grid true) ∧
       st' = <[main_grid := grid_set_LGR main (Some (l ++ [mk_node lgr_grid true]))
                                         (Some (<[key := lgr_grid]> hash))]> st) ∧
  (∀ (main_grid : grid_ref) (regs : list grid_ref) (st : gmap grid_ref ecl_grid),
     lgr_building main_grid regs st →
     lgr_list_registered main_grid regs st ∧ lgr_list_ok main_grid st).
Proof.
  split; [|split].
  - intros st main_grid lgr_grid main lgr l Hm Hl Hlist.
    unfold ecl_grid_add_lgr, deref. rewrite Hm, Hl. simpl. rewrite Hlist. simpl.
    destruct (Z.eqb_spec (Z.of_nat (length l)) (grid_nr lgr)) as [Heq|Hne]; simpl.
    + split; [|lia]. destruct (LGR_hash main); [|done]. by destruct (name lgr).
    + split; [lia|done].
  - intros st st' main_grid lgr_grid Hadd.
    apply ecl_grid_add_lgr_Ok in Hadd
      as (main & lgr & l & hash & key & Hm & Hl & Hlist & Hhash & Hname & Hnr & ->).
    exists main, lgr, l, hash, key. repeat (split; [done|]).
    split; [|done]. rewrite Hnr, Nat2Z.id. apply list_lookup_middle. done.
  - intros main_grid regs st Hb.
    pose proof (lgr_building_registered main_grid regs st Hb) as Hreg.
    split; [done|]. by eapply lgr_list_registered_ok.
Qed.

(** The builder of a grid from ZCORN, COORD and ACTNUM goes through the
    states of a loader, for the main grid and for a further grid. *)
Lemma lgr_building_fill_again main_grid regs st r g g' :
  lgr_building main_grid regs (<[r := g]> st) → grid_filling g g' →
  lgr_building main_grid regs (<[r := g']> st).
Proof.
  intros Hb Hf.
  replace (<[r := g']> st) with (<[r := g']> (<[r := g]> st))
    by apply insert_insert_eq.
  apply (building_fill main_grid regs _ r g g'); [done| |done].
  by rewrite lookup_insert_eq.
Qed.

Lemma GRDECL_data_fill_building main_grid regs fill st r ny zcorn coord actnum st' r' :
  lgr_building main_grid regs st →
  (g ← deref st r;
   g ← ecl_grid_init_GRDECL_data__ g 0 ny zcorn coord actnum;
   g ← ecl_grid_set_center g;
   g ← ecl_grid_update_index fill g;
   g ← ecl_grid_taint_cells g;
   Ok (<[r := g]> st, r)) = Ok (st', r') →
  lgr_building main_grid regs st'.
Proof.
  intros Hb H.
  apply result_bind_inv in H as (g0 & H0 & H).
  apply result_bind_inv in H as (g1 & H1 & H).
  apply result_bind_inv in H as (g2 & H2 & H).
  apply result_bind_inv in H as (g3 & H3 & H).
  apply result_bind_inv in H as (g4 & H4 & H).
  injection H as <- <-.
  unfold deref in H0. destruct (st !! r) as [g|] eqn:Hr; [|done]. injection H0 as ->.
  apply (lgr_building_fill_again main_grid regs st r g3); [|by eapply filling_taint_cells].
  apply (lgr_building_fill_again main_grid regs st r g2); [|by eapply filling_update_index].
  apply (lgr_building_fill_again main_grid regs st r g1); [|by eapply filling_set_center].
  apply (building_fill main_grid regs st r g0); [done|done|].
  by eapply filling_GRDECL.
Qed.

Lemma alloc_GRDECL_data_building_main fill st nx0 ny0 nz0 zcorn coord actnum st' r :
  ecl_grid_alloc_GRDECL_data__ fill st None nx0 ny0 nz0 zcorn coord actnum 0
  = Ok (st', r) →
  lgr_building r [] st'.
Proof.
  unfold ecl_grid_alloc_GRDECL_data__.
  destruct (ecl_grid_alloc_empty st None nx0 ny0 nz0 0) as [st0 r0] eqn:Ha.
  intros H.
  assert (r = r0) as ->.
  { repeat (apply result_bind_inv in H as (? & _ & H)). by injection H. }
  apply (GRDECL_data_fill_building r0 [] fill st0 r0 ny0 zcorn coord actnum st' r0);
    [|done].
  by apply (building_main r0 st nx0 ny0 nz0).
Qed.

Lemma alloc_GRDECL_data_building_lgr main_grid regs fill st nx0 ny0 nz0 zcorn coord
    actnum nr st' r :
  lgr_building main_grid regs st →
  ecl_grid_alloc_GRDECL_data__ fill st (Some main_grid) nx0 ny0 nz0 zcorn coord actnum nr
  = Ok (st', r) →
  lgr_building main_grid regs st'.
Proof.
  unfold ecl_grid_alloc_GRDECL_data__. intros Hb.
  destruct (ecl_grid_alloc_empty st (Some main_grid) nx0 ny0 nz0 nr) as [st0 r0] eqn:Ha.
  apply GRDECL_data_fill_building.
  by apply (building_alloc main_grid regs st nx0 ny0 nz0 nr st0 r0).
Qed.

(** ** Installation of an LGR in its host grid *)

(** C4.  With the host-cell map [1] (the first host cell in the numbering
    from 1), [ecl_grid_install_lgr_EGRID] sets the [lgr] reference of the
    host cell of index 1, not of index 0 = 1 - 1, while it stores 0 as
    [host_cell] of the LGR cell: the two do not designate the same host
    cell.  [ecl_grid_install_lgr_GRID], given that [host_cell], sets the
    reference of the host cell of index 0. *)
Theorem install_lgr_EGRID_host_index_not_decremented :
  result_map (λ st, (cell_lgrs st 0%nat, cell_host_cells st 1%nat))
             (ecl_grid_install_lgr_EGRID lgr_example_store 0%nat 1%nat [1])
  = Ok (Some [None; Some 1%nat], Some [0]) ∧
  result_map (λ st, cell_lgrs st 0%nat)
    (st ← store_set_cell lgr_example_store 1%nat 0
            (cell_set_host_cell (cell_set_active ecl_cell_alloc true) 0);
     ecl_grid_install_lgr_GRID st 0%nat 1%nat)
  = Ok (Some [Some 1%nat; None]).
Proof. split; vm_compute; reflexivity. Qed.

(** ** Point location *)

(** C5.  On the regular grid of 4 x 3 x 1 unit cubes, for the point
    (9/2, 2, 3/2) on the face shared by the cells (3,0,0) and (3,1,0) and the
    start index 10 = (2,2,0): the cell (3,1,0), of index 7, contains the
    point and lies in the 3x3x3 neighbourhood of the start cell, and a scan
    of that neighbourhood (the box [1,4) x [1,3) x [0,1)) finds it; yet
    [ecl_grid_get_global_index_from_xyz] returns 3, the cell (3,0,0), which
    is two rows away from the start cell: the first box it scans is
    [i-1,i] x [j-1,j] x [k-1,k], the upper bounds i+1, j+1, k+1 being
    exclusive. *)
Theorem locate_first_box_excludes_upper_neighbours :
  let g := regular_grid 4 3 1 in
  result_map snd
    (@ecl_grid_get_global_index_from_xyz tetrahedron_model g (9 # 2) 2 (3 # 2) 10)
  = Ok 3 ∧
  @ecl_grid_cell_contains_xyz1 tetrahedron_model g 7 (9 # 2) 2 (3 # 2) = Ok true ∧
  @ecl_grid_cell_contains_xyz1 tetrahedron_model g 3 (9 # 2) 2 (3 # 2) = Ok true ∧
  ecl_grid_get_ijk1 g 10 = Ok (2, 2, 0) ∧
  ecl_grid_get_ijk1 g 7 = Ok (3, 1, 0) ∧
  ecl_grid_get_ijk1 g 3 = Ok (3, 0, 0) ∧
  result_map snd
    (@ecl_grid_box_contains_xyz tetrahedron_model g (replicate 12 false)
       1 4 1 3 0 1 (mk_point (9 # 2) 2 (3 # 2)))
  = Ok 7.
Proof. repeat split; vm_compute; reflexivity. Qed.

(** ** Cells without volume *)

Lemma Qltb_irrefl (x : Q) : Qltb x x = false.
Proof. apply Qltb_false, Qle_refl. Qed.

Lemma Qgtb_irrefl (x : Q) : Qgtb x x = false.
Proof. apply Qgtb_false, Qle_refl. Qed.

Lemma point_cell_volume (q : point) :
  ∃ v : Q, @ecl_cell_get_volume tetrahedron_model (point_cell q) = Ok v ∧ (v == 0)%Q.
Proof.
  rewrite ecl_cell_get_volume_unfold. eexists. split; [reflexivity|].
  destruct q as [x y z].
  cbv -[Qplus Qmult Qminus Qdiv Qeq Qabs Qopp Qinv].
  repeat match goal with
         | |- context [Qabs ?e] =>
             let E := fresh in
             assert (E : (Qabs e == 0)%Q)
               by (apply Qabs_of_square; [ring | discriminate]);
             rewrite E; clear E
         end.
  reflexivity.
Qed.

Lemma point_cell_bounding_box (q : point) :
  (ecl_cell_min_z (point_cell q) <= pz q)%Q ∧ (pz q <= ecl_cell_max_z (point_cell q))%Q ∧
  (ecl_cell_min_x (point_cell q) <= px q)%Q ∧ (px q <= ecl_cell_max_x (point_cell q))%Q ∧
  (ecl_cell_min_y (point_cell q) <= py q)%Q ∧ (py q <= ecl_cell_max_y (point_cell q))%Q.
Proof.
  unfold ecl_cell_min_z, ecl_cell_max_z, ecl_cell_min_x, ecl_cell_max_x,
    ecl_cell_min_y, ecl_cell_max_y, min8, max8, min4, max4, min2, max2.
  cbn [point_cell cell_corner corner corner_list
       cnr0 cnr1 cnr2 cnr3 cnr4 cnr5 cnr6 cnr7].
  rewrite ?Qltb_irrefl, ?Qgtb_irrefl. repeat split; apply Qle_refl.
Qed.

Lemma taint_corner_point_cell (q : point) (c : Z) :
  at_origin_xy q = false → taint_corner (point_cell q) c = point_cell q.
Proof.
  intros Hq. unfold taint_corner, cell_corner, point_cell, corner. simpl.
  by destruct c as [|[[[]|[]|]|[[]|[]|]|]|]; simpl; rewrite Hq.
Qed.

Lemma taint_point_cell (q : point) :
  at_origin_xy q = false → ecl_cell_taint_cell (point_cell q) = point_cell q.
Proof.
  intros Hq. unfold ecl_cell_taint_cell.
  induction (seqZ 0 8) as [|c l IH]; [done|].
  cbn [foldl]. by rewrite taint_corner_point_cell.
Qed.

(** C10.  For a cell that is not tainted, a point inside its bounding box
    and a computed volume that is not strictly positive, the point-in-cell
    test reaches [util_abort]: it returns neither true nor false, also
    through [ecl_grid_cell_contains_xyz1].  With the volume of a tetrahedron
    as modelled, a cell whose eight corners and centre are one point q with
    (x, y) different from (0, 0) is such a cell (the scan leaves it
    untainted), and q is such a point. *)
Theorem contains_point_aborts_without_volume :
  (∀ (lib : tetrahedron_lib) (cell : ecl_cell) (p : point) (v : Q),
     tainted_geometry cell = false →
     (ecl_cell_min_z cell <= pz p)%Q → (pz p <= ecl_cell_max_z cell)%Q →
     (ecl_cell_min_x cell <= px p)%Q → (px p <= ecl_cell_max_x cell)%Q →
     (ecl_cell_min_y cell <= py p)%Q → (py p <= ecl_cell_max_y cell)%Q →
     ecl_cell_get_volume cell = Ok v → ¬ (0 < v)%Q →
     ecl_cell_contains_point cell p = Abort ∧
     ∀ (g : ecl_grid) (global_index : Z),
       array_get (cells g) global_index = Ok cell →
       ecl_grid_cell_contains_xyz1 g global_index (px p) (py p) (pz p) = Abort) ∧
  (∀ q : point,
     at_origin_xy q = false →
     tainted_geometry (ecl_cell_taint_cell (point_cell q)) = false ∧
     @ecl_cell_contains_point tetrahedron_model (ecl_cell_taint_cell (point_cell q)) q
     = Abort).
Proof.
  split.
  - intros lib cell p v. apply contains_point_abort_generic.
  - intros q Hq. rewrite taint_point_cell by done. split; [done|].
    destruct (point_cell_volume q) as (v & Hv & H0).
    destruct (point_cell_bounding_box q) as (Hz1 & Hz2 & Hx1 & Hx2 & Hy1 & Hy2).
    apply (@contains_point_abort_generic tetrahedron_model (point_cell q) q v);
      try done.
    rewrite H0. discriminate.
Qed.

(** ** The fuel of the two [while (true)] loops *)

Section Fuel.
Context `{tetrahedron_lib}.

Lemma init_tetrahedron_scheme (cell : ecl_cell) (m n : nat) (t : tetrahedron) :
  scheme_tetrahedra cell m !! n = Some t →
  ecl_cell_init_tetrahedron cell (Z.of_nat m) (Z.of_nat n) = Ok t.
Proof.
  unfold scheme_tetrahedra, ecl_cell_init_tetrahedron, array_get.
  destruct (Z.ltb_spec (Z.of_nat m) 0); [lia|].
  destruct (Z.ltb_spec (Z.of_nat n) 0); [lia|].
  rewrite !Nat2Z.id, list_lookup_fmap.
  destruct (tetrahedron_permutations !! m) as [row|]; [|done]. simpl.
  destruct (row !! n) as [[[a b] c]|]; [|done]. simpl. by intros [= <-].
Qed.

Lemma contains_point_loop_from (fuel : nat) (cell : ecl_cell) (p : point) (nr : nat) :
  (nr < 12)%nat → (12 - nr - 1 <= fuel)%nat →
  contains_point_loop fuel cell p (Z.of_nat nr)
  = Ok (existsb (λ t, tetrahedron_contains t p)
                (drop nr (scheme_tetrahedra cell 0))).
Proof.
  revert nr. induction fuel as [|fuel IH]; intros nr Hnr Hf.
  - assert (nr = 11)%nat as -> by lia.
    cbn [contains_point_loop].
    pose proof (init_tetrahedron_scheme cell 0 11 _ eq_refl) as Hi.
    change (Z.of_nat 0) with 0 in Hi. rewrite Hi, result_bind_ok.
    cbn [drop scheme_tetrahedra]. simpl existsb.
    destruct (tetrahedron_contains _ p); reflexivity.
  - destruct (lookup_lt_is_Some_2 (scheme_tetrahedra cell 0) nr) as [t Ht];
      [by rewrite (proj1 (scheme_tetrahedra_length cell))|].
    cbn [contains_point_loop].
    pose proof (init_tetrahedron_scheme cell 0 nr t Ht) as Hi.
    change (Z.of_nat 0) with 0 in Hi. rewrite Hi, result_bind_ok.
    pose proof (proj1 (scheme_tetrahedra_length cell)) as Hlen.
    specialize (IH (S nr)).
    set (l := scheme_tetrahedra cell 0) in *. clearbody l.
    rewrite (drop_S l t nr Ht).
    change (existsb (λ t, tetrahedron_contains t p) (t :: drop (S nr) l))
      with (tetrahedron_contains t p
            || existsb (λ t, tetrahedron_contains t p) (drop (S nr) l)).
    destruct (tetrahedron_contains t p); [done|].
    change (false || ?b) with b.
    destruct (Z.eqb_spec (Z.of_nat nr + 1) 12) as [Heq|Hne].
    + rewrite (drop_ge l (S nr)) by lia. done.
    + replace (Z.of_nat nr + 1) with (Z.of_nat (S nr)) by lia.
      apply IH; lia.
Qed.

Lemma contains_point_loop_fuel (cell : ecl_cell) (p : point) :
  contains_point_loop 12 cell p 0
  = Ok (existsb (λ t, tetrahedron_contains t p) (scheme_tetrahedra cell 0)).
Proof. apply (contains_point_loop_from 12 cell p 0); lia. Qed.

Lemma linear_scan_from (fuel : nat) (g : ecl_grid) (p : point) (start_index index : Z) :
  0 <= index < size g → (Z.to_nat (size g - index - 1) <= fuel)%nat →
  linear_scan fuel g p start_index index
  = scan_cells g p ((λ index, Z.rem (index + start_index) (size g))
                      <$> seqZ index (size g - index)).
Proof.
  revert index. induction fuel as [|fuel IH]; intros index Hi Hf.
  - assert (size g = index + 1) as Hs by lia.
    rewrite seqZ_cons by lia. rewrite seqZ_nil by lia.
    cbn [linear_scan fmap list_fmap scan_cells]. unfold int_rem.
    destruct (Z.eqb_spec (size g) 0); [lia|]. rewrite result_bind_ok.
    destruct (array_get (cells g) _) as [cell| |]; [|done|done]. simpl.
    destruct (ecl_cell_contains_point cell p) as [[|]| |]; try done. simpl.
    destruct (Z.eqb_spec (index + 1) (size g)); [done|lia].
  - rewrite seqZ_cons by lia.
    cbn [linear_scan fmap list_fmap scan_cells]. unfold int_rem.
    destruct (Z.eqb_spec (size g) 0); [lia|]. rewrite result_bind_ok.
    destruct (array_get (cells g) _) as [cell| |]; [|done|done]. simpl.
    destruct (ecl_cell_contains_point cell p) as [[|]| |]; try done. simpl.
    destruct (Z.eqb_spec (index + 1) (size g)) as [Heq|Hne].
    + rewrite seqZ_nil by lia. done.
    + rewrite IH by lia. do 3 f_equal; lia.
Qed.

Lemma linear_scan_fuel (g : ecl_grid) (p : point) (start_index : Z) :
  0 < size g →
  linear_scan (Z.to_nat (size g)) g p start_index 0
  = scan_cells g p ((λ index, Z.rem (index + start_index) (size g))
                      <$> seqZ 0 (size g)).
Proof.
  intros Hs. rewrite linear_scan_from by lia. by rewrite Z.sub_0_r.
Qed.

End Fuel.

(** ** The cells of a new grid are not tainted *)

Lemma ranked_tainted (ai : Z) (cs : list ecl_cell) :
  tainted_geometry <$> ranked ai cs = tainted_geometry <$> cs.
Proof.
  revert ai. induction cs as [|c cs IH]; intros ai; simpl; [done|].
  destruct (active c); simpl; by rewrite IH.
Qed.

Lemma alloc_empty_untainted st global_grid nx ny nz nr st' r (g : ecl_grid) (c : ecl_cell) :
  ecl_grid_alloc_empty st global_grid nx ny nz nr = (st', r) →
  st' !! r = Some g → c ∈ cells g → tainted_geometry c = false.
Proof.
  unfold ecl_grid_alloc_empty.
  destruct (nr =? 0); intros [= <- <-]; rewrite lookup_insert_eq; intros [= <-];
    simpl; intros Hc; apply elem_of_replicate in Hc as [-> _]; reflexivity.
Qed.

Lemma update_index_untainted (fill : Z) (g g' : ecl_grid) :
  grid_wf g → ecl_grid_update_index fill g = Ok g' →
  (∀ c, c ∈ cells g → tainted_geometry c = false) →
  ∀ c, c ∈ cells g' → tainted_geometry c = false.
Proof.
  intros Hwf Hup Hun c Hc. rewrite ecl_grid_update_index_result in Hup by done.
  injection Hup as <-. simpl in Hc.
  assert (Hin : tainted_geometry c ∈ tainted_geometry <$> ranked 0 (cells g))
    by (apply list_elem_of_fmap; eauto).
  rewrite ranked_tainted in Hin. apply list_elem_of_fmap in Hin as (c0 & -> & Hc0).
  by apply Hun.
Qed.

(** * Instances of the theorems on concrete grids *)

Lemma index_example_grid_wf : grid_wf index_example_grid.
Proof. repeat split; vm_compute; congruence. Defined.

Lemma update_index_rank_and_maps_witness :
  grid_wf index_example_grid ∧
  ∃ g' : ecl_grid,
    ecl_grid_update_index 0 index_example_grid = Ok g' ∧
    total_active g' = 3 ∧ index_map g' = [0; -1; 1; 2] ∧
    inv_index_map g' = [0; 2; 3] ∧
    active_index <$> cells g' = [0; -1; 1; 2].
Proof.
  split; [exact index_example_grid_wf|].
  destruct (update_index_rank_and_maps 0 index_example_grid index_example_grid_wf)
    as (g' & Hg & _).
  exists g'. split; [exact Hg|].
  vm_compute in Hg. injection Hg as <-. repeat split; reflexivity.
Defined.

Lemma global_index3_ijk1_roundtrip_witness :
  (ecl_grid_get_global_index3 (regular_grid 4 3 2) 1 2 1 = Ok 21 ∧
   ecl_grid_get_ijk1 (regular_grid 4 3 2) 21 = Ok (1, 2, 1)) ∧
  ecl_grid_get_global_index3 (regular_grid 4 3 2) 4 0 0 = Abort.
Proof.
  split.
  - apply (proj1 (global_index3_ijk1_roundtrip (regular_grid 4 3 2) 1 2 1)).
    simpl. lia.
  - apply (proj2 (global_index3_ijk1_roundtrip (regular_grid 4 3 2) 4 0 0)).
    simpl. lia.
Defined.

Lemma built_example_grid_built : grid_built built_example_grid.
Proof.
  exists 0, index_example_grid, built_example_grid.
  split; [exact index_example_grid_wf|]. split; [vm_compute; reflexivity|].
  repeat split; reflexivity.
Defined.

Lemma get_property_index_by_size_witness :
  ecl_grid_get_property built_example_grid kw_global 0 0 1 = Ok 12%Q ∧
  ecl_grid_get_property built_example_grid kw_active 0 0 1 = Ok 21%Q ∧
  ecl_grid_get_property built_example_grid kw_active 1 0 0 = Ok (-1)%Q ∧
  ecl_grid_get_property built_example_grid kw_other 0 0 1 = Abort.
Proof.
  split; [|split; [|split]].
  - rewrite (proj1 (proj1 (get_property_index_by_size built_example_grid kw_global 0 0 1
               built_example_grid_built) eq_refl) eq_refl).
    vm_compute. reflexivity.
  - rewrite (proj2 (proj1 (get_property_index_by_size built_example_grid kw_active 0 0 1
               built_example_grid_built) eq_refl) eq_refl).
    vm_compute. reflexivity.
  - rewrite (proj2 (proj1 (get_property_index_by_size built_example_grid kw_active 1 0 0
               built_example_grid_built) eq_refl) eq_refl).
    vm_compute. reflexivity.
  - apply (proj2 (get_property_index_by_size built_example_grid kw_other 0 0 1
               built_example_grid_built)); vm_compute; congruence.
Defined.

Lemma tainted_cell_contains_no_point_witness :
  let cell := ecl_cell_taint_cell (unit_cube_cell 0 0 0) in
  tainted_geometry cell = true ∧
  @ecl_cell_contains_point tetrahedron_model cell (center cell) = Ok false ∧
  ecl_cell_layer_contains_xy cell true (1 # 2) (1 # 2) = false.
Proof.
  intros cell. split; [reflexivity|].
  destruct (@tainted_cell_contains_no_point tetrahedron_model cell eq_refl)
    as (Hp & Hl & Hc).
  split; [exact Hc|apply Hl].
Defined.

Lemma taint_example_grid_untainted (c : ecl_cell) :
  c ∈ cells taint_example_grid → tainted_geometry c = false.
Proof.
  intros Hc. apply list_elem_of_In in Hc. simpl in Hc.
  destruct Hc as [<-|[<-|[]]]; reflexivity.
Defined.

Lemma taint_cells_iff_corner_at_xy_origin_witness :
  ∃ g' : ecl_grid,
    ecl_grid_taint_cells taint_example_grid = Ok g' ∧
    tainted_geometry <$> cells g' = [true; false].
Proof.
  destruct (taint_cells_iff_corner_at_xy_origin taint_example_grid eq_refl
              taint_example_grid_untainted) as (g' & Hg & _).
  exists g'. split; [exact Hg|].
  vm_compute in Hg. injection Hg as <-. reflexivity.
Defined.


Lemma loaded_registered_store_building :
  lgr_building 0%nat [1%nat] loaded_registered_store.
Proof.
  apply (building_add 0%nat [] loaded_named_store 1%nat); [|vm_compute; reflexivity].
  apply (building_name 0%nat [] loaded_lgr_store 1%nat "LGR1");
    [|vm_compute; reflexivity].
  apply (alloc_GRDECL_data_building_lgr 0%nat [] 0 loaded_main_store 1 1 1
           (grdecl_example_zcorn 1) (grdecl_example_coord 1) [1] 1
           loaded_lgr_store 1%nat); [|vm_compute; reflexivity].
  apply (alloc_GRDECL_data_building_main 0 ∅ 2 1 1
           (grdecl_example_zcorn 2) (grdecl_example_coord 2) [1; 0]).
  vm_compute. reflexivity.
Defined.

Lemma add_lgr_abort_and_grid_nr_position_witness :
  (ecl_grid_add_lgr loaded_named_store 0%nat 0%nat = Abort ↔ 0 ≠ 1) ∧
  (ecl_grid_add_lgr loaded_named_store 0%nat 1%nat = Abort ↔ 1 ≠ 1) ∧
  (∃ main : ecl_grid,
     loaded_registered_store !! 0%nat = Some main ∧
     LGR_list main = Some [mk_node 0%nat false; mk_node 1%nat true] ∧
     total_active main = 1) ∧
  lgr_list_registered 0%nat [1%nat] loaded_registered_store ∧
  lgr_list_ok 0%nat loaded_registered_store.
Proof.
  split; [|split; [|split]].
  - assert (Hm : ∃ (main lgr : ecl_grid) (l : list vector_node),
              loaded_named_store !! 0%nat = Some main ∧
              loaded_named_store !! 0%nat = Some lgr ∧
              LGR_list main = Some l ∧ grid_nr lgr = 0 ∧ Z.of_nat (length l) = 1).
    { vm_compute. do 3 eexists. repeat split; reflexivity. }
    destruct Hm as (main & lgr & l & Hm & Hl & Hlist & Hnr & Hlen).
    rewrite <- Hnr, <- Hlen.
    exact (proj1 add_lgr_abort_and_grid_nr_position loaded_named_store
             0%nat 0%nat main lgr l Hm Hl Hlist).
  - assert (Hm : ∃ (main lgr : ecl_grid) (l : list vector_node),
              loaded_named_store !! 0%nat = Some main ∧
              loaded_named_store !! 1%nat = Some lgr ∧
              LGR_list main = Some l ∧ grid_nr lgr = 1 ∧ Z.of_nat (length l) = 1).
    { vm_compute. do 3 eexists. repeat split; reflexivity. }
    destruct Hm as (main & lgr & l & Hm & Hl & Hlist & Hnr & Hlen).
    rewrite <- Hnr at 1. rewrite <- Hlen.
    exact (proj1 add_lgr_abort_and_grid_nr_position loaded_named_store
             0%nat 1%nat main lgr l Hm Hl Hlist).
  - destruct (proj1 (proj2 add_lgr_abort_and_grid_nr_position)
                loaded_named_store loaded_registered_store 0%nat 1%nat)
      as (main & lgr & l & hash & key & Hm & Hl & Hlist & Hhash & Hname & Hnr & Hpos & Hst).
    { vm_compute. reflexivity. }
    eexists. split; [rewrite Hst; apply lookup_insert_eq|].
    vm_compute in Hm. injection Hm as <-.
    vm_compute in Hlist. injection Hlist as <-.
    split; reflexivity.
  - apply (proj2 (proj2 add_lgr_abort_and_grid_nr_position) 0%nat [1%nat]).
    exact loaded_registered_store_building.
Defined.

Lemma contains_point_aborts_without_volume_witness :
  let q := mk_point 1 1 1 in
  tainted_geometry (ecl_cell_taint_cell (point_cell q)) = false ∧
  @ecl_cell_contains_point tetrahedron_model (ecl_cell_taint_cell (point_cell q)) q
  = Abort ∧
  @ecl_cell_contains_point tetrahedron_model (point_cell q) q = Abort.
Proof.
  intros q.
  destruct (proj2 contains_point_aborts_without_volume q eq_refl) as [Ht Ha].
  split; [exact Ht|]. split; [exact Ha|].
  eapply (proj1 contains_point_aborts_without_volume tetrahedron_model
            (point_cell q) q).
  - reflexivity.
  - vm_compute. discriminate.
  - vm_compute. discriminate.
  - vm_compute. discriminate.
  - vm_compute. discriminate.
  - vm_compute. discriminate.
  - vm_compute. discriminate.
  - vm_compute. reflexivity.
  - vm_compute. discriminate.
Defined.

(** * Further properties of the grid functions *)

(** ** Index conversions *)

Lemma ecl_grid_get_ijk1_valid (g : ecl_grid) (n : Z) :
  0 <= nx g → 0 <= ny g →
  0 <= n < nx g * ny g * nz g →
  ∃ i j k : Z,
    ecl_grid_get_ijk1 g n = Ok (i, j, k) ∧
    (0 <= i < nx g ∧ 0 <= j < ny g ∧ 0 <= k < nz g) ∧
    ecl_grid_get_global_index__ g i j k = n.
Proof.
  intros Hx0 Hy0 Hn. unfold ecl_grid_get_ijk1, int_div, ecl_grid_get_global_index__.
  assert (Hxy : nx g * ny g ≠ 0) by (intros E; rewrite E in Hn; lia).
  assert (Hxp : 0 < nx g) by nia.
  assert (Hyp : 0 < ny g) by nia.
  assert (Hpos : 0 < nx g * ny g) by nia.
  assert (Hnz : 0 < nz g) by nia.
  destruct (Z.eqb_spec (nx g * ny g) 0); [done|]. rewrite result_bind_ok.
  destruct (Z.eqb_spec (nx g) 0); [lia|]. rewrite result_bind_ok.
  rewrite (Z.quot_div_nonneg n) by lia.
  set (k := n / (nx g * ny g)).
  assert (Hk : n = (nx g * ny g) * k + n mod (nx g * ny g)) by (apply Z.div_mod; lia).
  pose proof (Z.mod_pos_bound n (nx g * ny g) Hpos) as Hm.
  assert (Hk0 : 0 <= k) by (apply Z.div_pos; lia).
  assert (Hkr : n - k * (nx g * ny g) = n mod (nx g * ny g)) by lia.
  rewrite Hkr. set (r := n mod (nx g * ny g)) in *.
  rewrite (Z.quot_div_nonneg r) by lia.
  set (j := r / nx g).
  assert (Hj : r = nx g * j + r mod nx g) by (apply Z.div_mod; lia).
  pose proof (Z.mod_pos_bound r (nx g) Hxp) as Hmi.
  assert (Hj0 : 0 <= j) by (apply Z.div_pos; lia).
  exists (r - j * nx g), j, k. split; [done|].
  assert (Hjy : j < ny g) by nia.
  assert (Hkz : k < nz g) by nia.
  split; [lia|lia].
Qed.

Lemma ecl_grid_get_ijk1_global_index (g : ecl_grid) (i j k : Z) :
  0 <= i < nx g → 0 <= j < ny g → 0 <= k < nz g →
  ecl_grid_get_ijk1 g (ecl_grid_get_global_index__ g i j k) = Ok (i, j, k).
Proof.
  intros Hi Hj Hk. unfold ecl_grid_get_ijk1, int_div, ecl_grid_get_global_index__.
  assert (Hxy : 0 < nx g * ny g) by nia.
  destruct (Z.eqb_spec (nx g * ny g) 0) as [?|_]; [lia|].
  rewrite result_bind_ok.
  assert (Hq : Z.quot (i + j * nx g + k * nx g * ny g) (nx g * ny g) = k).
  { rewrite Z.quot_div_nonneg by nia.
    symmetry. apply (Z.div_unique_pos _ _ k (i + j * nx g)); nia. }
  rewrite Hq.
  destruct (Z.eqb_spec (nx g) 0) as [?|_]; [lia|].
  rewrite result_bind_ok.
  assert (Hr : Z.quot (i + j * nx g + k * nx g * ny g - k * (nx g * ny g)) (nx g) = j).
  { rewrite Z.quot_div_nonneg by nia.
    symmetry. apply (Z.div_unique_pos _ _ j i); nia. }
  rewrite Hr. f_equal. f_equal. f_equal. lia.
Qed.

Lemma ecl_grid_get_global_index3_valid (g : ecl_grid) (i j k : Z) :
  0 <= i < nx g → 0 <= j < ny g → 0 <= k < nz g →
  ecl_grid_get_global_index3 g i j k = Ok (ecl_grid_get_global_index__ g i j k).
Proof.
  intros Hi Hj Hk. unfold ecl_grid_get_global_index3.
  by rewrite (proj2 (ecl_grid_ijk_valid_spec g i j k)).
Qed.

Lemma ecl_grid_get_global_index_range (g : ecl_grid) (i j k : Z) :
  0 <= i < nx g → 0 <= j < ny g → 0 <= k < nz g →
  0 <= ecl_grid_get_global_index__ g i j k < nx g * ny g * nz g.
Proof.
  intros Hi Hj Hk.
  by apply (global_index_int_range g i j k (nx g * ny g * nz g)).
Qed.

(** Two cells of the grid with the same global index are the same cell. *)
Lemma ecl_grid_get_global_index_inj (g : ecl_grid) (i j k i' j' k' : Z) :
  0 <= i < nx g → 0 <= j < ny g → 0 <= k < nz g →
  0 <= i' < nx g → 0 <= j' < ny g → 0 <= k' < nz g →
  ecl_grid_get_global_index__ g i j k = ecl_grid_get_global_index__ g i' j' k' →
  (i, j, k) = (i', j', k').
Proof.
  intros Hi Hj Hk Hi' Hj' Hk' E.
  pose proof (ecl_grid_get_ijk1_global_index g i j k Hi Hj Hk) as H1.
  pose proof (ecl_grid_get_ijk1_global_index g i' j' k' Hi' Hj' Hk') as H2.
  rewrite E in H1. congruence.
Qed.

(** X1.  On a grid with nx, ny >= 0 every global index n in [0, nx*ny*nz) is
    the index of a cell: ecl_grid_get_ijk1 returns coordinates inside the
    grid, and ecl_grid_get_global_index3 of these coordinates returns n. *)
Theorem ijk1_global_index3_roundtrip (g : ecl_grid) (n : Z) :
  0 <= nx g → 0 <= ny g → 0 <= n < nx g * ny g * nz g →
  ∃ i j k : Z,
    ecl_grid_get_ijk1 g n = Ok (i, j, k) ∧
    (0 <= i < nx g ∧ 0 <= j < ny g ∧ 0 <= k < nz g) ∧
    ecl_grid_get_global_index3 g i j k = Ok n.
Proof.
  intros Hx Hy Hn.
  destruct (ecl_grid_get_ijk1_valid g n Hx Hy Hn) as (i & j & k & Hijk & Hv & Hg).
  exists i, j, k. split; [done|]. split; [done|].
  destruct Hv as (Hi & Hj & Hk).
  by rewrite ecl_grid_get_global_index3_valid, Hg.
Qed.

Lemma grid_built_dims (g : ecl_grid) :
  grid_built g → 0 <= nx g ∧ 0 <= ny g ∧ 0 <= nz g.
Proof.
  intros (fill & g0 & g1 & Hwf & Hup & Hnx & Hny & Hnz & _).
  rewrite ecl_grid_update_index_result in Hup by done. injection Hup as <-.
  simpl in *. destruct Hwf as (? & ? & ? & _). lia.
Qed.

Lemma count_active_take_lt (cs : list ecl_cell) (m : nat) (c : ecl_cell) :
  cs !! m = Some c → active c = true →
  0 <= count_active (take m cs) < count_active cs.
Proof.
  intros Hm Hc. split; [apply count_active_nonneg|].
  rewrite <- (take_drop m cs) at 2. rewrite count_active_app.
  rewrite (drop_S _ _ _ Hm). simpl. rewrite Hc.
  pose proof (count_active_nonneg (drop (S m) cs)). lia.
Qed.

(** The maps of a built grid at one cell: the cell exists, its entry of
    [index_map] is its rank among the active cells or -1, and the rank leads
    back to the cell through [inv_index_map]. *)
Lemma grid_built_cell (g : ecl_grid) (n : Z) :
  grid_built g → 0 <= n < nx g * ny g * nz g →
  ∃ (c : ecl_cell) (a : Z),
    cells g !! Z.to_nat n = Some c ∧
    index_map g !! Z.to_nat n = Some a ∧
    (active c = true → 0 <= a < total_active g ∧
                       inv_index_map g !! Z.to_nat a = Some n) ∧
    (active c = false → a = -1).
Proof.
  intros Hb Hn.
  destruct (grid_built_maps g Hb) as (cs & Hlen & Hta & Him & Hinv & Hact).
  assert (Hlt : (Z.to_nat n < length cs)%nat) by lia.
  destruct (lookup_lt_is_Some_2 cs _ Hlt) as [c0 Hc0].
  assert (Hc : ∃ c, cells g !! Z.to_nat n = Some c ∧ active c = active c0).
  { assert (H : (active <$> cells g) !! Z.to_nat n = Some (active c0))
      by (by rewrite Hact, list_lookup_fmap, Hc0).
    rewrite list_lookup_fmap in H.
    destruct (cells g !! Z.to_nat n) as [c|]; [|done].
    exists c. split; [done|]. by injection H. }
  destruct Hc as (c & Hc & Hcc0).
  exists c, (if active c0 then count_active (take (Z.to_nat n) cs) else -1).
  split; [done|]. split.
  { by rewrite Him, index_map_entry_lookup, Hc0. }
  rewrite Hcc0. split; [|by intros ->].
  intros Hc0a. rewrite Hc0a.
  pose proof (count_active_take_lt cs _ c0 Hc0 Hc0a) as Hr.
  split; [lia|].
  rewrite Hinv. apply active_positions_lookup.
  exists (Z.to_nat n), c0. repeat split; [lia|done|done|lia].
Qed.

(** The converse direction: every active index in range is the entry of
    [index_map] at the global index [inv_index_map] gives for it. *)
Lemma grid_built_active_index (g : ecl_grid) (a : Z) :
  grid_built g → 0 <= a < total_active g →
  ∃ (n : Z) (c : ecl_cell),
    0 <= n < nx g * ny g * nz g ∧
    inv_index_map g !! Z.to_nat a = Some n ∧
    cells g !! Z.to_nat n = Some c ∧ active c = true ∧
    index_map g !! Z.to_nat n = Some a.
Proof.
  intros Hb Ha.
  destruct (grid_built_maps g Hb) as (cs & Hlen & Hta & Him & Hinv & Hact).
  assert (Hlt : (Z.to_nat a < length (active_positions 0 cs))%nat).
  { pose proof (active_positions_length 0 cs). lia. }
  destruct (lookup_lt_is_Some_2 _ _ Hlt) as [n Hn].
  pose proof Hn as Hn'.
  apply active_positions_lookup in Hn' as (m & c0 & -> & Hm & Hc0 & Hcnt).
  pose proof (lookup_lt_Some _ _ _ Hm) as Hml.
  assert (Hrange : 0 <= 0 + Z.of_nat m < nx g * ny g * nz g) by lia.
  destruct (grid_built_cell g _ Hb Hrange) as (c & a' & Hc & Ha' & Hact' & _).
  assert (Hca : active c = true).
  { assert (H : (active <$> cells g) !! m = Some (active c0))
      by (by rewrite Hact, list_lookup_fmap, Hm).
    rewrite list_lookup_fmap in H.
    replace (Z.to_nat (0 + Z.of_nat m)) with m in Hc by lia.
    rewrite Hc in H. simpl in H. congruence. }
  exists (0 + Z.of_nat m), c. split; [done|]. split; [by rewrite Hinv|].
  split; [done|]. split; [done|].
  rewrite Ha'. f_equal.
  rewrite Him, index_map_entry_lookup in Ha'.
  replace (Z.to_nat (0 + Z.of_nat m)) with m in Ha' by lia.
  rewrite Hm in Ha'. simpl in Ha'. rewrite Hc0 in Ha'. injection Ha' as <-. lia.
Qed.

(** X2.  On a built grid ecl_grid_get_ijk1A aborts exactly for an active index
    outside [0, total_active); for an index inside it returns the coordinates
    of an active cell, and ecl_grid_get_active_index3 of these coordinates
    gives the active index back. *)
Theorem ijk1A_active_index3_roundtrip (g : ecl_grid) (a : Z) :
  grid_built g →
  (0 <= a < total_active g →
     ∃ i j k : Z,
       ecl_grid_get_ijk1A g a = Ok (i, j, k) ∧
       ecl_grid_get_active_index3 g i j k = Ok a ∧
       ecl_grid_cell_active3 g i j k = Ok true) ∧
  (¬ (0 <= a < total_active g) → ecl_grid_get_ijk1A g a = Abort).
Proof.
  intros Hb. split.
  - intros Ha.
    destruct (grid_built_active_index g a Hb Ha) as (n & c & Hn & Hinv & Hc & Hca & Him).
    destruct (grid_built_dims g Hb) as (Hx & Hy & _).
    destruct (ecl_grid_get_ijk1_valid g n Hx Hy Hn) as (i & j & k & Hijk & Hv & Hg).
    destruct Hv as (Hi & Hj & Hk).
    exists i, j, k. split; [|split].
    + unfold ecl_grid_get_ijk1A, ecl_grid_get_global_index1A.
      destruct (Z.leb_spec 0 a); [|lia]. destruct (Z.ltb_spec a (total_active g)); [|lia].
      simpl. rewrite (proj2 (array_get_Ok _ a n)) by (split; [lia|done]).
      by rewrite result_bind_ok.
    + unfold ecl_grid_get_active_index3, ecl_grid_get_active_index1.
      rewrite ecl_grid_get_global_index3_valid, result_bind_ok, Hg by done.
      apply array_get_Ok. split; [lia|done].
    + unfold ecl_grid_cell_active3, ecl_grid_cell_active1.
      rewrite ecl_grid_get_global_index3_valid, result_bind_ok, Hg by done.
      rewrite (proj2 (array_get_Ok _ n a)) by (split; [lia|done]).
      rewrite result_bind_ok. destruct (Z.leb_spec 0 a); [done|lia].
  - intros Ha. unfold ecl_grid_get_ijk1A.
    destruct (Z.leb_spec 0 a), (Z.ltb_spec a (total_active g)); simpl; try done. lia.
Qed.

(** X3.  On a built grid, for coordinates inside the grid,
    ecl_grid_cell_active3 returns the [active] flag of the cell; the active
    index of an inactive cell is -1, and that of an active cell is in
    [0, total_active) and ecl_grid_get_ijk1A maps it back to the coordinates. *)
Theorem active_index3_ijk1A_roundtrip (g : ecl_grid) (i j k : Z) :
  grid_built g →
  0 <= i < nx g ∧ 0 <= j < ny g ∧ 0 <= k < nz g →
  ∃ (c : ecl_cell) (a : Z),
    array_get (cells g) (ecl_grid_get_global_index__ g i j k) = Ok c ∧
    ecl_grid_get_active_index3 g i j k = Ok a ∧
    ecl_grid_cell_active3 g i j k = Ok (active c) ∧
    (active c = true →
       0 <= a < total_active g ∧ ecl_grid_get_ijk1A g a = Ok (i, j, k)) ∧
    (active c = false → a = -1).
Proof.
  intros Hb (Hi & Hj & Hk).
  pose proof (ecl_grid_get_global_index_range g i j k Hi Hj Hk) as Hn.
  set (n := ecl_grid_get_global_index__ g i j k) in *.
  destruct (grid_built_cell g n Hb Hn) as (c & a & Hc & Him & Hact & Hina).
  exists c, a. split; [apply array_get_Ok; split; [lia|done]|].
  split.
  { unfold ecl_grid_get_active_index3, ecl_grid_get_active_index1.
    rewrite ecl_grid_get_global_index3_valid, result_bind_ok by done.
    apply array_get_Ok. split; [lia|done]. }
  split.
  { unfold ecl_grid_cell_active3, ecl_grid_cell_active1.
    rewrite ecl_grid_get_global_index3_valid, result_bind_ok by done.
    fold n. rewrite (proj2 (array_get_Ok _ n a)) by (split; [lia|done]).
    rewrite result_bind_ok.
    destruct (active c) eqn:E.
    - destruct (Hact eq_refl) as (? & _). destruct (Z.leb_spec 0 a); [done|lia].
    - rewrite (Hina eq_refl). done. }
  split; [|done].
  intros E. destruct (Hact E) as (Ha & Hinv). split; [done|].
  unfold ecl_grid_get_ijk1A, ecl_grid_get_global_index1A.
  destruct (Z.leb_spec 0 a); [|lia]. destruct (Z.ltb_spec a (total_active g)); [|lia].
  simpl. rewrite (proj2 (array_get_Ok _ a n)) by (split; [lia|done]).
  rewrite result_bind_ok. by apply ecl_grid_get_ijk1_global_index.
Qed.

(** ** Loops that return: invariants *)

Lemma foldM_exit_total {A St R} (I : St → Prop) (Q : R → Prop) (P : A → Prop)
    (body : A → St → result (loop_step St R)) (l : list A) (s : St) :
  (∀ a s, P a → I s → ∃ r, body a s = Ok r ∧ loop_step_holds I Q r) →
  Forall P l → I s →
  ∃ r, foldM_exit body l s = Ok r ∧ loop_step_holds I Q r.
Proof.
  intros Hbody Hl. revert s. induction Hl as [|a l Ha Hl IH]; intros s Hs.
  - exists (Continue s). by split.
  - cbn [foldM_exit]. destruct (Hbody a s Ha Hs) as (r & -> & Hr).
    rewrite result_bind_ok. destruct r as [s'|v]; [by apply IH|].
    exists (Return v). by split.
Qed.

Lemma for_exit_total {St R} (I : St → Prop) (Q : R → Prop) (lo hi : Z)
    (body : Z → St → result (loop_step St R)) (s : St) :
  (∀ a s, lo <= a < hi → I s → ∃ r, body a s = Ok r ∧ loop_step_holds I Q r) →
  I s →
  ∃ r, for_exit lo hi body s = Ok r ∧ loop_step_holds I Q r.
Proof.
  intros Hbody Hs. unfold for_exit.
  apply (foldM_exit_total I Q (λ a, lo <= a < hi)); [done| |done].
  apply Forall_forall. intros a Ha. apply elem_of_seqZ in Ha. lia.
Qed.

Lemma foldM_total {A St} (I : St → Prop) (P : A → Prop)
    (body : A → St → result St) (l : list A) (s : St) :
  (∀ a s, P a → I s → ∃ s', body a s = Ok s' ∧ I s') →
  Forall P l → I s →
  ∃ s', foldM body l s = Ok s' ∧ I s'.
Proof.
  intros Hbody Hl. revert s. induction Hl as [|a l Ha Hl IH]; intros s Hs.
  - exists s. by split.
  - cbn [foldM]. destruct (Hbody a s Ha Hs) as (s' & -> & Hs').
    by apply IH.
Qed.

Lemma for_loop_total {St} (I : St → Prop) (lo hi : Z)
    (body : Z → St → result St) (s : St) :
  (∀ a s, lo <= a < hi → I s → ∃ s', body a s = Ok s' ∧ I s') →
  I s →
  ∃ s', for_loop lo hi body s = Ok s' ∧ I s'.
Proof.
  intros Hbody Hs. unfold for_loop.
  apply (foldM_total I (λ a, lo <= a < hi)); [done| |done].
  apply Forall_forall. intros a Ha. apply elem_of_seqZ in Ha. lia.
Qed.

Lemma array_set_Ok {A} (l : list A) (i : Z) (x : A) :
  0 <= i < Z.of_nat (length l) →
  array_set l i x = Ok (<[Z.to_nat i := x]> l).
Proof.
  intros Hi. unfold array_set.
  destruct (Z.leb_spec 0 i); [|lia].
  destruct (Z.ltb_spec i (Z.of_nat (length l))); [done|lia].
Qed.

Lemma array_get_in_range {A} (l : list A) (i : Z) :
  0 <= i < Z.of_nat (length l) → ∃ x, array_get l i = Ok x ∧ l !! Z.to_nat i = Some x.
Proof.
  intros Hi. destruct (lookup_lt_is_Some_2 l (Z.to_nat i)) as [x Hx]; [lia|].
  exists x. split; [|done]. apply array_get_Ok. split; [lia|done].
Qed.

(** ** Point location: what the search returns *)

Section PointLocation.
Context `{tetrahedron_lib}.

Lemma ecl_grid_clear_visited_Ok (g : ecl_grid) :
  0 <= size g →
  (∀ v, visited g = Some v → Z.of_nat (length v) = size g) →
  ∃ v, ecl_grid_clear_visited g = Ok (grid_set_visited g (Some v)) ∧
       Z.of_nat (length v) = size g.
Proof.
  intros Hs Hv. unfold ecl_grid_clear_visited.
  set (v0 := match visited g with Some v => v | None => _ end).
  assert (Hv0 : Z.of_nat (length v0) = size g).
  { unfold v0. destruct (visited g) as [v|]; [by apply Hv|].
    rewrite length_replicate. lia. }
  destruct (for_loop_total (λ v, Z.of_nat (length v) = size g) 0 (size g)
              (λ i v, array_set v i false) v0) as (v & -> & Hlen); [|done|].
  - intros a s Ha Hlen. exists (<[Z.to_nat a := false]> s).
    split; [apply array_set_Ok; lia|]. by rewrite length_insert.
  - exists v. by rewrite result_bind_ok.
Qed.

Lemma ecl_grid_box_contains_xyz_total (g : ecl_grid) (p : point) (visited : list bool)
    (i1 i2 j1 j2 k1 k2 : Z) :
  Z.of_nat (length (cells g)) = size g → size g = nx g * ny g * nz g →
  contains_defined g p →
  Z.of_nat (length visited) = size g →
  0 <= i1 → i2 <= nx g → 0 <= j1 → j2 <= ny g → 0 <= k1 → k2 <= nz g →
  ∃ (visited' : list bool) (r : Z),
    ecl_grid_box_contains_xyz g visited i1 i2 j1 j2 k1 k2 p = Ok (visited', r) ∧
    Z.of_nat (length visited') = size g ∧
    (r = -1 ∨ cell_found g p r).
Proof.
  intros Hcells Hsize Hdef Hvis Hi1 Hi2 Hj1 Hj2 Hk1 Hk2.
  unfold ecl_grid_box_contains_xyz.
  set (I := λ v : list bool, Z.of_nat (length v) = size g).
  set (Q := λ vr : list bool * Z, I vr.1 ∧ cell_found g p vr.2).
  match goal with
  | |- context [for_exit k1 k2 ?b visited] =>
      destruct (for_exit_total I Q k1 k2 b visited) as (r & -> & Hr)
  end; [|done|].
  - intros k v Hk Hv. apply for_exit_total; [|done].
    intros j v' Hj Hv'. apply for_exit_total; [|done].
    intros i v'' Hi Hv''.
    rewrite ecl_grid_get_global_index3_valid, result_bind_ok by lia.
    pose proof (ecl_grid_get_global_index_range g i j k
                  ltac:(lia) ltac:(lia) ltac:(lia)) as Hn.
    set (n := ecl_grid_get_global_index__ g i j k) in *.
    unfold I in Hv''.
    destruct (array_get_in_range v'' n ltac:(lia)) as (seen & -> & _).
    rewrite result_bind_ok. destruct seen; simpl.
    { exists (Continue v''). by split. }
    rewrite array_set_Ok, result_bind_ok by lia.
    destruct (array_get_in_range (cells g) n ltac:(lia)) as (c & -> & Hc).
    rewrite result_bind_ok.
    destruct (Hdef c (list_elem_of_lookup_2 _ _ _ Hc)) as (b & Hb).
    rewrite Hb, result_bind_ok.
    assert (Hlen : I (<[Z.to_nat n := true]> v'')) by (unfold I; by rewrite length_insert).
    destruct b.
    + eexists. split; [reflexivity|]. split; [done|].
      split; [simpl; lia|]. by exists c.
    + eexists. split; [reflexivity|]. done.
  - rewrite result_bind_ok. destruct r as [v|[v r]].
    + exists v, (-1). split; [done|]. split; [done|]. by left.
    + destruct Hr as (Hv & Hf). exists v, r. split; [done|]. split; [done|]. by right.
Qed.

Lemma scan_cells_total (g : ecl_grid) (p : point) (l : list Z) :
  Z.of_nat (length (cells g)) = size g →
  contains_defined g p →
  Forall (λ n, 0 <= n < size g) l →
  ∃ r, scan_cells g p l = Ok r ∧
       ((r = -1 ∧ ∀ n c, n ∈ l → cells g !! Z.to_nat n = Some c →
                         ecl_cell_contains_point c p = Ok false)
        ∨ cell_found g p r).
Proof.
  intros Hcells Hdef Hl. induction Hl as [|n l Hn Hl IH].
  - exists (-1). split; [done|]. left. split; [done|].
    intros n c Hin. by apply elem_of_nil in Hin.
  - cbn [scan_cells].
    destruct (array_get_in_range (cells g) n ltac:(lia)) as (c & -> & Hc).
    rewrite result_bind_ok.
    destruct (Hdef c (list_elem_of_lookup_2 _ _ _ Hc)) as (b & Hb).
    rewrite Hb, result_bind_ok. destruct b.
    + exists n. split; [done|]. right. split; [done|]. by exists c.
    + destruct IH as (r & -> & [(-> & Hall)|Hf]).
      * exists (-1). split; [done|]. left. split; [done|].
        intros n' c' Hin Hc'. apply elem_of_cons in Hin as [->|Hin].
        -- congruence.
        -- by apply (Hall n' c').
      * exists r. split; [done|]. by right.
Qed.

Lemma linear_scan_indices (size start_index n : Z) :
  0 <= start_index → 0 <= n < size →
  n ∈ (λ index, Z.rem (index + start_index) size) <$> seqZ 0 size.
Proof.
  intros Hs Hn. apply list_elem_of_fmap.
  exists ((n - start_index) mod size).
  pose proof (Z.mod_pos_bound (n - start_index) size ltac:(lia)) as Hm.
  split.
  - rewrite Z.rem_mod_nonneg by lia.
    rewrite Zplus_mod_idemp_l.
    replace (n - start_index + start_index) with n by lia.
    by rewrite Z.mod_small.
  - apply elem_of_seqZ. lia.
Qed.

End PointLocation.

Section PointLocationEdges.
Context `{tetrahedron_lib}.

(** X5.  A negative start index skips the search around the start cell, and
    the final scan then begins at the index (0 + start_index) % size, which
    is negative unless start_index is a multiple of size: the search reads
    before the first cell of the grid. *)
Theorem locate_negative_start_index_out_of_bounds (g : ecl_grid) (x y z : Q)
    (start_index : Z) :
  0 <= size g →
  (∀ v, visited g = Some v → Z.of_nat (length v) = size g) →
  start_index < 0 → Z.rem start_index (size g) ≠ 0 →
  ecl_grid_get_global_index_from_xyz g x y z start_index = Fault.
Proof.
  intros Hs Hvis Hneg Hrem.
  unfold ecl_grid_get_global_index_from_xyz.
  destruct (ecl_grid_clear_visited_Ok g Hs Hvis) as (v & -> & Hv).
  rewrite result_bind_ok.
  cbn [visited grid_set_visited]. rewrite result_bind_ok.
  destruct (Z.leb_spec 0 start_index) as [|_]; [lia|].
  rewrite result_bind_ok.
  assert (Hscan : ∀ fuel g', size g' = size g →
            linear_scan fuel g' (mk_point x y z) start_index 0 = Fault).
  { intros fuel g' Hg'.
    assert (Hget : size g ≠ 0 →
              array_get (cells g') (Z.rem (0 + start_index) (size g)) = Fault).
    { intros Hne. unfold array_get.
      pose proof (Z.rem_nonpos start_index (size g) ltac:(lia) ltac:(lia)).
      destruct (Z.ltb_spec (Z.rem (0 + start_index) (size g)) 0) as [|Hge]; [done|].
      rewrite Z.add_0_l in Hge. lia. }
    destruct fuel; cbn [linear_scan]; unfold int_rem; rewrite Hg';
      (destruct (Z.eqb_spec (size g) 0); [done|]);
      by rewrite result_bind_ok, Hget. }
  by rewrite Hscan.
Qed.
End PointLocationEdges.

(** ** Location from (x,y) in a layer *)

Lemma foldM_exit_search {A R} (N : A → Prop) (Q : R → Prop) (P : A → Prop)
    (body : A → unit → result (loop_step unit R)) (l : list A) :
  (∀ a, P a → ∃ r, body a tt = Ok r ∧
                   match r with Continue _ => N a | Return v => Q v end) →
  Forall P l →
  ∃ r, foldM_exit body l tt = Ok r ∧
       match r with Continue _ => Forall N l | Return v => Q v end.
Proof.
  intros Hbody Hl. induction Hl as [|a l Ha Hl IH].
  - exists (Continue tt). by split.
  - cbn [foldM_exit]. destruct (Hbody a Ha) as (r & -> & Hr).
    rewrite result_bind_ok. destruct r as [[]|v].
    + destruct IH as (r & -> & Hr'). exists r. split; [done|].
      destruct r; [by constructor|done].
    + exists (Return v). by split.
Qed.

Lemma for_exit_search {R} (N : Z → Prop) (Q : R → Prop) (lo hi : Z)
    (body : Z → unit → result (loop_step unit R)) :
  (∀ a, lo <= a < hi → ∃ r, body a tt = Ok r ∧
                   match r with Continue _ => N a | Return v => Q v end) →
  ∃ r, for_exit lo hi body tt = Ok r ∧
       match r with
       | Continue _ => ∀ a, lo <= a < hi → N a
       | Return v => Q v
       end.
Proof.
  intros Hbody. unfold for_exit.
  destruct (foldM_exit_search N Q (λ a, lo <= a < hi) body (seqZ lo (hi - lo)) Hbody)
    as (r & -> & Hr).
  { apply Forall_forall. intros a Ha. apply elem_of_seqZ in Ha. lia. }
  exists r. split; [done|]. destruct r; [|done].
  intros a Ha. rewrite Forall_forall in Hr. apply Hr, elem_of_seqZ. lia.
Qed.

(** X6.  On a well-formed grid ecl_grid_get_global_index_from_xy, for a layer
    k of the grid, returns the global index of a cell of layer k whose
    chosen face contains (x,y) and whose geometry is not tainted, or -1,
    and then the face of no cell of the layer contains (x,y).  For a layer
    outside the grid it aborts, provided the grid has a column. *)
Theorem global_index_from_xy_sound_and_complete (g : ecl_grid) (k : Z)
    (lower_layer : bool) (x y : Q) :
  grid_wf g →
  (0 <= k < nz g →
   ∃ r : Z,
     ecl_grid_get_global_index_from_xy g k lower_layer x y = Ok r ∧
     ((r = -1 ∧
       ∀ i j c, 0 <= i < nx g → 0 <= j < ny g →
         array_get (cells g) (ecl_grid_get_global_index__ g i j k) = Ok c →
         ecl_cell_layer_contains_xy c lower_layer x y = false)
      ∨
      (∃ i j c, 0 <= i < nx g ∧ 0 <= j < ny g ∧
         r = ecl_grid_get_global_index__ g i j k ∧
         array_get (cells g) r = Ok c ∧
         ecl_cell_layer_contains_xy c lower_layer x y = true ∧
         tainted_geometry c = false))) ∧
  (¬ (0 <= k < nz g) → 0 < nx g → 0 < ny g →
   ecl_grid_get_global_index_from_xy g k lower_layer x y = Abort).
Proof.
  intros (Hnx & Hny & Hnz & Hsize & Hcells). split.
  - intros Hk. unfold ecl_grid_get_global_index_from_xy.
    set (found := λ r : Z, ∃ i j c, 0 <= i < nx g ∧ 0 <= j < ny g ∧
         r = ecl_grid_get_global_index__ g i j k ∧
         array_get (cells g) r = Ok c ∧
         ecl_cell_layer_contains_xy c lower_layer x y = true ∧
         tainted_geometry c = false).
    set (none := λ i j : Z, ∀ c,
         array_get (cells g) (ecl_grid_get_global_index__ g i j k) = Ok c →
         ecl_cell_layer_contains_xy c lower_layer x y = false).
    match goal with
    | |- context [for_exit 0 (ny g) ?b tt] =>
        destruct (for_exit_search (λ j, ∀ i, 0 <= i < nx g → none i j) found
                    0 (ny g) b) as (r & -> & Hr)
    end.
    + intros j Hj. apply for_exit_search. intros i Hi.
      rewrite ecl_grid_get_global_index3_valid, result_bind_ok by lia.
      pose proof (ecl_grid_get_global_index_range g i j k
                    ltac:(lia) ltac:(lia) ltac:(lia)) as Hn.
      destruct (array_get_in_range (cells g) (ecl_grid_get_global_index__ g i j k)
                  ltac:(lia)) as (c & Hc & _).
      rewrite Hc, result_bind_ok.
      destruct (ecl_cell_layer_contains_xy c lower_layer x y) eqn:E.
      * eexists. split; [reflexivity|]. exists i, j, c.
        repeat split; try done; try lia.
        unfold ecl_cell_layer_contains_xy in E.
        by destruct (tainted_geometry c).
      * eexists. split; [reflexivity|]. intros c' Hc'. congruence.
    + rewrite result_bind_ok. destruct r as [[]|r].
      * exists (-1). split; [done|]. left. split; [done|].
        intros i j c Hi Hj Hc. by apply (Hr j Hj i Hi).
      * exists r. split; [done|]. by right.
  - intros Hk Hx Hy. unfold ecl_grid_get_global_index_from_xy, for_exit.
    rewrite (seqZ_cons 0 (ny g - 0)) by lia. cbn [foldM_exit].
    rewrite (seqZ_cons 0 (nx g - 0)) by lia. cbn [foldM_exit].
    unfold ecl_grid_get_global_index3.
    destruct (ecl_grid_ijk_valid g 0 0 k) eqn:E; [|done].
    apply ecl_grid_ijk_valid_spec in E. lia.
Qed.

(** ** Depth of the layers of a column *)

Lemma Qltb_spec (x y : Q) : Qltb x y = true ↔ (x < y)%Q.
Proof.
  unfold Qltb. rewrite negb_true_iff. split.
  - intros E. apply Qnot_le_lt. intros Hle. apply Qle_bool_iff in Hle. congruence.
  - intros Hlt. destruct (Qle_bool y x) eqn:E; [|done].
    apply Qle_bool_iff in E. exfalso. by apply (Qlt_not_le x y).
Qed.

Lemma Qgeb_spec (x y : Q) : Qgeb x y = true ↔ (y <= x)%Q.
Proof. apply Qle_bool_iff. Qed.

Lemma ecl_grid_get_bottom3_Ok (g : ecl_grid) (i j k : Z) :
  Z.of_nat (length (cells g)) = nx g * ny g * nz g →
  0 <= i < nx g → 0 <= j < ny g → 0 <= k < nz g →
  ∃ b, ecl_grid_get_bottom3 g i j k = Ok b.
Proof.
  intros Hlen Hi Hj Hk. unfold ecl_grid_get_bottom3, ecl_grid_get_bottom1.
  pose proof (ecl_grid_get_global_index_range g i j k Hi Hj Hk) as Hn.
  destruct (array_get_in_range (cells g) (ecl_grid_get_global_index__ g i j k)
              ltac:(lia)) as (c & -> & _).
  rewrite result_bind_ok. by eexists.
Qed.

Lemma ecl_grid_get_top3_Ok (g : ecl_grid) (i j k : Z) :
  Z.of_nat (length (cells g)) = nx g * ny g * nz g →
  0 <= i < nx g → 0 <= j < ny g → 0 <= k < nz g →
  ∃ b, ecl_grid_get_top3 g i j k = Ok b.
Proof.
  intros Hlen Hi Hj Hk. unfold ecl_grid_get_top3, ecl_grid_get_top1.
  pose proof (ecl_grid_get_global_index_range g i j k Hi Hj Hk) as Hn.
  destruct (array_get_in_range (cells g) (ecl_grid_get_global_index__ g i j k)
              ltac:(lia)) as (c & -> & _).
  rewrite result_bind_ok. by eexists.
Qed.

Lemma locate_depth_loop_spec (fuel : nat) (g : ecl_grid) (depth : Q) (i j k : Z) (top : Q) :
  Z.of_nat (length (cells g)) = nx g * ny g * nz g →
  0 <= i < nx g → 0 <= j < ny g → 0 <= k < nz g →
  (Z.to_nat (nz g - k - 1) <= fuel)%nat →
  (top <= depth)%Q →
  (∃ b, ecl_grid_get_bottom3 g i j (nz g - 1) = Ok b ∧ (depth < b)%Q) →
  (∀ k' b, 0 <= k' < k → ecl_grid_get_bottom3 g i j k' = Ok b → (b <= depth)%Q) →
  ∃ r, locate_depth_loop fuel g depth i j k top = Ok r ∧
       0 <= r < nz g ∧
       (∃ b, ecl_grid_get_bottom3 g i j r = Ok b ∧ (depth < b)%Q) ∧
       (∀ k' b, 0 <= k' < r → ecl_grid_get_bottom3 g i j k' = Ok b → (b <= depth)%Q).
Proof.
  intros Hlen Hi Hj. revert k top.
  induction fuel as [|fuel IH]; intros k top Hk Hf Htop Hlast Hprev.
  - assert (k = nz g - 1) as -> by lia.
    destruct Hlast as (b & Hb & Hlt).
    cbn [locate_depth_loop]. rewrite Hb, result_bind_ok.
    rewrite (proj2 (Qgeb_spec depth top) Htop), (proj2 (Qltb_spec depth b) Hlt).
    simpl. exists (nz g - 1). split; [done|]. split; [lia|]. split; [by exists b|done].
  - destruct (ecl_grid_get_bottom3_Ok g i j k Hlen Hi Hj Hk) as (b & Hb).
    cbn [locate_depth_loop]. rewrite Hb, result_bind_ok.
    rewrite (proj2 (Qgeb_spec depth top) Htop). cbn [andb].
    destruct (Qltb depth b) eqn:E.
    + apply Qltb_spec in E. exists k. split; [done|]. split; [lia|].
      split; [by exists b|done].
    + apply Qltb_false in E.
      destruct (Z.eqb_spec (k + 1) (nz g)) as [Heq|Hne].
      * exfalso. destruct Hlast as (b' & Hb' & Hlt).
        replace (nz g - 1) with k in Hb' by lia.
        rewrite Hb in Hb'. injection Hb' as <-. by apply (Qlt_not_le depth b).
      * apply IH; [lia|lia|done|done|].
        intros k' b' Hk' Hb'. destruct (Z.eq_dec k' k) as [->|Hkk].
        -- rewrite Hb in Hb'. by injection Hb' as <-.
        -- apply (Hprev k'); [lia|done].
Qed.

(** X7.  For a column (i,j) of a grid with at least one layer
    ecl_grid_locate_depth returns: -1 for a depth above the top of layer 0;
    -nz for a depth at or below the bottom of the last layer; otherwise the
    first layer k whose bottom is below the depth, which lies in [0, nz).
    The internal-error abort of the scan is never reached. *)
Theorem locate_depth_finds_layer (g : ecl_grid) (depth : Q) (i j : Z) :
  Z.of_nat (length (cells g)) = nx g * ny g * nz g →
  0 <= i < nx g → 0 <= j < ny g → 0 < nz g →
  ∃ (top bottom : Q) (r : Z),
    ecl_grid_get_top2 g i j = Ok top ∧
    ecl_grid_get_bottom2 g i j = Ok bottom ∧
    ecl_grid_locate_depth g depth i j = Ok r ∧
    ((depth < top)%Q → r = -1) ∧
    ((top <= depth)%Q → (bottom <= depth)%Q → r = - nz g) ∧
    ((top <= depth)%Q → (depth < bottom)%Q →
       0 <= r < nz g ∧
       (∃ b, ecl_grid_get_bottom3 g i j r = Ok b ∧ (depth < b)%Q) ∧
       (∀ k b, 0 <= k < r → ecl_grid_get_bottom3 g i j k = Ok b → (b <= depth)%Q)).
Proof.
  intros Hlen Hi Hj Hnz.
  destruct (ecl_grid_get_top3_Ok g i j 0 Hlen Hi Hj ltac:(lia)) as (top & Htop).
  destruct (ecl_grid_get_bottom3_Ok g i j (nz g - 1) Hlen Hi Hj ltac:(lia))
    as (bottom & Hbottom).
  unfold ecl_grid_locate_depth.
  change (ecl_grid_get_top2 g i j) with (ecl_grid_get_top3 g i j 0).
  change (ecl_grid_get_bottom2 g i j) with (ecl_grid_get_bottom3 g i j (nz g - 1)).
  rewrite Htop, Hbottom, !result_bind_ok.
  destruct (Qltb depth top) eqn:Et.
  { apply Qltb_spec in Et. exists top, bottom, (-1).
    split; [done|]. split; [done|]. split; [done|].
    split; [done|]. split; intros Hle; exfalso; by apply (Qlt_not_le depth top). }
  apply Qltb_false in Et.
  destruct (Qgeb depth bottom) eqn:Eb.
  { apply Qgeb_spec in Eb. exists top, bottom, (-1 * nz g).
    split; [done|]. split; [done|]. split; [done|].
    split; [intros Hlt; exfalso; by apply (Qlt_not_le depth top)|].
    split; [intros _ _; lia|].
    intros _ Hlt. exfalso. by apply (Qlt_not_le depth bottom). }
  assert (Hlt : (depth < bottom)%Q).
  { apply Qnot_le_lt. intros Hle. apply Qgeb_spec in Hle. congruence. }
  destruct (locate_depth_loop_spec (Z.to_nat (nz g)) g depth i j 0 top Hlen Hi Hj
              ltac:(lia) ltac:(lia) Et) as (r & Hr & Hrange & Hb & Hprev).
  { by exists bottom. }
  { intros k' b Hk'. lia. }
  exists top, bottom, r.
  split; [done|]. split; [done|]. split; [done|].
  split; [intros Hlt'; exfalso; by apply (Qlt_not_le depth top)|].
  split; [intros _ Hle; exfalso; by apply (Qlt_not_le depth bottom)|].
  intros _ _. done.
Qed.

(** ** Queries on the LGRs of a main grid *)

Section LgrQueriesProofs.
Variable util_alloc_strip_copy : string → string.

(** X8.  After ecl_grid_add_lgr has registered an LGR in a main grid (grid_nr
    0), the LGR is found under every name that strips to its own name, by
    ecl_grid_has_lgr and ecl_grid_get_lgr; the answers for all other names
    are unchanged; the number of LGRs has grown by one, and
    ecl_grid_iget_lgr returns the new LGR for the number grid_nr - 1 and the
    LGRs registered before for the smaller numbers. *)
Theorem add_lgr_then_lookup (st st' : gmap grid_ref ecl_grid)
    (main_grid lgr_grid : grid_ref) (main lgr : ecl_grid) (lgr_name : string) :
  st !! main_grid = Some main → grid_nr main = 0 →
  st !! lgr_grid = Some lgr → name lgr = Some lgr_name →
  ecl_grid_add_lgr st main_grid lgr_grid = Ok st' →
  (∀ n, util_alloc_strip_copy n = lgr_name →
     ecl_grid_has_lgr util_alloc_strip_copy st' main_grid n = Ok true ∧
     ecl_grid_get_lgr util_alloc_strip_copy st' main_grid n = Ok lgr_grid) ∧
  (∀ n, util_alloc_strip_copy n ≠ lgr_name →
     ecl_grid_has_lgr util_alloc_strip_copy st' main_grid n
     = ecl_grid_has_lgr util_alloc_strip_copy st main_grid n ∧
     ecl_grid_get_lgr util_alloc_strip_copy st' main_grid n
     = ecl_grid_get_lgr util_alloc_strip_copy st main_grid n) ∧
  ecl_grid_get_num_lgr st main_grid = Ok (grid_nr lgr - 1) ∧
  ecl_grid_get_num_lgr st' main_grid = Ok (grid_nr lgr) ∧
  ecl_grid_iget_lgr st' main_grid (grid_nr lgr - 1) = Ok lgr_grid ∧
  (∀ m, 0 <= m < grid_nr lgr - 1 →
     ecl_grid_iget_lgr st' main_grid m = ecl_grid_iget_lgr st main_grid m).
Proof.
  intros Hmain Hnr Hlgr Hname Hadd.
  unfold ecl_grid_add_lgr, deref in Hadd. rewrite Hmain, Hlgr in Hadd.
  rewrite !result_bind_ok in Hadd.
  destruct (LGR_list main) as [list|] eqn:Hlist; [|done].
  cbn [non_null] in Hadd. rewrite result_bind_ok in Hadd.
  destruct (Z.eqb_spec (Z.of_nat (length list)) (grid_nr lgr)) as [Hlen|]; [|done].
  cbn [negb] in Hadd.
  destruct (LGR_hash main) as [hash|] eqn:Hhash; [|done].
  cbn [non_null] in Hadd. rewrite result_bind_ok, Hname in Hadd.
  cbn [non_null] in Hadd. rewrite result_bind_ok in Hadd. injection Hadd as <-.
  unfold ecl_grid_has_lgr, ecl_grid_get_lgr, ecl_grid_get_num_lgr, ecl_grid_iget_lgr,
    deref, __assert_main_grid.
  rewrite lookup_insert_eq, Hmain. rewrite !result_bind_ok.
  cbn [grid_set_LGR grid_nr LGR_hash LGR_list].
  rewrite Hnr, Hlist. cbn [negb Z.eqb non_null]. rewrite !result_bind_ok.
  split; [|split; [|split; [|split; [|split]]]].
  - intros n <-. rewrite !result_bind_ok. cbn [grid_set_LGR grid_nr LGR_hash].
    rewrite Hnr. cbn [negb Z.eqb non_null]. rewrite !result_bind_ok.
    rewrite lookup_insert_eq. split; reflexivity.
  - intros n Hn. rewrite !result_bind_ok. cbn [grid_set_LGR grid_nr LGR_hash].
    rewrite Hnr, Hhash. cbn [negb Z.eqb non_null]. rewrite !result_bind_ok.
    by rewrite lookup_insert_ne.
  - f_equal. lia.
  - f_equal. rewrite length_app. simpl. lia.
  - rewrite length_app. simpl.
    destruct (Z.leb_spec 0 (grid_nr lgr - 1 + 1)); [|lia].
    destruct (Z.ltb_spec (grid_nr lgr - 1 + 1) (Z.of_nat (length list + 1))); [|lia].
    simpl.
    replace (grid_nr lgr - 1 + 1) with (Z.of_nat (length list)) by lia.
    pose proof (array_get_middle list [] (mk_node lgr_grid true)) as Hg.
    rewrite Hg. by rewrite result_bind_ok.
  - intros m Hm. rewrite !result_bind_ok. cbn [grid_set_LGR grid_nr LGR_list].
    rewrite Hnr, Hlist. cbn [negb Z.eqb non_null]. rewrite !result_bind_ok.
    rewrite length_app. simpl.
    destruct (Z.leb_spec 0 (m + 1)); [|lia].
    destruct (Z.ltb_spec (m + 1) (Z.of_nat (length list + 1))); [|lia].
    destruct (Z.ltb_spec (m + 1) (Z.of_nat (length list))); [|lia].
    simpl. unfold array_get.
    destruct (Z.ltb_spec (m + 1) 0); [lia|].
    rewrite lookup_app_l by lia. done.
Qed.
End LgrQueriesProofs.

(** ** Installation of an LGR read from a GRID file *)

Lemma install_lgr_GRID_body (st : gmap grid_ref ecl_grid) (host_grid lgr_grid : grid_ref)
    (host lgr : ecl_grid) (hcs : list ecl_cell) (index : Z) (lc : ecl_cell) :
  host_grid ≠ lgr_grid → st !! lgr_grid = Some lgr →
  array_get (cells lgr) index = Ok lc →
  (let st := <[host_grid := grid_set_cells host hcs]> st in
   lgr ← deref st lgr_grid;
   lgr_cell ← array_get (cells lgr) index;
   if active lgr_cell then
     host ← deref st host_grid;
     host_cell' ← array_get (cells host) (host_cell lgr_cell);
     store_set_cell st host_grid (host_cell lgr_cell)
                    (ecl_cell_install_lgr host_cell' lgr_grid)
   else Ok st)
  = (hcs' ← install_lgr_step lgr_grid lc hcs;
     Ok (<[host_grid := grid_set_cells host hcs']> st)).
Proof.
  intros Hne Hlgr Hlc. cbn zeta. unfold deref, install_lgr_step, store_set_cell, deref.
  rewrite (lookup_insert_ne _ host_grid lgr_grid) by done.
  rewrite Hlgr, result_bind_ok, Hlc, result_bind_ok.
  destruct (active lc); [|done].
  rewrite lookup_insert_eq, !result_bind_ok. cbn [cells grid_set_cells].
  destruct (array_get hcs (host_cell lc)) as [hc| |]; [|done|done].
  rewrite !result_bind_ok.
  change (cells (grid_set_cells host hcs)) with hcs.
  destruct (array_set hcs (host_cell lc) _) as [hcs'| |]; [|done|done].
  rewrite !result_bind_ok. by rewrite insert_insert_eq.
Qed.

Lemma install_lgr_GRID_loop (st : gmap grid_ref ecl_grid) (host_grid lgr_grid : grid_ref)
    (host lgr : ecl_grid) (pre suf : list ecl_cell) (hcs : list ecl_cell) (lo : Z) :
  host_grid ≠ lgr_grid → st !! lgr_grid = Some lgr →
  cells lgr = pre ++ suf → lo = Z.of_nat (length pre) →
  foldM (λ global_lgr_index st,
    lgr ← deref st lgr_grid;
    lgr_cell ← array_get (cells lgr) global_lgr_index;
    if active lgr_cell then
      host ← deref st host_grid;
      host_cell' ← array_get (cells host) (host_cell lgr_cell);
      store_set_cell st host_grid (host_cell lgr_cell)
                     (ecl_cell_install_lgr host_cell' lgr_grid)
    else Ok st) (seqZ lo (Z.of_nat (length suf)))
    (<[host_grid := grid_set_cells host hcs]> st)
  = (hcs' ← foldM (install_lgr_step lgr_grid) suf hcs;
     Ok (<[host_grid := grid_set_cells host hcs']> st)).
Proof.
  intros Hne Hlgr. revert pre hcs lo.
  induction suf as [|lc suf IH]; intros pre hcs lo Hcells Hlo.
  - done.
  - rewrite seqZ_cons by (simpl; lia). cbn [foldM].
    pose proof (install_lgr_GRID_body st host_grid lgr_grid host lgr hcs lo lc Hne Hlgr)
      as Hbody.
    cbn zeta in Hbody. rewrite Hbody.
    2:{ rewrite Hcells, Hlo. apply array_get_middle. }
    destruct (install_lgr_step lgr_grid lc hcs) as [hcs1| |]; [|done|done].
    rewrite !result_bind_ok.
    replace (Z.pred (Z.of_nat (length (lc :: suf)))) with (Z.of_nat (length suf))
      by (simpl; lia).
    apply (IH (pre ++ [lc])).
    + by rewrite <- app_assoc.
    + rewrite length_app. simpl. lia.
Qed.

Lemma install_lgr_step_unfold (lgr_grid : grid_ref) (lc : ecl_cell)
    (hcs : list ecl_cell) :
  install_lgr_step lgr_grid lc hcs
  = if active lc then
      host_cell' ← array_get hcs (host_cell lc);
      array_set hcs (host_cell lc) (ecl_cell_install_lgr host_cell' lgr_grid)
    else Ok hcs.
Proof. reflexivity. Qed.

Lemma install_lgr_step_fold (lgr_grid : grid_ref) (lcs hcs : list ecl_cell) :
  (∀ lc, lc ∈ lcs → active lc = true → 0 <= host_cell lc < Z.of_nat (length hcs)) →
  ∃ hcs', foldM (install_lgr_step lgr_grid) lcs hcs = Ok hcs' ∧
    length hcs' = length hcs ∧
    ∀ n c, hcs !! n = Some c →
      ((∃ lc, lc ∈ lcs ∧ active lc = true ∧ host_cell lc = Z.of_nat n) →
         hcs' !! n = Some (ecl_cell_install_lgr c lgr_grid)) ∧
      ((∀ lc, lc ∈ lcs → active lc = true → host_cell lc ≠ Z.of_nat n) →
         hcs' !! n = Some c).
Proof.
  revert hcs. induction lcs as [|lc lcs IH]; intros hcs Hrange.
  - exists hcs. split; [done|]. split; [done|]. intros n c Hc. split; [|done].
    intros (lc & Hin & _). by apply elem_of_nil in Hin.
  - cbn [foldM]. rewrite install_lgr_step_unfold.
    destruct (active lc) eqn:Hact.
    + pose proof (Hrange lc ltac:(left) Hact) as Hh.
      destruct (array_get_in_range hcs (host_cell lc) Hh) as (hc & -> & Hhc).
      rewrite result_bind_ok, array_set_Ok, result_bind_ok by done.
      set (hcs1 := <[Z.to_nat (host_cell lc) := ecl_cell_install_lgr hc lgr_grid]> hcs).
      destruct (IH hcs1) as (hcs' & -> & Hlen & Hpt).
      { intros lc' Hin Hact'. unfold hcs1. rewrite length_insert.
        apply Hrange; [by right|done]. }
      exists hcs'. split; [done|]. split; [by rewrite Hlen; unfold hcs1; rewrite length_insert|].
      intros n c Hc.
      destruct (decide (Z.to_nat (host_cell lc) = n)) as [Heq|Hneq].
      * assert (Hc1 : hcs1 !! n = Some (ecl_cell_install_lgr c lgr_grid)).
        { unfold hcs1. rewrite Heq in *. rewrite list_lookup_insert_eq
            by (by eapply lookup_lt_Some). congruence. }
        destruct (Hpt n _ Hc1) as (Hhit & Hmiss). split.
        -- intros _.
           destruct (decide (Exists (λ lc', active lc' = true ∧ host_cell lc' = Z.of_nat n) lcs))
             as [Hex|Hnex].
           ++ apply Exists_exists in Hex as (lc' & Hin & Ha & Hh').
              rewrite Hhit by (by exists lc'). done.
           ++ apply Hmiss. intros lc' Hin Ha Hh'. apply Hnex, Exists_exists.
              by exists lc'.
        -- intros Hno. exfalso. apply (Hno lc); [by left|done|lia].
      * assert (Hc1 : hcs1 !! n = Some c).
        { unfold hcs1. by rewrite list_lookup_insert_ne. }
        destruct (Hpt n _ Hc1) as (Hhit & Hmiss). split.
        -- intros (lc' & Hin & Ha & Hh'). apply Hhit.
           apply elem_of_cons in Hin as [->|Hin]; [lia|by exists lc'].
        -- intros Hno. apply Hmiss. intros lc' Hin. apply Hno. by right.
    + rewrite result_bind_ok.
      destruct (IH hcs) as (hcs' & -> & Hlen & Hpt).
      { intros lc' Hin. apply Hrange. by right. }
      exists hcs'. split; [done|]. split; [done|].
      intros n c Hc. destruct (Hpt n c Hc) as (Hhit & Hmiss). split.
      * intros (lc' & Hin & Ha & Hh'). apply Hhit.
        apply elem_of_cons in Hin as [->|Hin]; [congruence|by exists lc'].
      * intros Hno. apply Hmiss. intros lc' Hin. apply Hno. by right.
Qed.

Lemma install_lgr_step_fold_fault (lgr_grid : grid_ref) (lcs hcs : list ecl_cell) :
  (∃ lc, lc ∈ lcs ∧ active lc = true ∧
         ¬ (0 <= host_cell lc < Z.of_nat (length hcs))) →
  foldM (install_lgr_step lgr_grid) lcs hcs = Fault.
Proof.
  revert hcs. induction lcs as [|lc lcs IH]; intros hcs (lc' & Hin & Hact & Hbad).
  - by apply elem_of_nil in Hin.
  - cbn [foldM]. rewrite install_lgr_step_unfold.
    destruct (active lc) eqn:Ha.
    + unfold array_get.
      destruct (Z.ltb_spec (host_cell lc) 0) as [|Hge]; [done|].
      destruct (hcs !! Z.to_nat (host_cell lc)) as [hc|] eqn:Hhc; [|done].
      pose proof (lookup_lt_Some _ _ _ Hhc) as Hlt.
      rewrite result_bind_ok, array_set_Ok, result_bind_ok by lia.
      apply IH. exists lc'. rewrite length_insert.
      apply elem_of_cons in Hin as [->|Hin]; [lia|done].
    + rewrite result_bind_ok. apply IH. exists lc'.
      apply elem_of_cons in Hin as [->|Hin]; [congruence|done].
Qed.


(** ** Construction of a grid from ZCORN, COORD and ACTNUM *)

Lemma for_loop_invariant {St} (I : Z → St → Prop) (lo hi : Z)
    (body : Z → St → result St) (s : St) :
  lo <= hi → I lo s →
  (∀ a s, lo <= a < hi → I a s → ∃ s', body a s = Ok s' ∧ I (a + 1) s') →
  ∃ s', for_loop lo hi body s = Ok s' ∧ I hi s'.
Proof.
  intros Hle Hs Hbody. unfold for_loop.
  remember (Z.to_nat (hi - lo)) as n eqn:Hn.
  revert lo s Hle Hs Hbody Hn. induction n as [|n IH]; intros lo s Hle Hs Hbody Hn.
  - assert (hi = lo) as -> by lia. rewrite Z.sub_diag. exists s. by split.
  - rewrite seqZ_cons by lia. cbn [foldM].
    destruct (Hbody lo s ltac:(lia) Hs) as (s' & -> & Hs').
    replace (Z.pred (hi - lo)) with (hi - Z.succ lo) by lia.
    apply IH; [lia|by replace (Z.succ lo) with (lo + 1) by lia| |lia].
    intros a s0 Ha. apply Hbody. lia.
Qed.

Lemma GRDECL_invariant_ext (g0 : ecl_grid) (zcorn coord : list Q) (actnum : list Z)
    (processed processed' : Z → Z → Z → Prop) (g : ecl_grid) :
  (∀ i j k, 0 <= i < nx g0 → 0 <= j < ny g0 → 0 <= k < nz g0 →
            processed i j k ↔ processed' i j k) →
  GRDECL_invariant g0 zcorn coord actnum processed g →
  GRDECL_invariant g0 zcorn coord actnum processed' g.
Proof.
  intros Hext (cs & Hg & Hlen & Hcs). exists cs. split; [done|]. split; [done|].
  intros i j k Hi Hj Hk. destruct (Hcs i j k Hi Hj Hk) as (c & Hc & Hp & Hn).
  exists c. split; [done|]. rewrite <- (Hext i j k Hi Hj Hk). by split.
Qed.

Lemma corners_set_get (cell : ecl_cell) (x y z : Z → Z → Q) (ip iz : Z) :
  0 <= ip < 4 → 0 <= iz < 2 →
  cell_corner (ecl_cell_set_corners cell x y z) (ip + iz * 4)
  = mk_point (x ip iz) (y ip iz) (z ip iz).
Proof.
  intros Hip Hiz.
  assert (ip = 0 ∨ ip = 1 ∨ ip = 2 ∨ ip = 3) as Hc by lia.
  assert (iz = 0 ∨ iz = 1) as Hz by lia.
  destruct Hc as [->|[->|[->| ->]]], Hz as [->| ->]; reflexivity.
Qed.

Lemma ecl_cell_set_corners_fields (cell : ecl_cell) (x y z : Z → Z → Q) :
  active (ecl_cell_set_corners cell x y z) = active cell ∧
  lgr (ecl_cell_set_corners cell x y z) = lgr cell ∧
  host_cell (ecl_cell_set_corners cell x y z) = host_cell cell.
Proof. done. Qed.

Lemma array_get_literal {A} (a b c d : A) :
  array_get [a; b; c; d] 0 = Ok a ∧ array_get [a; b; c; d] 1 = Ok b ∧
  array_get [a; b; c; d] 2 = Ok c ∧ array_get [a; b; c; d] 3 = Ok d.
Proof. done. Qed.

Ltac run_reads l :=
  repeat first
    [ rewrite result_bind_ok
    | rewrite (proj1 (array_get_literal _ _ _ _))
    | rewrite (proj1 (proj2 (array_get_literal _ _ _ _)))
    | rewrite (proj1 (proj2 (proj2 (array_get_literal _ _ _ _))))
    | rewrite (proj2 (proj2 (proj2 (array_get_literal _ _ _ _))))
    | match goal with
      | |- context [array_get l ?i] =>
          let v := fresh "v" in let Hv := fresh "Hv" in
          destruct (array_get_in_range l i ltac:(lia)) as (v & -> & Hv)
      end ].

Ltac read_lookups :=
  repeat match goal with
  | H : ?l !! Z.to_nat ?n = Some ?v |- context [?l !! Z.to_nat ?m] =>
      replace m with n by ring; rewrite H
  end.

Lemma GRDECL_read_z (nx ny nz : Z) (zcorn : list Q) (i j k : Z) :
  Z.of_nat (length zcorn) = 8 * nx * ny * nz →
  0 <= i < nx → 0 <= j < ny → 0 <= k < nz →
  ∃ z : Z → Z → Q,
    for_loop 0 2 (λ c z,
      z0 ← array_get zcorn (k*8*nx*ny + j*4*nx + 2*i + c*4*nx*ny);
      z1 ← array_get zcorn (k*8*nx*ny + j*4*nx + 2*i + 1 + c*4*nx*ny);
      z2 ← array_get zcorn (k*8*nx*ny + j*4*nx + 2*nx + 2*i + c*4*nx*ny);
      z3 ← array_get zcorn (k*8*nx*ny + j*4*nx + 2*nx + 2*i + 1 + c*4*nx*ny);
      Ok (array2_set (array2_set (array2_set (array2_set z 0 c z0) 1 c z1)
                                 2 c z2) 3 c z3)) array2_uninitialized
    = Ok z ∧
    ∀ ip iz, 0 <= ip < 4 → 0 <= iz < 2 →
      zcorn !! Z.to_nat (zcorn_index nx ny i j k ip iz) = Some (z ip iz).
Proof.
  intros Hlen Hi Hj Hk.
  assert (H1 : 0 <= j * nx) by nia.
  assert (H2 : j * nx + nx <= nx * ny) by nia.
  assert (H3 : 0 <= k * nx * ny) by nia.
  assert (H4 : k * nx * ny + nx * ny <= nx * ny * nz) by nia.
  unfold for_loop. change (seqZ 0 (2 - 0)) with [0; 1]. cbn [foldM].
  run_reads zcorn.
  eexists. split; [reflexivity|].
  intros ip iz Hip Hiz.
  assert (ip = 0 ∨ ip = 1 ∨ ip = 2 ∨ ip = 3) as Hc by lia.
  assert (iz = 0 ∨ iz = 1) as Hz by lia.
  destruct Hc as [->|[->|[->| ->]]], Hz as [->| ->];
    unfold zcorn_index.
  all: cbn [Z.ltb Z.compare Pos.compare Pos.compare_cont].
  all: cbv [array2_set array1_set]; cbn [Z.eqb Pos.eqb].
  all: repeat match goal with
       | |- context [?a mod 2] =>
           let r := eval vm_compute in (a mod 2) in change (a mod 2) with r
       end.
  all: match goal with
    | H : ?l !! Z.to_nat ?n = Some ?v |- ?l !! Z.to_nat ?m = Some ?v =>
        replace m with n by ring; exact H
    end.
Qed.

Lemma GRDECL_read_pillars (nx ny : Z) (coord : list Q) (i j : Z) :
  Z.of_nat (length coord) = 6 * (nx + 1) * (ny + 1) →
  0 <= i < nx → 0 <= j < ny →
  ∃ pillars : Z → Z → point,
    for_loop 0 4 (λ ip pillars,
      index ← array_get [ 6 * (j * (nx + 1) + i);
                          6 * (j * (nx + 1) + i + 1);
                          6 * ((j + 1) * (nx + 1) + i);
                          6 * ((j + 1) * (nx + 1) + i + 1) ] ip;
      c0 ← array_get coord index;
      c1 ← array_get coord (index + 1);
      c2 ← array_get coord (index + 2);
      let pillars := array2_set pillars ip 0 (mk_point c0 c1 c2) in
      let index := index + 3 in
      c0 ← array_get coord index;
      c1 ← array_get coord (index + 1);
      c2 ← array_get coord (index + 2);
      Ok (array2_set pillars ip 1 (mk_point c0 c1 c2))) pillars_uninitialized
    = Ok pillars ∧
    ∀ ip, 0 <= ip < 4 →
      coord_point coord (pillar_index nx i j ip) = Some (pillars ip 0) ∧
      coord_point coord (pillar_index nx i j ip + 3) = Some (pillars ip 1).
Proof.
  intros Hlen Hi Hj.
  assert (H1 : 0 <= j * nx) by nia.
  assert (H2 : j * nx + nx <= nx * ny) by nia.
  unfold for_loop. change (seqZ 0 (4 - 0)) with [0; 1; 2; 3]. cbn [foldM].
  run_reads coord.
  eexists. split; [reflexivity|].
  intros ip Hip.
  assert (ip = 0 ∨ ip = 1 ∨ ip = 2 ∨ ip = 3) as Hc by lia.
  destruct Hc as [->|[->|[->| ->]]]; unfold pillar_index, coord_point;
    repeat match goal with
       | |- context [?a mod 2] =>
           let r := eval vm_compute in (a mod 2) in change (a mod 2) with r
       | |- context [?a / 2] =>
           let r := eval vm_compute in (a / 2) in change (a / 2) with r
       end;
    cbv [array2_set array1_set]; cbn [Z.eqb Pos.eqb].
  all: split; read_lookups; reflexivity.
Qed.

Lemma pillars_cross_planes_spec (pillars : Z → Z → point) (z : Z → Z → Q) (ip iz : Z) :
  0 <= ip < 4 → 0 <= iz < 2 →
  let p0 := pillars ip 0 in
  let p1 := pillars ip 1 in
  let t := ((z ip iz - pz p0) / (pz p1 - pz p0))%Q in
  (pillars_cross_planes pillars z).1 ip iz = (px p0 + t * (px p1 - px p0))%Q ∧
  (pillars_cross_planes pillars z).2 ip iz = (py p0 + t * (py p1 - py p0))%Q.
Proof.
  intros Hip Hiz.
  assert (ip = 0 ∨ ip = 1 ∨ ip = 2 ∨ ip = 3) as Hc by lia.
  assert (iz = 0 ∨ iz = 1) as Hz by lia.
  destruct Hc as [->|[->|[->| ->]]], Hz as [->| ->]; split; reflexivity.
Qed.

Lemma vertical_pillar (a b t : Q) : (a == b)%Q → (a + t * (b - a) == a)%Q.
Proof. intros ->. ring. Qed.

Lemma GRDECL_body_k (g0 : ecl_grid) (zcorn coord : list Q) (actnum : list Z)
    (pillars : Z → Z → point) (i j k : Z) (g : ecl_grid) :
  Z.of_nat (length (cells g0)) = nx g0 * ny g0 * nz g0 →
  Z.of_nat (length zcorn) = 8 * nx g0 * ny g0 * nz g0 →
  Z.of_nat (length actnum) = nx g0 * ny g0 * nz g0 →
  0 <= i < nx g0 → 0 <= j < ny g0 → 0 <= k < nz g0 →
  (∀ ip, 0 <= ip < 4 →
     coord_point coord (pillar_index (nx g0) i j ip) = Some (pillars ip 0) ∧
     coord_point coord (pillar_index (nx g0) i j ip + 3) = Some (pillars ip 1)) →
  GRDECL_invariant g0 zcorn coord actnum (GRDECL_processed i j k) g →
  ∃ g',
    (z ← for_loop 0 2 (λ c z,
       z0 ← array_get zcorn (k*8*nx g0*ny g0 + j*4*nx g0 + 2*i + c*4*nx g0*ny g0);
       z1 ← array_get zcorn (k*8*nx g0*ny g0 + j*4*nx g0 + 2*i + 1 + c*4*nx g0*ny g0);
       z2 ← array_get zcorn (k*8*nx g0*ny g0 + j*4*nx g0 + 2*nx g0 + 2*i + c*4*nx g0*ny g0);
       z3 ← array_get zcorn (k*8*nx g0*ny g0 + j*4*nx g0 + 2*nx g0 + 2*i + 1 + c*4*nx g0*ny g0);
       Ok (array2_set (array2_set (array2_set (array2_set z 0 c z0) 1 c z1)
                                  2 c z2) 3 c z3)) array2_uninitialized;
     let '(x, y) := pillars_cross_planes pillars z in
     ecl_grid_set_cell_EGRID g i j k x y z actnum) = Ok g' ∧
    GRDECL_invariant g0 zcorn coord actnum (GRDECL_processed i j (k + 1)) g'.
Proof.
  intros Hcells Hzcorn Hactnum Hi Hj Hk Hpillars (cs & -> & Hlen & Hcs).
  destruct (GRDECL_read_z (nx g0) (ny g0) (nz g0) zcorn i j k Hzcorn Hi Hj Hk)
    as (z & -> & Hz).
  rewrite result_bind_ok.
  pose proof (pillars_cross_planes_spec pillars z) as Hxy.
  destruct (pillars_cross_planes pillars z) as [x y]. cbn [fst snd] in Hxy.
  unfold ecl_grid_set_cell_EGRID.
  change (ecl_grid_get_global_index__ (grid_set_cells g0 cs) i j k)
    with (ecl_grid_get_global_index__ g0 i j k).
  change (cells (grid_set_cells g0 cs)) with cs.
  pose proof (ecl_grid_get_global_index_range g0 i j k Hi Hj Hk) as Hn.
  destruct (Hcs i j k Hi Hj Hk) as (c & Hc & _ & Hfresh).
  rewrite (Hfresh ltac:(unfold GRDECL_processed; lia)) in Hc. clear Hfresh c.
  set (n := ecl_grid_get_global_index__ g0 i j k) in *.
  cbn zeta.
  rewrite (proj2 (array_get_Ok cs n ecl_cell_alloc)) by (split; [lia|done]).
  rewrite result_bind_ok.
  destruct (array_get_in_range actnum n ltac:(lia)) as (a & -> & Ha).
  rewrite result_bind_ok, array_set_Ok, result_bind_ok by lia.
  set (c' := if 0 <? a then _ else _).
  exists (grid_set_cells g0 (<[Z.to_nat n := c']> cs)). split; [done|].
  exists (<[Z.to_nat n := c']> cs). split; [done|]. split; [by rewrite length_insert|].
  intros i' j' k' Hi' Hj' Hk'.
  destruct (decide (i' = i ∧ j' = j ∧ k' = k)) as [(-> & -> & ->)|Hne].
  - exists c'. split; [apply list_lookup_insert_eq; lia|].
    split; [|intros Hnp; exfalso; apply Hnp; unfold GRDECL_processed; lia].
    intros _. split; [|split; [|split]].
    + exists a. split; [exact Ha|]. unfold c'. by destruct (0 <? a).
    + unfold c'. by destruct (0 <? a).
    + unfold c'. by destruct (0 <? a).
    + intros ip iz Hip Hiz.
      assert (Hcorner : cell_corner c' (ip + iz * 4)
                        = mk_point (x ip iz) (y ip iz) (z ip iz)).
      { rewrite <- (corners_set_get ecl_cell_alloc x y z ip iz Hip Hiz).
        unfold c'. by destruct (0 <? a). }
      rewrite Hcorner. split; [by apply Hz|].
      destruct (Hpillars ip Hip) as (Hp0 & Hp1).
      exists (pillars ip 0), (pillars ip 1). split; [done|]. split; [done|].
      intros Hx Hy _. destruct (Hxy ip iz Hip Hiz) as (-> & ->).
      split; by apply vertical_pillar.
  - destruct (Hcs i' j' k' Hi' Hj' Hk') as (c & Hc' & Hp & Hf).
    exists c. split.
    + rewrite list_lookup_insert_ne; [done|].
      intros E. apply Hne.
      pose proof (ecl_grid_get_global_index_range g0 i' j' k' Hi' Hj' Hk').
      assert (E' : ecl_grid_get_global_index__ g0 i' j' k' = n) by lia.
      pose proof (ecl_grid_get_global_index_inj g0 i' j' k' i j k
                    Hi' Hj' Hk' Hi Hj Hk E') as [= -> -> ->].
      done.
    + unfold GRDECL_processed in *. split.
      * intros Hproc. apply Hp. lia.
      * intros Hnp. apply Hf. lia.
Qed.

Lemma GRDECL_init (g0 : ecl_grid) (zcorn coord : list Q) (actnum : list Z) :
  0 <= nx g0 → 0 <= ny g0 → 0 <= nz g0 →
  Z.of_nat (length (cells g0)) = nx g0 * ny g0 * nz g0 →
  (∀ c, c ∈ cells g0 → c = ecl_cell_alloc) →
  Z.of_nat (length zcorn) = 8 * nx g0 * ny g0 * nz g0 →
  Z.of_nat (length coord) = 6 * (nx g0 + 1) * (ny g0 + 1) →
  Z.of_nat (length actnum) = nx g0 * ny g0 * nz g0 →
  ∃ g', ecl_grid_init_GRDECL_data__ g0 0 (ny g0) zcorn coord actnum = Ok g' ∧
        GRDECL_invariant g0 zcorn coord actnum (λ _ _ _, True) g'.
Proof.
  intros Hnx Hny Hnz Hcells Halloc Hzcorn Hcoord Hactnum.
  unfold ecl_grid_init_GRDECL_data__. cbn zeta.
  destruct (for_loop_invariant
              (λ j g, GRDECL_invariant g0 zcorn coord actnum (GRDECL_processed 0 j 0) g)
              0 (ny g0)) with (s := g0) (body := λ j g,
    for_loop 0 (nx g0) (λ i g,
      pillars ← for_loop 0 4 (λ ip pillars,
        index ← array_get [ 6 * (j * (nx g0 + 1) + i);
                            6 * (j * (nx g0 + 1) + i + 1);
                            6 * ((j + 1) * (nx g0 + 1) + i);
                            6 * ((j + 1) * (nx g0 + 1) + i + 1) ] ip;
        c0 ← array_get coord index;
        c1 ← array_get coord (index + 1);
        c2 ← array_get coord (index + 2);
        let pillars := array2_set pillars ip 0 (mk_point c0 c1 c2) in
        let index := index + 3 in
        c0 ← array_get coord index;
        c1 ← array_get coord (index + 1);
        c2 ← array_get coord (index + 2);
        Ok (array2_set pillars ip 1 (mk_point c0 c1 c2))) pillars_uninitialized;
      for_loop 0 (nz g0) (λ k g,
        z ← for_loop 0 2 (λ c z,
          z0 ← array_get zcorn (k*8*nx g0*ny g0 + j*4*nx g0 + 2*i + c*4*nx g0*ny g0);
          z1 ← array_get zcorn (k*8*nx g0*ny g0 + j*4*nx g0 + 2*i + 1 + c*4*nx g0*ny g0);
          z2 ← array_get zcorn (k*8*nx g0*ny g0 + j*4*nx g0 + 2*nx g0 + 2*i + c*4*nx g0*ny g0);
          z3 ← array_get zcorn (k*8*nx g0*ny g0 + j*4*nx g0 + 2*nx g0 + 2*i + 1 + c*4*nx g0*ny g0);
          Ok (array2_set (array2_set (array2_set (array2_set z 0 c z0) 1 c z1)
                                     2 c z2) 3 c z3)) array2_uninitialized;
        let '(x, y) := pillars_cross_planes pillars z in
        ecl_grid_set_cell_EGRID g i j k x y z actnum) g) g)
    as (g' & Hg' & Hinv); [done| | |].
  - exists (cells g0). split; [by destruct g0|]. split; [done|].
    intros i j k Hi Hj Hk.
    pose proof (ecl_grid_get_global_index_range g0 i j k Hi Hj Hk) as Hn.
    destruct (lookup_lt_is_Some_2 (cells g0)
                (Z.to_nat (ecl_grid_get_global_index__ g0 i j k)) ltac:(lia)) as (c & Hc).
    exists c. split; [done|]. split.
    + unfold GRDECL_processed. lia.
    + intros _. apply Halloc. by eapply list_elem_of_lookup_2.
  - intros j g Hj Hinv.
    match goal with
    | |- ∃ s', for_loop 0 (nx g0) ?b g = Ok s' ∧ _ =>
        destruct (for_loop_invariant
          (λ i g, GRDECL_invariant g0 zcorn coord actnum (GRDECL_processed i j 0) g)
          0 (nx g0) b g Hnx Hinv) as (g' & Hg' & Hinv')
    end.
    + intros i g1 Hi Hinv1.
      destruct (GRDECL_read_pillars (nx g0) (ny g0) coord i j Hcoord Hi Hj)
        as (pillars & -> & Hpillars).
      rewrite result_bind_ok.
      match goal with
      | |- ∃ s', for_loop 0 (nz g0) ?b g1 = Ok s' ∧ _ =>
          destruct (for_loop_invariant
            (λ k g, GRDECL_invariant g0 zcorn coord actnum (GRDECL_processed i j k) g)
            0 (nz g0) b g1 Hnz Hinv1) as (g2 & Hg2 & Hinv2)
      end.
      * intros k g2 Hk Hinv2. by apply GRDECL_body_k.
      * exists g2. split; [done|].
        eapply GRDECL_invariant_ext; [|exact Hinv2].
        intros i' j' k' Hi' Hj' Hk'; unfold GRDECL_processed; lia.
    + exists g'. split; [done|].
      eapply GRDECL_invariant_ext; [|exact Hinv'].
        intros i' j' k' Hi' Hj' Hk'; unfold GRDECL_processed; lia.
  - exists g'. split; [done|].
    eapply GRDECL_invariant_ext; [|exact Hinv].
        intros i' j' k' Hi' Hj' Hk'; unfold GRDECL_processed; lia.
Qed.

Lemma taint_fold_links (l : list Z) (cell : ecl_cell) :
  lgr (foldl taint_corner cell l) = lgr cell ∧
  host_cell (foldl taint_corner cell l) = host_cell cell.
Proof.
  revert cell. induction l as [|c l IH]; intros cell; cbn [foldl]; [done|].
  destruct (IH (taint_corner cell c)) as (-> & ->).
  unfold taint_corner. by destruct (at_origin_xy _).
Qed.

Lemma GRDECL_cell_ok_fields (nx ny : Z) (zcorn coord : list Q) (actnum : list Z)
    (i j k : Z) (c c' : ecl_cell) :
  active c' = active c → lgr c' = lgr c → host_cell c' = host_cell c →
  corner_list c' = corner_list c →
  GRDECL_cell_ok nx ny zcorn coord actnum i j k c →
  GRDECL_cell_ok nx ny zcorn coord actnum i j k c'.
Proof.
  unfold GRDECL_cell_ok, cell_corner. by intros -> -> -> ->.
Qed.

Lemma count_active_actnum (cs : list ecl_cell) (actnum : list Z) :
  length cs = length actnum →
  (∀ n c a, cs !! n = Some c → actnum !! n = Some a → active c = (0 <? a)) →
  count_active cs = Z.of_nat (length (filter (λ a, 0 < a) actnum)).
Proof.
  revert actnum. induction cs as [|c cs IH]; intros [|a actnum] Hlen Hpt; try done.
  cbn [count_active]. rewrite filter_cons.
  rewrite (Hpt 0%nat c a eq_refl eq_refl).
  rewrite (IH actnum); [|by injection Hlen|intros n; apply (Hpt (S n))].
  destruct (decide (0 < a)), (Z.ltb_spec 0 a); try lia; simpl; lia.
Qed.


(** * Instances of the further properties *)

Lemma ijk1_global_index3_roundtrip_witness :
  ∃ i j k : Z,
    ecl_grid_get_ijk1 index_example_grid 3 = Ok (i, j, k) ∧
    (0 <= i < 2 ∧ 0 <= j < 1 ∧ 0 <= k < 2) ∧
    ecl_grid_get_global_index3 index_example_grid i j k = Ok 3.
Proof.
  apply (ijk1_global_index3_roundtrip index_example_grid 3); simpl; lia.
Defined.

Lemma ijk1A_active_index3_roundtrip_witness :
  (∃ i j k : Z,
     ecl_grid_get_ijk1A built_example_grid 1 = Ok (i, j, k) ∧
     ecl_grid_get_active_index3 built_example_grid i j k = Ok 1 ∧
     ecl_grid_cell_active3 built_example_grid i j k = Ok true) ∧
  ecl_grid_get_ijk1A built_example_grid 3 = Abort.
Proof.
  destruct (ijk1A_active_index3_roundtrip built_example_grid 1 built_example_grid_built)
    as [H1 _].
  destruct (ijk1A_active_index3_roundtrip built_example_grid 3 built_example_grid_built)
    as [_ H3].
  split.
  - apply H1. vm_compute. split; [discriminate|reflexivity].
  - apply H3. vm_compute. intros [_ H]. discriminate H.
Defined.

Lemma active_index3_ijk1A_roundtrip_witness :
  ∃ (c : ecl_cell) (a : Z),
    array_get (cells built_example_grid)
      (ecl_grid_get_global_index__ built_example_grid 0 0 1) = Ok c ∧
    ecl_grid_get_active_index3 built_example_grid 0 0 1 = Ok a ∧
    ecl_grid_cell_active3 built_example_grid 0 0 1 = Ok (active c) ∧
    (active c = true →
       0 <= a < total_active built_example_grid ∧
       ecl_grid_get_ijk1A built_example_grid a = Ok (0, 0, 1)) ∧
    (active c = false → a = -1).
Proof.
  apply (active_index3_ijk1A_roundtrip built_example_grid 0 0 1 built_example_grid_built).
  vm_compute. repeat split; discriminate.
Defined.

Lemma regular_grid_wf : grid_wf (regular_grid 4 3 1).
Proof. repeat split; vm_compute; congruence. Defined.

Lemma regular_grid_contains_defined (p : point) :
  p = mk_point (9 # 2) 2 (3 # 2) →
  @contains_defined tetrahedron_model (regular_grid 4 3 1) p.
Proof.
  intros -> c Hc. apply list_elem_of_In in Hc. vm_compute in Hc.
  repeat (destruct Hc as [<-|Hc]; [vm_compute; eexists; reflexivity|]).
  destruct Hc.
Defined.


Lemma locate_negative_start_index_out_of_bounds_witness :
  @ecl_grid_get_global_index_from_xyz tetrahedron_model (regular_grid 4 3 1)
    (9 # 2) 2 (3 # 2) (-1) = Fault.
Proof.
  apply (@locate_negative_start_index_out_of_bounds tetrahedron_model).
  - vm_compute. discriminate.
  - intros v Hv. discriminate Hv.
  - lia.
  - vm_compute. discriminate.
Defined.

Lemma global_index_from_xy_sound_and_complete_witness :
  (∃ r : Z,
     ecl_grid_get_global_index_from_xy (regular_grid 4 3 1) 0 true (9 # 2) (5 # 2) = Ok r ∧
     ((r = -1 ∧
       ∀ i j c, 0 <= i < nx (regular_grid 4 3 1) → 0 <= j < ny (regular_grid 4 3 1) →
         array_get (cells (regular_grid 4 3 1))
           (ecl_grid_get_global_index__ (regular_grid 4 3 1) i j 0) = Ok c →
         ecl_cell_layer_contains_xy c true (9 # 2) (5 # 2) = false)
      ∨
      (∃ i j c, 0 <= i < nx (regular_grid 4 3 1) ∧ 0 <= j < ny (regular_grid 4 3 1) ∧
         r = ecl_grid_get_global_index__ (regular_grid 4 3 1) i j 0 ∧
         array_get (cells (regular_grid 4 3 1)) r = Ok c ∧
         ecl_cell_layer_contains_xy c true (9 # 2) (5 # 2) = true ∧
         tainted_geometry c = false))) ∧
  ecl_grid_get_global_index_from_xy (regular_grid 4 3 1) 1 true (9 # 2) (5 # 2) = Abort.
Proof.
  destruct (global_index_from_xy_sound_and_complete (regular_grid 4 3 1) 0 true
              (9 # 2) (5 # 2) regular_grid_wf) as [H0 _].
  destruct (global_index_from_xy_sound_and_complete (regular_grid 4 3 1) 1 true
              (9 # 2) (5 # 2) regular_grid_wf) as [_ H1].
  split.
  - apply H0. vm_compute. split; [discriminate|reflexivity].
  - apply H1; vm_compute; [intros [_ H]; discriminate H|reflexivity|reflexivity].
Defined.

Lemma locate_depth_finds_layer_witness :
  ∃ (top bottom : Q) (r : Z),
    ecl_grid_get_top2 (regular_grid 4 3 1) 2 1 = Ok top ∧
    ecl_grid_get_bottom2 (regular_grid 4 3 1) 2 1 = Ok bottom ∧
    ecl_grid_locate_depth (regular_grid 4 3 1) (3 # 2) 2 1 = Ok r ∧
    ((3 # 2 < top)%Q → r = -1) ∧
    ((top <= 3 # 2)%Q → (bottom <= 3 # 2)%Q → r = - nz (regular_grid 4 3 1)) ∧
    ((top <= 3 # 2)%Q → (3 # 2 < bottom)%Q →
       0 <= r < nz (regular_grid 4 3 1) ∧
       (∃ b, ecl_grid_get_bottom3 (regular_grid 4 3 1) 2 1 r = Ok b ∧ (3 # 2 < b)%Q) ∧
       (∀ k b, 0 <= k < r → ecl_grid_get_bottom3 (regular_grid 4 3 1) 2 1 k = Ok b →
               (b <= 3 # 2)%Q)).
Proof.
  apply (locate_depth_finds_layer (regular_grid 4 3 1) (3 # 2) 2 1).
  - vm_compute. reflexivity.
  - vm_compute. split; [discriminate|reflexivity].
  - vm_compute. split; [discriminate|reflexivity].
  - vm_compute. reflexivity.
Defined.

Lemma add_lgr_then_lookup_witness :
  ecl_grid_has_lgr (λ s, s) loaded_registered_store 0%nat "LGR1" = Ok true ∧
  ecl_grid_get_lgr (λ s, s) loaded_registered_store 0%nat "LGR1" = Ok 1%nat ∧
  ecl_grid_has_lgr (λ s, s) loaded_registered_store 0%nat "LGR2"
  = ecl_grid_has_lgr (λ s, s) loaded_named_store 0%nat "LGR2" ∧
  ecl_grid_get_num_lgr loaded_named_store 0%nat = Ok 0 ∧
  ecl_grid_get_num_lgr loaded_registered_store 0%nat = Ok 1 ∧
  ecl_grid_iget_lgr loaded_registered_store 0%nat 0 = Ok 1%nat.
Proof.
  assert (Hm : ∃ main lgr : ecl_grid,
            loaded_named_store !! 0%nat = Some main ∧ grid_nr main = 0 ∧
            loaded_named_store !! 1%nat = Some lgr ∧
            name lgr = Some "LGR1"%string ∧ grid_nr lgr = 1).
  { vm_compute. do 2 eexists. repeat split; reflexivity. }
  destruct Hm as (main & lgr & Hm & Hnr & Hl & Hname & Hlnr).
  assert (Hadd : ecl_grid_add_lgr loaded_named_store 0%nat 1%nat
                 = Ok loaded_registered_store) by (vm_compute; reflexivity).
  destruct (add_lgr_then_lookup (λ s, s) loaded_named_store loaded_registered_store
              0%nat 1%nat main lgr "LGR1" Hm Hnr Hl Hname Hadd)
    as (Hin & Hout & Hn0 & Hn1 & Hi & _).
  rewrite Hlnr in Hn0, Hn1, Hi.
  destruct (Hin "LGR1"%string eq_refl) as (Hhas & Hget).
  destruct (Hout "LGR2"%string ltac:(discriminate)) as (Hhas2 & _).
  split; [exact Hhas|]. split; [exact Hget|]. split; [exact Hhas2|].
  split; [exact Hn0|]. split; [exact Hn1|exact Hi].
Defined.


